(** * hbctranslate: bilingual line matching and dual-cursor synchronization

    A shallow embedding of [matcher.go] and of the synchronization driver of
    [main.go] ([getNextNonEmptyLine], [extractLineFeatures],
    [synchronizeDocuments]), together with the parts of the Go runtime and
    standard library the code relies on (UTF-8 decoding of [range] loops,
    [strings.Builder], [strings.ToLower], [strings.TrimSpace], ...).

    Go strings are byte sequences; runes and Go [int]s are integers in [Z]. *)

From Stdlib Require Import ZArith List Bool Lia String.
From Stdlib Require Import Strings.Byte.
Import ListNotations.
Open Scope Z_scope.

(** ** Go strings, bytes and runes *)

Definition rune := Z.
Definition gostring := list byte.

(** The numeric value of a byte, and Go's conversion [byte(x)], which keeps
    the low eight bits. *)
Definition byteZ (b : byte) : Z := Z.of_N (Byte.to_N b).

Definition byte_of (z : Z) : byte :=
  match Byte.of_N (Z.to_N (z mod 256)) with
  | Some b => b
  | None => x00
  end.

(** A string literal of the source, as its UTF-8 bytes. *)
Definition str (s : string) : gostring := list_byte_of_string s.

(** [len(s)], [s[i]] and [s[i:]]. *)
Definition len {A} (s : list A) : Z := Z.of_nat (List.length s).
Definition byteAt (s : gostring) (i : Z) : Z := byteZ (nth (Z.to_nat i) s x00).
Definition sliceFrom {A} (s : list A) (i : Z) : list A := skipn (Z.to_nat i) s.

Definition gostring_eqb (a b : gostring) : bool :=
  if list_eq_dec Byte.byte_eq_dec a b then true else false.

(** Conversions to the fixed-width integer types the library code uses. *)
Definition int32 (z : Z) : Z := (z + 2147483648) mod 4294967296 - 2147483648.
Definition uint32 (z : Z) : Z := z mod 4294967296.

(** ** Package [unicode/utf8] *)
Module utf8.

Definition RuneError : rune := 0xFFFD.
Definition RuneSelf : Z := 0x80.
Definition MaxRune : rune := 0x10FFFF.
Definition UTFMax : Z := 4.

Definition surrogateMin : Z := 0xD800.
Definition surrogateMax : Z := 0xDFFF.

Definition t2 : Z := 0xC0.
Definition t3 : Z := 0xE0.
Definition t4 : Z := 0xF0.
Definition tx : Z := 0x80.
Definition maskx : Z := 0x3F.
Definition mask2 : Z := 0x1F.
Definition mask3 : Z := 0x0F.
Definition mask4 : Z := 0x07.

Definition rune1Max : Z := 0x7F.
Definition rune2Max : Z := 0x7FF.
Definition rune3Max : Z := 0xFFFF.

Definition locb : Z := 0x80.
Definition hicb : Z := 0xBF.

(** Entries of the [first] table: size in the low bits, index of the
    accept range in the high bits. *)
Definition xx : Z := 0xF1.
Definition as_ : Z := 0xF0.
Definition s1 : Z := 0x02.
Definition s2 : Z := 0x13.
Definition s3 : Z := 0x03.
Definition s4 : Z := 0x23.
Definition s5 : Z := 0x34.
Definition s6 : Z := 0x04.
Definition s7 : Z := 0x44.

(** [first[b]], the table written by the ranges of its rows. *)
Definition first (b : Z) : Z :=
  if b <? 0x80 then as_
  else if b <? 0xC2 then xx
  else if b <? 0xE0 then s1
  else if b =? 0xE0 then s2
  else if b <? 0xED then s3
  else if b =? 0xED then s4
  else if b <? 0xF0 then s3
  else if b =? 0xF0 then s5
  else if b <? 0xF4 then s6
  else if b =? 0xF4 then s7
  else xx.

Record acceptRange := { lo : Z; hi : Z }.

Definition acceptRanges (i : Z) : acceptRange :=
  if i =? 0 then {| lo := locb; hi := hicb |}
  else if i =? 1 then {| lo := 0xA0; hi := hicb |}
  else if i =? 2 then {| lo := locb; hi := 0x9F |}
  else if i =? 3 then {| lo := 0x90; hi := hicb |}
  else if i =? 4 then {| lo := locb; hi := 0x8F |}
  else {| lo := 0; hi := 0 |}.

(** [utf8.DecodeRuneInString]: the first rune of [s] and its width in
    bytes; [(RuneError, 1)] on an invalid or truncated encoding. *)
Definition DecodeRuneInString (s : gostring) : rune * Z :=
  let n := len s in
  if n <? 1 then (RuneError, 0)
  else
    let s0 := byteAt s 0 in
    let x := first s0 in
    if x >=? as_ then
      let mask := Z.shiftr (int32 (Z.shiftl x 31)) 31 in
      (Z.lor (Z.land s0 (Z.lnot mask)) (Z.land RuneError mask), 1)
    else
      let sz := Z.land x 7 in
      let accept := acceptRanges (Z.shiftr x 4) in
      if n <? sz then (RuneError, 1)
      else
        let s1 := byteAt s 1 in
        if (s1 <? lo accept) || (hi accept <? s1) then (RuneError, 1)
        else if sz <=? 2 then
          (Z.lor (Z.shiftl (Z.land s0 mask2) 6) (Z.land s1 maskx), 2)
        else
          let s2 := byteAt s 2 in
          if (s2 <? locb) || (hicb <? s2) then (RuneError, 1)
          else if sz <=? 3 then
            (Z.lor (Z.lor (Z.shiftl (Z.land s0 mask3) 12)
                          (Z.shiftl (Z.land s1 maskx) 6))
                   (Z.land s2 maskx), 3)
          else
            let s3 := byteAt s 3 in
            if (s3 <? locb) || (hicb <? s3) then (RuneError, 1)
            else
              (Z.lor (Z.lor (Z.lor (Z.shiftl (Z.land s0 mask4) 18)
                                   (Z.shiftl (Z.land s1 maskx) 12))
                            (Z.shiftl (Z.land s2 maskx) 6))
                     (Z.land s3 maskx), 4).

Definition appendRuneNonASCII (p : gostring) (r : rune) : gostring :=
  let i := uint32 r in
  if i <=? rune2Max then
    p ++ [byte_of (Z.lor t2 (Z.shiftr r 6));
          byte_of (Z.lor tx (Z.land r maskx))]
  else
    let three (r : rune) :=
      p ++ [byte_of (Z.lor t3 (Z.shiftr r 12));
            byte_of (Z.lor tx (Z.land (Z.shiftr r 6) maskx));
            byte_of (Z.lor tx (Z.land r maskx))] in
    if (MaxRune <? i) || ((surrogateMin <=? i) && (i <=? surrogateMax)) then
      three RuneError
    else if i <=? rune3Max then three r
    else
      p ++ [byte_of (Z.lor t4 (Z.shiftr r 18));
            byte_of (Z.lor tx (Z.land (Z.shiftr r 12) maskx));
            byte_of (Z.lor tx (Z.land (Z.shiftr r 6) maskx));
            byte_of (Z.lor tx (Z.land r maskx))].

(** [utf8.AppendRune]. *)
Definition AppendRune (p : gostring) (r : rune) : gostring :=
  if uint32 r <=? rune1Max then p ++ [byte_of r]
  else appendRuneNonASCII p r.

End utf8.

(** ** [for i, r := range s]

    The pairs (byte index, rune) a [range] loop over the string [s] visits:
    at each position the next rune is decoded, an invalid byte yields
    [utf8.RuneError] and advances by one byte.  [skip] counts the bytes of
    the current rune that are still to be passed over. *)
Fixpoint rangeFrom (s : gostring) (i : Z) (skip : nat) : list (Z * rune) :=
  match s with
  | [] => []
  | _ :: s' =>
      match skip with
      | S k => rangeFrom s' (i + 1) k
      | O =>
          let (r, size) := utf8.DecodeRuneInString s in
          (i, r) :: rangeFrom s' (i + 1) (Z.to_nat size - 1)
      end
  end.

Definition rangeString (s : gostring) : list (Z * rune) := rangeFrom s 0 0.

(** The runes of [s] in order, as a [range] loop sees them. *)
Definition runesOf (s : gostring) : list rune := map snd (rangeString s).

(** ** Package [unicode] *)
Module unicode.

Definition MaxASCII : rune := 0x7F.
Definition MaxLatin1 : rune := 0xFF.

(** [unicode.IsSpace]: the Latin-1 cases of the source and, above
    Latin-1, the rows of the [White_Space] table. *)
Definition IsSpace (r : rune) : bool :=
  if uint32 r <=? MaxLatin1 then
    (r =? 9) || (r =? 10) || (r =? 11) || (r =? 12) || (r =? 13)
    || (r =? 32) || (r =? 0x85) || (r =? 0xA0)
  else
    (r =? 0x1680) || ((0x2000 <=? r) && (r <=? 0x200A))
    || ((0x2028 <=? r) && (r <=? 0x2029)) || (r =? 0x202F)
    || (r =? 0x205F) || (r =? 0x3000).

(** The case tables of the Go distribution ([unicode.CaseRanges]) are data
    outside this repository: [To_LowerCase r] stands for
    [unicode.To(unicode.LowerCase, r)], which [unicode.ToLower] consults
    for runes above [MaxASCII] only. *)
Class CaseTables := { To_LowerCase : rune -> rune }.

(** [unicode.ToLower]; its result is a rune, a 32-bit integer. *)
Definition ToLower {tables : CaseTables} (r : rune) : rune :=
  if r <=? MaxASCII then
    if (65 <=? r) && (r <=? 90) then r + (97 - 65) else r
  else int32 (To_LowerCase r).

(** Case tables without any pair above ASCII; they agree with the Go
    distribution on every text whose runes above ASCII are caseless, as
    CJK ideographs are. *)
Definition caselessAboveASCII : CaseTables := {| To_LowerCase r := r |}.

(** The case tables of the Go distribution up to U+00FF: the entries
    [{0x00C0, 0x00D6, d{0, 32, 0}}] and [{0x00D8, 0x00DE, d{0, 32, 0}}] of
    [unicode.CaseRanges] are the only ones there with a lower-case delta,
    which is 32. *)
Definition latin1CaseTables : CaseTables :=
  {| To_LowerCase r :=
       if ((0xC0 <=? r) && (r <=? 0xD6)) || ((0xD8 <=? r) && (r <=? 0xDE)) then r + 32
       else r |}.

End unicode.

(** ** Package [strings] *)
Module strings.

(** [strings.Builder]: the bytes written so far. *)
Definition Builder := gostring.
Definition WriteRune (b : Builder) (r : rune) : Builder := utf8.AppendRune b r.
Definition WriteByte (b : Builder) (c : byte) : Builder := b ++ [c].
Definition WriteString (b : Builder) (s : gostring) : Builder := b ++ s.
Definition String (b : Builder) : gostring := b.

(** [asciiSpace[c] == 1]. *)
Definition asciiSpace (c : Z) : bool :=
  (c =? 9) || (c =? 10) || (c =? 11) || (c =? 12) || (c =? 13) || (c =? 32).

(** [utf8.RuneStart] and [utf8.DecodeLastRuneInString], used by the
    trimming functions. *)
Definition RuneStart (b : Z) : bool := negb (Z.land b 0xC0 =? 0x80).

(** [for start--; start >= lim; start-- { if RuneStart(s[start]) { break } }] *)
Fixpoint backToRuneStart (fuel : nat) (s : gostring) (start lim : Z) : Z :=
  match fuel with
  | O => start
  | S fuel' =>
      if start >=? lim then
        if RuneStart (byteAt s start) then start
        else backToRuneStart fuel' s (start - 1) lim
      else start
  end.

Definition DecodeLastRuneInString (s : gostring) : rune * Z :=
  let end_ := len s in
  if end_ =? 0 then (utf8.RuneError, 0)
  else
    let start := end_ - 1 in
    let r := byteAt s start in
    if r <? utf8.RuneSelf then (r, 1)
    else
      let lim := Z.max (end_ - utf8.UTFMax) 0 in
      let start := backToRuneStart 4 s (start - 1) lim in
      let start := Z.max start 0 in
      let (r, size) := utf8.DecodeRuneInString (sliceFrom s start) in
      if negb (start + size =? end_) then (utf8.RuneError, 1)
      else (r, size).

(** [indexFunc(s, f, truth)]. *)
Fixpoint indexFunc_loop (rs : list (Z * rune)) (f : rune -> bool) (truth : bool) : Z :=
  match rs with
  | [] => -1
  | (i, r) :: rest =>
      if Bool.eqb (f r) truth then i else indexFunc_loop rest f truth
  end.

Definition indexFunc (s : gostring) (f : rune -> bool) (truth : bool) : Z :=
  indexFunc_loop (rangeString s) f truth.

(** [lastIndexFunc(s, f, truth)]: [for i := len(s); i > 0; { ... }]; every
    round lowers [i] by at least one, so [len(s)] rounds of [fuel] are
    enough. *)
Fixpoint lastIndexFunc_loop (fuel : nat) (s : gostring) (i : Z)
         (f : rune -> bool) (truth : bool) : Z :=
  match fuel with
  | O => -1
  | S fuel' =>
      if i >? 0 then
        let (r, size) := DecodeLastRuneInString (firstn (Z.to_nat i) s) in
        let i := i - size in
        if Bool.eqb (f r) truth then i
        else lastIndexFunc_loop fuel' s i f truth
      else -1
  end.

Definition lastIndexFunc (s : gostring) (f : rune -> bool) (truth : bool) : Z :=
  lastIndexFunc_loop (List.length s) s (len s) f truth.

Definition TrimLeftFunc (s : gostring) (f : rune -> bool) : gostring :=
  let i := indexFunc s f false in
  if i =? -1 then [] else sliceFrom s i.

Definition TrimRightFunc (s : gostring) (f : rune -> bool) : gostring :=
  let i := lastIndexFunc s f false in
  let i :=
    if (i >=? 0) && (byteAt s i >=? utf8.RuneSelf) then
      let (_, wid) := utf8.DecodeRuneInString (sliceFrom s i) in i + wid
    else i + 1 in
  firstn (Z.to_nat i) s.

Definition TrimFunc (s : gostring) (f : rune -> bool) : gostring :=
  TrimRightFunc (TrimLeftFunc s f) f.

(** The two scanning loops of the ASCII fast path of [TrimSpace]. The first
    returns the index it stopped at, or the result of the fallback it took
    on a non-ASCII byte; [rest] is [s[start:]]. *)
Fixpoint trimStart (rest : gostring) (start : Z) : Z + gostring :=
  match rest with
  | [] => inl start
  | c :: rest' =>
      if byteZ c >=? utf8.RuneSelf then inr (TrimFunc rest unicode.IsSpace)
      else if negb (asciiSpace (byteZ c)) then inl start
      else trimStart rest' (start + 1)
  end.

(** The second loop, [for ; stop > start; stop--], over [s[start:]] given
    back to front ([rev_rest] is the reverse of [s[start:stop]]). *)
Fixpoint trimStop (rev_rest : gostring) : gostring :=
  match rev_rest with
  | [] => []
  | c :: rev_rest' =>
      if byteZ c >=? utf8.RuneSelf then
        TrimRightFunc (rev rev_rest) unicode.IsSpace
      else if negb (asciiSpace (byteZ c)) then rev rev_rest
      else trimStop rev_rest'
  end.

(** [strings.TrimSpace]. *)
Definition TrimSpace (s : gostring) : gostring :=
  match trimStart s 0 with
  | inr result => result
  | inl start => trimStop (rev (sliceFrom s start))
  end.

(** [strings.Map]: every rune of [s] replaced by its image, dropped where
    the image is negative. *)
Fixpoint Map_loop (mapping : rune -> rune) (rs : list (Z * rune)) (b : Builder) : Builder :=
  match rs with
  | [] => b
  | (_, c) :: rest =>
      let r := mapping c in
      if r >=? 0 then Map_loop mapping rest (WriteRune b r)
      else Map_loop mapping rest b
  end.

Definition Map (mapping : rune -> rune) (s : gostring) : gostring :=
  String (Map_loop mapping (rangeString s) []).

(** [strings.ToLower]: a byte loop for strings that are ASCII throughout,
    [Map(unicode.ToLower, s)] otherwise. *)
Definition isASCII (s : gostring) : bool :=
  forallb (fun c => byteZ c <? utf8.RuneSelf) s.

Definition hasUpper (s : gostring) : bool :=
  existsb (fun c => (65 <=? byteZ c) && (byteZ c <=? 90)) s.

Definition lowerByte (c : byte) : byte :=
  if (65 <=? byteZ c) && (byteZ c <=? 90) then byte_of (byteZ c + (97 - 65))
  else c.

Definition ToLower {tables : unicode.CaseTables} (s : gostring) : gostring :=
  if isASCII s then
    if negb (hasUpper s) then s else map lowerByte s
  else Map unicode.ToLower s.

(** [strings.Split(s, sep)] and [strings.Count(s, sep)] for a separator of
    one byte, as every call of the source has it. *)
Fixpoint Split_loop (s : gostring) (sep : byte) (cur : gostring) : list gostring :=
  match s with
  | [] => [cur]
  | c :: s' =>
      if Byte.eqb c sep then cur :: Split_loop s' sep []
      else Split_loop s' sep (cur ++ [c])
  end.

Definition Split (s : gostring) (sep : byte) : list gostring := Split_loop s sep [].

Definition Count (s : gostring) (sep : byte) : Z :=
  len (List.filter (Byte.eqb sep) s).

Definition Repeat (c : byte) (count : Z) : gostring := repeat c (Z.to_nat count).

End strings.

(** ** The document API ([google.golang.org/api/docs/v1])

    The structures of a fetched document the code reads.  Dimensions, font
    sizes and colours are floating-point magnitudes that the code only copies
    from a source line into a formatting request; they are left out. *)
Module docs.

Record WeightedFontFamily := { FontFamily : gostring }.

Record TextStyle := {
  Bold : bool;
  Italic : bool;
  Underline : bool;
  WeightedFontFamily_ : option WeightedFontFamily
}.

Record TextRun := { Content : gostring; TextStyle_ : option TextStyle }.

Record ParagraphElement := { TextRun_ : option TextRun }.

Record ParagraphStyle := { Alignment : gostring }.

Record Bullet := { ListId : gostring; NestingLevel : Z }.

Record Paragraph := {
  Elements : list ParagraphElement;
  ParagraphStyle_ : option ParagraphStyle;
  Bullet_ : option Bullet
}.

Record StructuralElement := {
  StartIndex : Z;
  EndIndex : Z;
  Paragraph_ : option Paragraph
}.

Record Body := { BodyContent : list StructuralElement }.

Record Document := { Body_ : option Body }.

(** An [InsertText] request: the location index and the text. *)
Record InsertTextRequest := { Index : Z; InsertedText : gostring }.

End docs.

(** ** Data of the synchronization ([main.go]) *)

Module LineFeatures.
Record t := {
  Text : gostring;
  Alignment : gostring;
  FontFamily : gostring;
  Bold : bool;
  Italic : bool;
  Underline : bool;
  HasBullet : bool;
  ListId : gostring;
  NestingLevel : Z;
  LeadingTabs : Z
}.
End LineFeatures.
Abbreviation LineFeatures := LineFeatures.t.

(** ** The matcher ([matcher.go]) *)

Inductive LineType := LineTypeEnglish | LineTypeChinese | LineTypeMixed | LineTypeEmpty.

Definition LineType_eqb (a b : LineType) : bool :=
  match a, b with
  | LineTypeEnglish, LineTypeEnglish => true
  | LineTypeChinese, LineTypeChinese => true
  | LineTypeMixed, LineTypeMixed => true
  | LineTypeEmpty, LineTypeEmpty => true
  | _, _ => false
  end.

Module MatchDecision.
Record t := {
  ShouldAddEmptyLine : bool;
  ShouldFollowPrevStyle : bool;
  ShouldAdvanceSource : bool;
  LineType : LineType;
  LinesMatch : bool
}.
End MatchDecision.
Abbreviation MatchDecision := MatchDecision.t.

(** [r >= '\u4e00' && r <= '\u9fff'] *)
Definition isCJK (r : rune) : bool := (r >=? 0x4e00) && (r <=? 0x9fff).

Fixpoint containsChinese_loop (rs : list (Z * rune)) : bool :=
  match rs with
  | [] => false
  | (_, r) :: rest => if isCJK r then true else containsChinese_loop rest
  end.

Definition containsChinese (text : gostring) : bool :=
  containsChinese_loop (rangeString text).

Fixpoint startsWithChinese_loop (rs : list (Z * rune)) : bool :=
  match rs with
  | [] => false
  | (_, r) :: rest =>
      if isCJK r then true
      else if negb (r =? 32) && negb (r =? 9) && negb (r =? 10) && negb (r =? 13)
      then false
      else startsWithChinese_loop rest
  end.

Definition startsWithChinese (text : gostring) : bool :=
  let text := strings.TrimSpace text in
  if len text =? 0 then false
  else startsWithChinese_loop (rangeString text).

(** [(r >= 'A' && r <= 'Z') || (r >= 'a' && r <= 'z')] *)
Definition isEnglishLetter (r : rune) : bool :=
  ((r >=? 65) && (r <=? 90)) || ((r >=? 97) && (r <=? 122)).

(** [r != ' ' && r != '\t' && r != '\n' && r != '\r'] *)
Definition notBlank (r : rune) : bool :=
  negb (r =? 32) && negb (r =? 9) && negb (r =? 10) && negb (r =? 13).

Fixpoint firstEnglishIndex_loop (rs : list (Z * rune)) : Z :=
  match rs with
  | [] => -1
  | (i, r) :: rest => if isEnglishLetter r then i else firstEnglishIndex_loop rest
  end.

Fixpoint removeWhitespace_loop (rs : list (Z * rune)) (result : strings.Builder) : strings.Builder :=
  match rs with
  | [] => result
  | (_, r) :: rest =>
      if notBlank r then removeWhitespace_loop rest (strings.WriteRune result r)
      else removeWhitespace_loop rest result
  end.

Section Matcher.
Context {tables : unicode.CaseTables}.

Definition generateLineKey (text : gostring) : gostring :=
  let firstEnglishIndex := firstEnglishIndex_loop (rangeString text) in
  if firstEnglishIndex =? -1 then []
  else
    let englishPortion := sliceFrom text firstEnglishIndex in
    let result := removeWhitespace_loop (rangeString englishPortion) [] in
    let key := strings.ToLower (strings.String result) in
    if (len key >=? 2) && (byteAt key 1 =? 46) then sliceFrom key 2
    else key.

Definition classifyLineType (text : gostring) : LineType :=
  let trimmed := strings.TrimSpace text in
  if len trimmed =? 0 then LineTypeEmpty
  else
    let hasChinese := containsChinese text in
    let hasEnglish := negb (gostring_eqb (generateLineKey text) []) in
    if hasChinese && hasEnglish then LineTypeMixed
    else if hasChinese then LineTypeChinese
    else if hasEnglish then LineTypeEnglish
    else LineTypeEmpty.

Definition shouldAddEmptyLine (lineText previousLineText : gostring) : bool :=
  let lineType := classifyLineType lineText in
  if LineType_eqb lineType LineTypeChinese || LineType_eqb lineType LineTypeMixed
  then true
  else false.

Definition shouldFollowPreviousLineStyle (lineText : gostring)
           (previousFeatures : option LineFeatures) : bool :=
  let lineType := classifyLineType lineText in
  if (LineType_eqb lineType LineTypeChinese || LineType_eqb lineType LineTypeMixed)
     && (match previousFeatures with Some _ => true | None => false end)
  then true
  else false.

Definition shouldAdvanceSourceCursor (lastProcessedWasChinese : bool) : bool :=
  lastProcessedWasChinese.

Definition linesMatch (sourceKey targetKey : gostring) : bool :=
  gostring_eqb sourceKey targetKey.

Definition AnalyzeLineMatch (sourceText targetText : gostring)
           (previousFeatures : option LineFeatures)
           (lastProcessedWasChinese : bool) : MatchDecision :=
  let targetLineType := classifyLineType targetText in
  let sourceKey := generateLineKey sourceText in
  let targetKey := generateLineKey targetText in
  {| MatchDecision.LineType := targetLineType;
     MatchDecision.ShouldAddEmptyLine := shouldAddEmptyLine targetText [];
     MatchDecision.ShouldFollowPrevStyle :=
       shouldFollowPreviousLineStyle targetText previousFeatures;
     MatchDecision.ShouldAdvanceSource :=
       shouldAdvanceSourceCursor lastProcessedWasChinese;
     MatchDecision.LinesMatch := linesMatch sourceKey targetKey |}.

End Matcher.

Module LineInfo.
Record t := {
  Text : gostring;
  Element : docs.StructuralElement;
  TextRun : option docs.TextRun;
  Features : option LineFeatures
}.
End LineInfo.
Abbreviation LineInfo := LineInfo.t.

Module DocumentCursor.
Record t := {
  Document : docs.Document;
  ElementIndex : Z;
  LineIndex : Z;
  CurrentLine : option LineInfo
}.
End DocumentCursor.
Abbreviation DocumentCursor := DocumentCursor.t.

Module SyncError.
Record t := {
  SourceLine : Z;
  TargetLine : Z;
  SourceKey : gostring;
  TargetKey : gostring;
  Message : gostring
}.
End SyncError.
Abbreviation SyncError := SyncError.t.

(** Go [error] values of the driver: [fmt.Errorf] without a verb, with one
    [%v] of a wrapped error, with one [%d] of a line number, and [*SyncError]. *)
Inductive error :=
| errorString (msg : gostring)
| errorWrap (format : gostring) (err : error)
| errorLine (format : gostring) (n : Z)
| errorSync (e : SyncError).

(** [err.Error() == "end of document"], for the errors of
    [getNextNonEmptyLine], which are plain strings. *)
Definition isEndOfDocument (err : error) : bool :=
  match err with
  | errorString msg => gostring_eqb msg (str "end of document")
  | _ => false
  end.

(** [map[int]int] and [map[int]int64]: the bindings, a key bound once. *)
Definition IntMap := list (Z * Z).

Definition IntMap_set (m : IntMap) (k v : Z) : IntMap :=
  (k, v) :: List.filter (fun kv => negb (fst kv =? k)) m.

Fixpoint IntMap_get (m : IntMap) (k : Z) : option Z :=
  match m with
  | [] => None
  | (k', v) :: m' => if k' =? k then Some v else IntMap_get m' k
  end.

(** *** [extractLineFeatures] *)

Fixpoint leadingTabs_loop (rs : list (Z * rune)) (leadingTabs : Z) : Z :=
  match rs with
  | [] => leadingTabs
  | (_, char) :: rest =>
      if char =? 9 then leadingTabs_loop rest (leadingTabs + 1) else leadingTabs
  end.

Definition extractLineFeatures (element : docs.StructuralElement)
           (textRun : option docs.TextRun) (text : gostring) : LineFeatures :=
  let leadingTabs :=
    match textRun with
    | Some tr =>
        if negb (gostring_eqb (docs.Content tr) []) then
          leadingTabs_loop (rangeString (docs.Content tr)) 0
        else 0
    | None => 0
    end in
  let paragraphStyle :=
    match docs.Paragraph_ element with
    | Some paragraph =>
        match docs.ParagraphStyle_ paragraph with
        | Some style => Some (paragraph, style)
        | None => None
        end
    | None => None
    end in
  let textStyle :=
    match textRun with
    | Some tr => docs.TextStyle_ tr
    | None => None
    end in
  {| LineFeatures.Text := text;
     LineFeatures.Alignment :=
       match paragraphStyle with
       | Some (_, style) =>
           if negb (gostring_eqb (docs.Alignment style) []) then docs.Alignment style
           else str "START"
       | None => []
       end;
     LineFeatures.FontFamily :=
       match textStyle with
       | Some ts =>
           match docs.WeightedFontFamily_ ts with
           | Some wff => docs.FontFamily wff
           | None => []
           end
       | None => []
       end;
     LineFeatures.Bold := match textStyle with Some ts => docs.Bold ts | None => false end;
     LineFeatures.Italic := match textStyle with Some ts => docs.Italic ts | None => false end;
     LineFeatures.Underline :=
       match textStyle with Some ts => docs.Underline ts | None => false end;
     LineFeatures.HasBullet :=
       match paragraphStyle with
       | Some (paragraph, _) =>
           match docs.Bullet_ paragraph with Some _ => true | None => false end
       | None => false
       end;
     LineFeatures.ListId :=
       match paragraphStyle with
       | Some (paragraph, _) =>
           match docs.Bullet_ paragraph with Some b => docs.ListId b | None => [] end
       | None => []
       end;
     LineFeatures.NestingLevel :=
       match paragraphStyle with
       | Some (paragraph, _) =>
           match docs.Bullet_ paragraph with Some b => docs.NestingLevel b | None => 0 end
       | None => 0
       end;
     LineFeatures.LeadingTabs := leadingTabs |}.

(** *** [getNextNonEmptyLine] *)

Definition cursorAt (cursor : DocumentCursor) (elementIndex lineIndex : Z) : DocumentCursor :=
  {| DocumentCursor.Document := DocumentCursor.Document cursor;
     DocumentCursor.ElementIndex := elementIndex;
     DocumentCursor.LineIndex := lineIndex;
     DocumentCursor.CurrentLine := DocumentCursor.CurrentLine cursor |}.

(** The locals of the loop over [element.Paragraph.Elements]. *)
Record paragraphScan := {
  textContent : strings.Builder;
  firstTextRun : option docs.TextRun;
  tabsFromSkippedRuns : Z
}.

Fixpoint paragraphElements_loop (elements : list docs.ParagraphElement)
         (acc : paragraphScan) : paragraphScan :=
  match elements with
  | [] => acc
  | paragraphElement :: rest =>
      match docs.TextRun_ paragraphElement with
      | None => paragraphElements_loop rest acc
      | Some textRun =>
          let content := docs.Content textRun in
          if gostring_eqb (strings.TrimSpace content) [] then
            paragraphElements_loop rest
              {| textContent := textContent acc;
                 firstTextRun := firstTextRun acc;
                 tabsFromSkippedRuns :=
                   match firstTextRun acc with
                   | None => tabsFromSkippedRuns acc + strings.Count content x09
                   | Some _ => tabsFromSkippedRuns acc
                   end |}
          else
            paragraphElements_loop rest
              {| textContent := strings.WriteString (textContent acc) content;
                 firstTextRun :=
                   match firstTextRun acc with
                   | None => Some textRun
                   | Some first => Some first
                   end;
                 tabsFromSkippedRuns := tabsFromSkippedRuns acc |}
      end
  end.

(** [for cursor.LineIndex < len(lines)]: [rest] is [lines[lineIndex:]]; the
    first line that is not blank with its index, if there is one. *)
Fixpoint lines_loop (rest : list gostring) (lineIndex : Z) : option (gostring * Z) :=
  match rest with
  | [] => None
  | l :: rest' =>
      let line := strings.TrimSpace l in
      if negb (gostring_eqb line []) then Some (line, lineIndex)
      else lines_loop rest' (lineIndex + 1)
  end.

(** What one round of the loop over the elements computes before it walks
    the lines: for a paragraph with text, the first text run (with the tabs
    of the runs skipped before it) and the lines of the trimmed text. *)
Definition paragraphLines (element : docs.StructuralElement)
  : option (option docs.TextRun * list gostring) :=
  match docs.Paragraph_ element with
  | Some paragraph =>
      if len (docs.Elements paragraph) >? 0 then
        let scan :=
          paragraphElements_loop (docs.Elements paragraph)
            {| textContent := []; firstTextRun := None; tabsFromSkippedRuns := 0 |} in
        let firstTextRun :=
          match firstTextRun scan with
          | Some first =>
              if tabsFromSkippedRuns scan >? 0 then
                Some {| docs.Content :=
                          strings.Repeat x09 (tabsFromSkippedRuns scan)
                          ++ docs.Content first;
                        docs.TextStyle_ := docs.TextStyle_ first |}
              else Some first
          | None => None
          end in
        let paragraphText := strings.TrimSpace (strings.String (textContent scan)) in
        if negb (gostring_eqb paragraphText []) then
          Some (firstTextRun, strings.Split paragraphText x0a)
        else None
      else None
  | None => None
  end.

(** [for cursor.ElementIndex < len(cursor.Document.Body.Content)]: [rest] is
    [Content[cursor.ElementIndex:]]. *)
Fixpoint elements_loop (rest : list docs.StructuralElement) (cursor : DocumentCursor)
  : (LineInfo + error) * DocumentCursor :=
  match rest with
  | [] => (inr (errorString (str "end of document")), cursor)
  | element :: rest' =>
      let nextElement (cursor : DocumentCursor) :=
        elements_loop rest'
          (cursorAt cursor (DocumentCursor.ElementIndex cursor + 1)
                    (DocumentCursor.LineIndex cursor)) in
      match paragraphLines element with
      | Some (firstTextRun, lines) =>
          match lines_loop (sliceFrom lines (DocumentCursor.LineIndex cursor))
                           (DocumentCursor.LineIndex cursor) with
          | Some (line, lineIndex) =>
              let lineInfo :=
                {| LineInfo.Text := line;
                   LineInfo.Element := element;
                   LineInfo.TextRun := firstTextRun;
                   LineInfo.Features := None |} in
              let lineIndex := lineIndex + 1 in
              if lineIndex >=? len lines then
                (inl lineInfo,
                 cursorAt cursor (DocumentCursor.ElementIndex cursor + 1) 0)
              else
                (inl lineInfo,
                 cursorAt cursor (DocumentCursor.ElementIndex cursor) lineIndex)
          | None =>
              nextElement (cursorAt cursor (DocumentCursor.ElementIndex cursor) 0)
          end
      | None => nextElement cursor
      end
  end.

Definition getNextNonEmptyLine (cursor : DocumentCursor)
  : (LineInfo + error) * DocumentCursor :=
  match docs.Body_ (DocumentCursor.Document cursor) with
  | None => (inr (errorString (str "empty document")), cursor)
  | Some body =>
      if len (docs.BodyContent body) =? 0 then
        (inr (errorString (str "empty document")), cursor)
      else
        elements_loop
          (sliceFrom (docs.BodyContent body) (DocumentCursor.ElementIndex cursor))
          cursor
  end.

(** *** [synchronizeDocuments] *)

(** One call of [applyFormattingToRange] on the target document, with the
    loop iteration that issued it.  Whether the remote call succeeds only
    changes what is printed. *)
Record FormatCall := {
  atLoop : Z;
  rangeStart : Z;
  rangeEnd : Z;
  appliedFeatures : LineFeatures
}.

(** The document service as the driver uses it after the main loop: the
    answer to re-fetching the target document and to a batch of insertions. *)
Record Service := {
  Documents_Get : docs.Document + error;
  Documents_BatchUpdate : list docs.InsertTextRequest -> option error
}.

(** The local variables of [synchronizeDocuments] once the first source line
    is read, the two cursors they point to, and the formatting calls issued
    so far in order.  [sourceLineInfo] keeps the last line read: the source
    only assigns [nil] to it on the paths that leave the loop. *)
Record locals := {
  sourceCursor : DocumentCursor;
  targetCursor : DocumentCursor;
  sourceLineNum : Z;
  targetLineNum : Z;
  previousFeatures : option LineFeatures;
  lastProcessedWasChinese : bool;
  tabsToAddMap : IntMap;
  sourceLineInfo : LineInfo;
  sourceKey : gostring;
  sourceFeatures : LineFeatures;
  applied : list FormatCall
}.

(** How a loop body ends: at the end of the body, by [break], or by
    [return err]. *)
Inductive step :=
| Next (st : locals)
| Break (st : locals)
| ReturnErr (err : error) (st : locals).

Definition andThen (s : step) (k : locals -> step) : step :=
  match s with
  | Next st => k st
  | other => other
  end.

Definition set_sourceCursor (st : locals) (c : DocumentCursor) : locals :=
  {| sourceCursor := c; targetCursor := targetCursor st;
     sourceLineNum := sourceLineNum st; targetLineNum := targetLineNum st;
     previousFeatures := previousFeatures st;
     lastProcessedWasChinese := lastProcessedWasChinese st;
     tabsToAddMap := tabsToAddMap st; sourceLineInfo := sourceLineInfo st;
     sourceKey := sourceKey st; sourceFeatures := sourceFeatures st;
     applied := applied st |}.

Definition set_targetCursor (st : locals) (c : DocumentCursor) : locals :=
  {| sourceCursor := sourceCursor st; targetCursor := c;
     sourceLineNum := sourceLineNum st; targetLineNum := targetLineNum st;
     previousFeatures := previousFeatures st;
     lastProcessedWasChinese := lastProcessedWasChinese st;
     tabsToAddMap := tabsToAddMap st; sourceLineInfo := sourceLineInfo st;
     sourceKey := sourceKey st; sourceFeatures := sourceFeatures st;
     applied := applied st |}.

(** [sourceLineNum++] and the three assignments that follow a successful
    read of the source. *)
Definition set_sourceLine {tables : unicode.CaseTables} (st : locals) (c : DocumentCursor)
           (li : LineInfo) : locals :=
  {| sourceCursor := c; targetCursor := targetCursor st;
     sourceLineNum := sourceLineNum st + 1; targetLineNum := targetLineNum st;
     previousFeatures := previousFeatures st;
     lastProcessedWasChinese := lastProcessedWasChinese st;
     tabsToAddMap := tabsToAddMap st; sourceLineInfo := li;
     sourceKey := generateLineKey (LineInfo.Text li);
     sourceFeatures :=
       extractLineFeatures (LineInfo.Element li) (LineInfo.TextRun li) (LineInfo.Text li);
     applied := applied st |}.

(** [targetLineNum++] after a successful read of the target. *)
Definition set_targetLine (st : locals) (c : DocumentCursor) : locals :=
  {| sourceCursor := sourceCursor st; targetCursor := c;
     sourceLineNum := sourceLineNum st; targetLineNum := targetLineNum st + 1;
     previousFeatures := previousFeatures st;
     lastProcessedWasChinese := lastProcessedWasChinese st;
     tabsToAddMap := tabsToAddMap st; sourceLineInfo := sourceLineInfo st;
     sourceKey := sourceKey st; sourceFeatures := sourceFeatures st;
     applied := applied st |}.

Definition set_lastProcessedWasChinese (st : locals) (b : bool) : locals :=
  {| sourceCursor := sourceCursor st; targetCursor := targetCursor st;
     sourceLineNum := sourceLineNum st; targetLineNum := targetLineNum st;
     previousFeatures := previousFeatures st;
     lastProcessedWasChinese := b;
     tabsToAddMap := tabsToAddMap st; sourceLineInfo := sourceLineInfo st;
     sourceKey := sourceKey st; sourceFeatures := sourceFeatures st;
     applied := applied st |}.

Definition set_previousFeatures (st : locals) (f : option LineFeatures) : locals :=
  {| sourceCursor := sourceCursor st; targetCursor := targetCursor st;
     sourceLineNum := sourceLineNum st; targetLineNum := targetLineNum st;
     previousFeatures := f;
     lastProcessedWasChinese := lastProcessedWasChinese st;
     tabsToAddMap := tabsToAddMap st; sourceLineInfo := sourceLineInfo st;
     sourceKey := sourceKey st; sourceFeatures := sourceFeatures st;
     applied := applied st |}.

(** [tabsToAddMap[loopID] = tabs] *)
Definition set_tabsToAdd (st : locals) (loopID tabs : Z) : locals :=
  {| sourceCursor := sourceCursor st; targetCursor := targetCursor st;
     sourceLineNum := sourceLineNum st; targetLineNum := targetLineNum st;
     previousFeatures := previousFeatures st;
     lastProcessedWasChinese := lastProcessedWasChinese st;
     tabsToAddMap := IntMap_set (tabsToAddMap st) loopID tabs;
     sourceLineInfo := sourceLineInfo st;
     sourceKey := sourceKey st; sourceFeatures := sourceFeatures st;
     applied := applied st |}.

(** [applyFormattingToRange(docsService, targetDocID, startIndex, endIndex, features)] *)
Definition applyFormattingToRange (st : locals) (loopID : Z) (startIndex endIndex : Z)
           (features : LineFeatures) : locals :=
  {| sourceCursor := sourceCursor st; targetCursor := targetCursor st;
     sourceLineNum := sourceLineNum st; targetLineNum := targetLineNum st;
     previousFeatures := previousFeatures st;
     lastProcessedWasChinese := lastProcessedWasChinese st;
     tabsToAddMap := tabsToAddMap st; sourceLineInfo := sourceLineInfo st;
     sourceKey := sourceKey st; sourceFeatures := sourceFeatures st;
     applied :=
       applied st ++ [{| atLoop := loopID; rangeStart := startIndex;
                         rangeEnd := endIndex; appliedFeatures := features |}] |}.

Definition isChineseOrMixed (t : LineType) : bool :=
  LineType_eqb t LineTypeChinese || LineType_eqb t LineTypeMixed.

Section Driver.
Context {tables : unicode.CaseTables}.

(** The locals right after the first source line [li] is read. *)
Definition initialLocals (li : LineInfo) (sourceCursor targetCursor : DocumentCursor)
  : locals :=
  {| sourceCursor := sourceCursor; targetCursor := targetCursor;
     sourceLineNum := 0 + 1; targetLineNum := 0;
     previousFeatures := None;
     lastProcessedWasChinese := false;
     tabsToAddMap := [];
     sourceLineInfo := li;
     sourceKey := generateLineKey (LineInfo.Text li);
     sourceFeatures :=
       extractLineFeatures (LineInfo.Element li) (LineInfo.TextRun li) (LineInfo.Text li);
     applied := [] |}.

Definition firstSourceLine (sourceCursor targetCursor : DocumentCursor)
  : error + locals :=
  match getNextNonEmptyLine sourceCursor with
  | (inr err, _) => inl (errorWrap (str "error reading first source line: %v") err)
  | (inl li, c) => inr (initialLocals li c targetCursor)
  end.

(** The fast-forward loop, [for loopID := 1; loopID < startLoop; loopID++].
    Its body in three parts: the read of the source when the last line was
    Chinese, the read of the target, and the treatment of the target line. *)
Definition fastForward_source (st : locals) : step :=
  if shouldAdvanceSourceCursor (lastProcessedWasChinese st) then
    match getNextNonEmptyLine (sourceCursor st) with
    | (inr err, c) =>
        if isEndOfDocument err then
          ReturnErr
            (errorLine
               (str "reached end of source document while fast-forwarding at source line %d")
               (sourceLineNum st))
            (set_sourceCursor st c)
        else
          ReturnErr
            (errorWrap (str "error reading source document while fast-forwarding: %v") err)
            (set_sourceCursor st c)
    | (inl li, c) => Next (set_sourceLine st c li)
    end
  else Next st.

Definition fastForward_line (st : locals) (targetLineInfo : LineInfo) : step :=
  let decision :=
    AnalyzeLineMatch (LineInfo.Text (sourceLineInfo st))
                     (LineInfo.Text targetLineInfo)
                     (previousFeatures st) (lastProcessedWasChinese st) in
  if isChineseOrMixed (MatchDecision.LineType decision) then
    Next (set_lastProcessedWasChinese st true)
  else
    let targetKey := generateLineKey (LineInfo.Text targetLineInfo) in
    if negb (MatchDecision.LinesMatch decision) then
      ReturnErr
        (errorSync {| SyncError.SourceLine := sourceLineNum st;
                      SyncError.TargetLine := targetLineNum st;
                      SyncError.SourceKey := sourceKey st;
                      SyncError.TargetKey := targetKey;
                      SyncError.Message := str "Line content mismatch" |})
        st
    else
      let st := set_previousFeatures st (Some (sourceFeatures st)) in
      Next (set_lastProcessedWasChinese st false).

Definition fastForwardBody (st : locals) : step :=
  andThen (fastForward_source st)
    (fun st =>
       match getNextNonEmptyLine (targetCursor st) with
       | (inr err, c) =>
           if isEndOfDocument err then
             ReturnErr
               (errorLine
                  (str "reached end of target document while fast-forwarding at target line %d")
                  (targetLineNum st))
               (set_targetCursor st c)
           else
             ReturnErr
               (errorWrap (str "error reading target document while fast-forwarding: %v") err)
               (set_targetCursor st c)
       | (inl targetLineInfo, c) => fastForward_line (set_targetLine st c) targetLineInfo
       end).

Fixpoint fastForward_loop (rounds : nat) (loopID : Z) (st : locals) : step :=
  match rounds with
  | O => Next st
  | S rounds' =>
      andThen (fastForwardBody st) (fastForward_loop rounds' (loopID + 1))
  end.

(** The main loop, [for loopID := startLoop; ; loopID++], its body in the
    same three parts. *)
Definition mainLoop_source (st : locals) : step :=
  if shouldAdvanceSourceCursor (lastProcessedWasChinese st) then
    match getNextNonEmptyLine (sourceCursor st) with
    | (inr err, c) =>
        if isEndOfDocument err then Break (set_sourceCursor st c)
        else
          ReturnErr (errorWrap (str "error reading source document: %v") err)
                    (set_sourceCursor st c)
    | (inl li, c) => Next (set_sourceLine st c li)
    end
  else Next st.

Definition mainLoop_line (loopID : Z) (st : locals) (targetLineInfo : LineInfo) : step :=
  let decision :=
    AnalyzeLineMatch (LineInfo.Text (sourceLineInfo st))
                     (LineInfo.Text targetLineInfo)
                     (previousFeatures st) (lastProcessedWasChinese st) in
  if isChineseOrMixed (MatchDecision.LineType decision) then
    let st :=
      match previousFeatures st with
      | Some pf =>
          if LineFeatures.LeadingTabs pf >? 0 then
            set_tabsToAdd st loopID (LineFeatures.LeadingTabs pf)
          else st
      | None => st
      end in
    let st :=
      match previousFeatures st with
      | Some pf =>
          if MatchDecision.ShouldFollowPrevStyle decision then
            applyFormattingToRange st loopID
              (docs.StartIndex (LineInfo.Element targetLineInfo))
              (docs.EndIndex (LineInfo.Element targetLineInfo)) pf
          else st
      | None => st
      end in
    Next (set_lastProcessedWasChinese st true)
  else
    let targetKey := generateLineKey (LineInfo.Text targetLineInfo) in
    if negb (MatchDecision.LinesMatch decision) then
      ReturnErr
        (errorSync {| SyncError.SourceLine := sourceLineNum st;
                      SyncError.TargetLine := targetLineNum st;
                      SyncError.SourceKey := sourceKey st;
                      SyncError.TargetKey := targetKey;
                      SyncError.Message := str "Line content mismatch" |})
        st
    else
      let st :=
        if LineFeatures.LeadingTabs (sourceFeatures st) >? 0 then
          set_tabsToAdd st loopID (LineFeatures.LeadingTabs (sourceFeatures st))
        else st in
      let st :=
        applyFormattingToRange st loopID
          (docs.StartIndex (LineInfo.Element targetLineInfo))
          (docs.EndIndex (LineInfo.Element targetLineInfo))
          (sourceFeatures st) in
      let st := set_previousFeatures st (Some (sourceFeatures st)) in
      Next (set_lastProcessedWasChinese st false).

Definition mainLoopBody (loopID : Z) (st : locals) : step :=
  andThen (mainLoop_source st)
    (fun st =>
       match getNextNonEmptyLine (targetCursor st) with
       | (inr err, c) =>
           if isEndOfDocument err then Break (set_targetCursor st c)
           else
             ReturnErr (errorWrap (str "error reading target document: %v") err)
                       (set_targetCursor st c)
       | (inl targetLineInfo, c) => mainLoop_line loopID (set_targetLine st c) targetLineInfo
       end).

(** The main loop has no bound of its own; [fuel] bounds the rounds of the
    model, and [None] is a run that used it up. *)
Fixpoint mainLoop (fuel : nat) (loopID : Z) (st : locals) : option step :=
  match fuel with
  | O => None
  | S fuel' =>
      match mainLoopBody loopID st with
      | Next st' => mainLoop fuel' (loopID + 1) st'
      | other => Some other
      end
  end.

(** The pass after the main loop: the target is read again from its start
    and the start index of the line of every loop iteration is recorded. *)
Fixpoint lineStartIndices_loop (fuel : nat) (targetCursor : DocumentCursor)
         (lineStartIndices : IntMap) (currentLoopID : Z)
  : option (error + IntMap * Z) :=
  match fuel with
  | O => None
  | S fuel' =>
      match getNextNonEmptyLine targetCursor with
      | (inr err, _) =>
          if isEndOfDocument err then Some (inr (lineStartIndices, currentLoopID))
          else
            Some (inl (errorWrap
                         (str "error reading target document for tab insertion: %v") err))
      | (inl lineInfo, c) =>
          lineStartIndices_loop fuel' c
            (IntMap_set lineStartIndices currentLoopID
                        (docs.StartIndex (LineInfo.Element lineInfo)))
            (currentLoopID + 1)
      end
  end.

(** [for loopID := currentLoopID - 1; loopID >= 1; loopID--], the loop
    counter being [loopID] as a natural number. *)
Fixpoint insertRequests_loop (loopID : nat) (tabsToAddMap lineStartIndices : IntMap)
  : list docs.InsertTextRequest :=
  match loopID with
  | O => []
  | S loopID' =>
      match IntMap_get tabsToAddMap (Z.of_nat loopID),
            IntMap_get lineStartIndices (Z.of_nat loopID) with
      | Some numTabs, Some startIndex =>
          [{| docs.Index := startIndex;
              docs.InsertedText := strings.Repeat x09 numTabs |}]
      | _, _ => []
      end ++ insertRequests_loop loopID' tabsToAddMap lineStartIndices
  end.

Definition insertTabs (fuel : nat) (docsService : Service) (tabsToAddMap : IntMap)
  : option (option error) :=
  if len tabsToAddMap >? 0 then
    match Documents_Get docsService with
    | inr err => Some (Some (errorWrap (str "unable to re-fetch target document: %v") err))
    | inl targetDoc =>
        let targetCursor :=
          {| DocumentCursor.Document := targetDoc;
             DocumentCursor.ElementIndex := 0;
             DocumentCursor.LineIndex := 0;
             DocumentCursor.CurrentLine := None |} in
        match lineStartIndices_loop fuel targetCursor [] 1 with
        | None => None
        | Some (inl err) => Some (Some err)
        | Some (inr (lineStartIndices, currentLoopID)) =>
            let insertRequests :=
              insertRequests_loop (Z.to_nat (currentLoopID - 1))
                                  tabsToAddMap lineStartIndices in
            if len insertRequests >? 0 then
              match Documents_BatchUpdate docsService insertRequests with
              | Some err => Some (Some (errorWrap (str "failed to insert tabs: %v") err))
              | None => Some None
              end
            else Some None
        end
    end
  else Some None.

(** What a run gives back: the error value [synchronizeDocuments] returns
    ([None] is [nil]) and the locals it ends with; [OutOfFuel] for a run of
    the model that needs more rounds than [fuel]. *)
Inductive result :=
| OutOfFuel
| Returned (err : option error) (final : option locals).

Definition synchronizeDocuments (fuel : nat) (sourceCursor targetCursor : DocumentCursor)
           (docsService : Service) (startLoop : Z) : result :=
  match firstSourceLine sourceCursor targetCursor with
  | inl err => Returned (Some err) None
  | inr st =>
      match
        (if startLoop >? 1 then fastForward_loop (Z.to_nat (startLoop - 1)) 1 st
         else Next st)
      with
      | ReturnErr err st => Returned (Some err) (Some st)
      | Break st => Returned None (Some st)
      | Next st =>
          match mainLoop fuel startLoop st with
          | None => OutOfFuel
          | Some (ReturnErr err st) => Returned (Some err) (Some st)
          | Some (Next st) | Some (Break st) =>
              match insertTabs fuel docsService (tabsToAddMap st) with
              | None => OutOfFuel
              | Some err => Returned err (Some st)
              end
          end
      end
  end.

End Driver.

(** ** Documents given by their lines

    A document with one paragraph for every line of [lines]: a single text
    run holding the line and its newline, unstyled, at consecutive indices
    from [start] on. *)
Fixpoint paragraphsOfLines (start : Z) (lines : list gostring) : list docs.StructuralElement :=
  match lines with
  | [] => []
  | line :: rest =>
      {| docs.StartIndex := start;
         docs.EndIndex := start + len line + 1;
         docs.Paragraph_ :=
           Some {| docs.Elements :=
                     [{| docs.TextRun_ :=
                           Some {| docs.Content := line ++ [x0a];
                                   docs.TextStyle_ := None |} |}];
                   docs.ParagraphStyle_ := None;
                   docs.Bullet_ := None |} |}
      :: paragraphsOfLines (start + len line + 1) rest
  end.

(** The line such a document delivers for the paragraph of [line] at [start]. *)
Definition lineOfParagraph (start : Z) (line : gostring) : LineInfo :=
  {| LineInfo.Text := line;
     LineInfo.Element := hd {| docs.StartIndex := 0; docs.EndIndex := 0;
                               docs.Paragraph_ := None |}
                            (paragraphsOfLines start [line]);
     LineInfo.TextRun := Some {| docs.Content := line ++ [x0a];
                                 docs.TextStyle_ := None |};
     LineInfo.Features := None |}.

Definition documentOfLines (lines : list gostring) : docs.Document :=
  {| docs.Body_ := Some {| docs.BodyContent := paragraphsOfLines 1 lines |} |}.

(** [&DocumentCursor{Document: doc, ElementIndex: 0, LineIndex: 0}] *)
Definition newCursor (doc : docs.Document) : DocumentCursor :=
  {| DocumentCursor.Document := doc;
     DocumentCursor.ElementIndex := 0;
     DocumentCursor.LineIndex := 0;
     DocumentCursor.CurrentLine := None |}.

(** A document service that is never reached, for runs without tabs. *)
Definition idleService : Service :=
  {| Documents_Get := inr (errorString (str "unavailable"));
     Documents_BatchUpdate := fun _ => None |}.

(** The documents of the run described for a source of one line against a
    target of three. *)
Definition exampleSourceLines : list gostring :=
  [str "Title: Jesus Christ, the Same"].

Definition exampleTargetLines : list gostring :=
  [str "Title: Jesus Christ, the Same"; str "耶稣基督";
   str "Title: Jesus Christ, the Same"].

Definition exampleSource : DocumentCursor := newCursor (documentOfLines exampleSourceLines).
Definition exampleTarget : DocumentCursor := newCursor (documentOfLines exampleTargetLines).

(** ** Definitions of the specification side

    What the statements below say about the program is phrased with the
    following notions; none of them is part of the program. *)

(** A rune of Unicode: a code point that is no surrogate. *)
Definition validRune (r : rune) : Prop :=
  0 <= r <= 0x10FFFF /\ ~ (0xD800 <= r <= 0xDFFF).

(** The well-formed encodings at the head of a string, with the rune they
    stand for and their width. *)
Inductive ValidSeq : gostring -> rune -> Z -> Prop :=
| VS1 b s : byteZ b < 0x80 -> ValidSeq (b :: s) (byteZ b) 1
| VS2 b0 b1 s :
    0xC2 <= byteZ b0 < 0xE0 -> 0x80 <= byteZ b1 <= 0xBF ->
    ValidSeq (b0 :: b1 :: s) ((byteZ b0 mod 32) * 64 + byteZ b1 mod 64) 2
| VS3 b0 b1 b2 s :
    0xE0 <= byteZ b0 < 0xF0 -> 0x80 <= byteZ b1 <= 0xBF ->
    (byteZ b0 = 0xE0 -> 0xA0 <= byteZ b1) -> (byteZ b0 = 0xED -> byteZ b1 <= 0x9F) ->
    0x80 <= byteZ b2 <= 0xBF ->
    ValidSeq (b0 :: b1 :: b2 :: s)
             ((byteZ b0 mod 16) * 4096 + (byteZ b1 mod 64) * 64 + byteZ b2 mod 64) 3
| VS4 b0 b1 b2 b3 s :
    0xF0 <= byteZ b0 <= 0xF4 -> 0x80 <= byteZ b1 <= 0xBF ->
    (byteZ b0 = 0xF0 -> 0x90 <= byteZ b1) -> (byteZ b0 = 0xF4 -> byteZ b1 <= 0x8F) ->
    0x80 <= byteZ b2 <= 0xBF -> 0x80 <= byteZ b3 <= 0xBF ->
    ValidSeq (b0 :: b1 :: b2 :: b3 :: s)
             ((byteZ b0 mod 8) * 262144 + (byteZ b1 mod 64) * 4096
              + (byteZ b2 mod 64) * 64 + byteZ b3 mod 64) 4.

(** An ASCII byte that [strings.TrimSpace] skips on its fast path. *)
Definition isAsciiSpaceByte (c : byte) : Prop :=
  byteZ c < 0x80 /\ strings.asciiSpace (byteZ c) = true.

(** The UTF-8 encoding of a sequence of runes. *)
Definition encodeRunes (rs : list rune) : gostring := flat_map (utf8.AppendRune []) rs.

(** The characters of a text from its first ASCII letter on; none when the
    text has no ASCII letter. *)
Fixpoint fromFirstLetter (rs : list rune) : list rune :=
  match rs with
  | [] => []
  | r :: rest => if isEnglishLetter r then rs else fromFirstLetter rest
  end.

(** Lower-casing, character by character; [strings.Map] drops a character
    whose image is negative. *)
Definition lowerRunes {tables : unicode.CaseTables} (rs : list rune) : list rune :=
  flat_map (fun c => let r := unicode.ToLower c in if r >=? 0 then [r] else []) rs.

(** "If the second character is a period, drop the first two characters." *)
Definition dropEnumerationPrefix (rs : list rune) : list rune :=
  match rs with
  | _ :: second :: rest => if second =? 46 then rest else rs
  | _ => rs
  end.

(** The Key Normalizer as the specification words it, over the characters
    of the text: the part from the first ASCII letter on, without space, tab,
    newline and carriage return, in lower case, without a leading
    letter-and-period. *)
Definition normalize_spec {tables : unicode.CaseTables} (chars : list rune) : list rune :=
  dropEnumerationPrefix (lowerRunes (List.filter notBlank (fromFirstLetter chars))).

(** ASCII case folding of one character. *)
Definition foldCase (r : rune) : rune :=
  if (65 <=? r) && (r <=? 90) then r + 32 else r.

(** The ASCII quotation marks. *)
Definition isQuote (r : rune) : bool := (r =? 34) || (r =? 39).

(** [insQuotes n a b]: the characters [b] are the characters [a] with [n]
    quotation marks put in. *)
Inductive insQuotes : nat -> list rune -> list rune -> Prop :=
| ins_nil : insQuotes 0 [] []
| ins_keep n r a b : insQuotes n a b -> insQuotes n (r :: a) (r :: b)
| ins_quote n q a b : isQuote q = true -> insQuotes n a b -> insQuotes (S n) a (q :: b).

(** The classification as the specification words it, from the three facts
    it names. *)
Definition classify_spec (trimmedEmpty hasSecondary hasPrimary : bool) : LineType :=
  if trimmedEmpty then LineTypeEmpty
  else if hasSecondary && hasPrimary then LineTypeMixed
  else if hasSecondary then LineTypeChinese
  else if hasPrimary then LineTypeEnglish
  else LineTypeEmpty.

(** The driver holds the key of the source line it holds. *)
Definition keyInSync {tables : unicode.CaseTables} (st : locals) : Prop :=
  sourceKey st = generateLineKey (LineInfo.Text (sourceLineInfo st)).

(** A target line that must match the current source line and does not. *)
Definition mismatch {tables : unicode.CaseTables} (st : locals) (targetText : gostring) : Prop :=
  isChineseOrMixed (classifyLineType targetText) = false
  /\ sourceKey st <> generateLineKey targetText.

(** The [SyncError] for a target line: the two line numbers and the two keys. *)
Definition syncErrorAt {tables : unicode.CaseTables} (st : locals) (targetText : gostring)
  : error :=
  errorSync {| SyncError.SourceLine := sourceLineNum st;
               SyncError.TargetLine := targetLineNum st;
               SyncError.SourceKey := sourceKey st;
               SyncError.TargetKey := generateLineKey targetText;
               SyncError.Message := str "Line content mismatch" |}.

(** The locals after [n] full rounds of the main loop from round [loopID],
    when the loop gets that far. *)
Fixpoint rounds {tables : unicode.CaseTables} (n : nat) (loopID : Z) (st : locals)
  : option locals :=
  match n with
  | O => Some st
  | S n' =>
      match mainLoopBody loopID st with
      | Next st' => rounds n' (loopID + 1) st'
      | _ => None
      end
  end.

(** The locals after [n] full rounds of the fast-forward loop, when the
    loop gets that far. *)
Fixpoint fastForwardRounds {tables : unicode.CaseTables} (n : nat) (st : locals)
  : option locals :=
  match n with
  | O => Some st
  | S n' =>
      match fastForwardBody st with
      | Next st' => fastForwardRounds n' st'
      | _ => None
      end
  end.

(** The iterations of a run told to start at [startLoop]: the first one is
    iteration 1 with fast-forward and iteration [startLoop] without;
    iteration [loopID] is a round of the fast-forward loop when
    [loopID < startLoop] and a round of the main loop otherwise. *)
Definition firstLoop (startLoop : Z) : Z := if startLoop >? 1 then 1 else startLoop.

Definition roundBody {tables : unicode.CaseTables} (startLoop loopID : Z) (st : locals)
  : step :=
  if loopID <? startLoop then fastForwardBody st else mainLoopBody loopID st.

(** The read of the source that opens iteration [loopID]. *)
Definition roundSource {tables : unicode.CaseTables} (startLoop loopID : Z) (st : locals)
  : step :=
  if loopID <? startLoop then fastForward_source st else mainLoop_source st.

(** The locals after [n] full iterations of a run from iteration [loopID],
    when the run gets that far. *)
Fixpoint runRounds {tables : unicode.CaseTables} (startLoop : Z) (n : nat) (loopID : Z)
         (st : locals) : option locals :=
  match n with
  | O => Some st
  | S n' =>
      match roundBody startLoop loopID st with
      | Next st' => runRounds startLoop n' (loopID + 1) st'
      | _ => None
      end
  end.

(** What the fast-forward claim compares: the flag and the two line numbers. *)
Definition progressOf (st : locals) : bool * Z * Z :=
  (lastProcessedWasChinese st, sourceLineNum st, targetLineNum st).

(** Two states of the driver that differ at most in the tabs to add and in
    the formatting calls issued. *)
Definition sameProgress (a b : locals) : Prop :=
  sourceCursor a = sourceCursor b /\ targetCursor a = targetCursor b
  /\ sourceLineNum a = sourceLineNum b /\ targetLineNum a = targetLineNum b
  /\ previousFeatures a = previousFeatures b
  /\ lastProcessedWasChinese a = lastProcessedWasChinese b
  /\ sourceLineInfo a = sourceLineInfo b /\ sourceKey a = sourceKey b
  /\ sourceFeatures a = sourceFeatures b.

(** The final locals of a run that returned. *)
Definition finalLocals (r : result) : option locals :=
  match r with
  | Returned _ final => final
  | OutOfFuel => None
  end.

(** A bound on the lines a cursor can still deliver: the elements from the
    cursor's on, each counted with the largest number of lines of a
    paragraph, less the lines of the current element already passed. *)
Definition lineCount (element : docs.StructuralElement) : nat :=
  match paragraphLines element with
  | Some (_, lines) => List.length lines
  | None => O
  end.

Definition maxLines (content : list docs.StructuralElement) : nat :=
  fold_right (fun element m => Nat.max (lineCount element) m) O content.

Definition contentOf (cursor : DocumentCursor) : list docs.StructuralElement :=
  match docs.Body_ (DocumentCursor.Document cursor) with
  | Some body => docs.BodyContent body
  | None => []
  end.

Definition cursorMeasure (cursor : DocumentCursor) : nat :=
  (S (maxLines (contentOf cursor))
   * (List.length (contentOf cursor) - Z.to_nat (DocumentCursor.ElementIndex cursor))
   + (maxLines (contentOf cursor) - Z.to_nat (DocumentCursor.LineIndex cursor)))%nat.

Definition cursorOk (cursor : DocumentCursor) : Prop :=
  0 <= DocumentCursor.ElementIndex cursor /\ 0 <= DocumentCursor.LineIndex cursor.

(** Rounds of [fuel] that are enough for the pass over the re-fetched
    target that follows the main loop. *)
Definition tabsFuel (docsService : Service) : nat :=
  match Documents_Get docsService with
  | inl targetDoc => S (cursorMeasure (newCursor targetDoc))
  | inr _ => O
  end.


(** ** More of [matcher.go] *)

Section MatcherStrategy.
Context {tables : unicode.CaseTables}.

(** [GetLineMatchingStrategy]; the [default] branch of the [switch] is the
    last line. *)
Definition GetLineMatchingStrategy (targetText : gostring) : gostring :=
  let lineType := classifyLineType targetText in
  if LineType_eqb lineType LineTypeChinese then str "chinese_translation"
  else if LineType_eqb lineType LineTypeEnglish then str "english_match"
  else if LineType_eqb lineType LineTypeMixed then str "mixed_content"
  else if LineType_eqb lineType LineTypeEmpty then str "empty_line"
  else str "unknown".

End MatcherStrategy.

(** ** The lines of a document in reading order

    What the statements about [getNextNonEmptyLine] and the loops over it
    are phrased with; none of this is part of the program. *)

(** The lines of [rest] that are not blank, trimmed, with their indices,
    the first line of [rest] having the index [lineIndex]. *)
Fixpoint linesAfter (rest : list gostring) (lineIndex : Z) : list (gostring * Z) :=
  match rest with
  | [] => []
  | l :: rest' =>
      (if negb (gostring_eqb (strings.TrimSpace l) []) then
         [(strings.TrimSpace l, lineIndex)]
       else [])
      ++ linesAfter rest' (lineIndex + 1)
  end.

(** The line of [element] with the text [text]. *)
Definition lineOf (element : docs.StructuralElement) (firstTextRun : option docs.TextRun)
           (text : gostring) : LineInfo :=
  {| LineInfo.Text := text;
     LineInfo.Element := element;
     LineInfo.TextRun := firstTextRun;
     LineInfo.Features := None |}.

(** The lines the elements [rest] hold, in reading order; the first element
    is taken from its line [lineIndex] on when it has text, and an element
    without text hands [lineIndex] on to the next one, as the loop of
    [getNextNonEmptyLine] does. *)
Fixpoint linesFrom (rest : list docs.StructuralElement) (lineIndex : Z) : list LineInfo :=
  match rest with
  | [] => []
  | element :: rest' =>
      match paragraphLines element with
      | Some (firstTextRun, lines) =>
          map (fun p => lineOf element firstTextRun (fst p))
              (linesAfter (sliceFrom lines lineIndex) lineIndex)
          ++ linesFrom rest' 0
      | None => linesFrom rest' lineIndex
      end
  end.

(** The lines a cursor has not delivered yet. *)
Definition pendingLines (cursor : DocumentCursor) : list LineInfo :=
  linesFrom (sliceFrom (contentOf cursor) (DocumentCursor.ElementIndex cursor))
            (DocumentCursor.LineIndex cursor).

(** Calling [getNextNonEmptyLine] until it fails, [fuel] times at most: the
    lines delivered. *)
Fixpoint readLines (fuel : nat) (cursor : DocumentCursor) : list LineInfo :=
  match fuel with
  | O => []
  | S fuel' =>
      match getNextNonEmptyLine cursor with
      | (inl lineInfo, cursor') => lineInfo :: readLines fuel' cursor'
      | (inr _, _) => []
      end
  end.

(** The position of a cursor comes before that of another one. *)
Definition cursorBefore (a b : DocumentCursor) : Prop :=
  DocumentCursor.ElementIndex a < DocumentCursor.ElementIndex b
  \/ (DocumentCursor.ElementIndex a = DocumentCursor.ElementIndex b
      /\ DocumentCursor.LineIndex a < DocumentCursor.LineIndex b).

(** ** Notions for the statements about the driver *)

(** The locals a loop body ends with. *)
Definition stateOf (s : step) : locals :=
  match s with
  | Next st | Break st | ReturnErr _ st => st
  end.

(** The numbers of [l] increase strictly and are at least [lo]. *)
Fixpoint increasingFrom (lo : Z) (l : list Z) : Prop :=
  match l with
  | [] => True
  | x :: rest => lo <= x /\ increasingFrom (x + 1) rest
  end.

(** The numbers of [l] never increase. *)
Fixpoint nonIncreasing (l : list Z) : Prop :=
  match l with
  | [] => True
  | x :: rest => Forall (fun y => y <= x) rest /\ nonIncreasing rest
  end.

(** The formatting call of iteration [loopID] on the paragraph of a line. *)
Definition callOn (loopID : Z) (line : LineInfo) (call : FormatCall) : Prop :=
  atLoop call = loopID
  /\ rangeStart call = docs.StartIndex (LineInfo.Element line)
  /\ rangeEnd call = docs.EndIndex (LineInfo.Element line).

(** The start indices of the elements never decrease through the content. *)
Fixpoint ascendingStarts (content : list docs.StructuralElement) : Prop :=
  match content with
  | [] => True
  | element :: rest =>
      Forall (fun e => docs.StartIndex element <= docs.StartIndex e) rest
      /\ ascendingStarts rest
  end.

(** The requests to insert tabs for the lines [lines], numbered from [k] on,
    in the order of the lines: one for every line whose number has tabs to
    add, at the start of the paragraph of the line and with that many tabs. *)
Fixpoint tabRequests (tabsToAddMap : IntMap) (k : Z) (lines : list LineInfo)
  : list docs.InsertTextRequest :=
  match lines with
  | [] => []
  | line :: rest =>
      match IntMap_get tabsToAddMap k with
      | Some numTabs =>
          [{| docs.Index := docs.StartIndex (LineInfo.Element line);
              docs.InsertedText := strings.Repeat x09 numTabs |}]
      | None => []
      end ++ tabRequests tabsToAddMap (k + 1) rest
  end.

(** The features [extractLineFeatures] reads from a line. *)
Definition featuresOf (line : LineInfo) : LineFeatures :=
  extractLineFeatures (LineInfo.Element line) (LineInfo.TextRun line) (LineInfo.Text line).

(** The features the driver holds and applies come from lines of the
    source, here the lines [sourceLines]. *)
Definition fromSource (sourceLines : list LineInfo) (features : LineFeatures) : Prop :=
  exists line, In line sourceLines /\ features = featuresOf line.

(** All the features the driver holds and has applied come from the lines
    [sourceLines], among which are the lines the source cursor has still to
    deliver. *)
Definition featuresFromSource (sourceLines : list LineInfo) (st : locals) : Prop :=
  (forall line, In line (pendingLines (sourceCursor st)) -> In line sourceLines)
  /\ fromSource sourceLines (sourceFeatures st)
  /\ (forall previous, previousFeatures st = Some previous ->
                       fromSource sourceLines previous)
  /\ Forall (fun call => fromSource sourceLines (appliedFeatures call)) (applied st).

(** ** The actions on one document ([main.go])

    [insertTabsAtLineStart], [applyCenterAlignment] and
    [applyChineseLineSpacing] fetch a document, build a list of requests
    and send it in one batch update. *)

(** The requests these actions build. *)
Inductive Request :=
| InsertText (request : docs.InsertTextRequest)
| UpdateParagraphStyle (startIndex endIndex : Z) (paragraphStyle : docs.ParagraphStyle)
                       (fields : gostring).

(** What the world answers to an action: whether [os.Stat] reports that the
    credentials file does not exist, what [docs.NewService] returns, and
    what the service answers to [Documents.Get(docID).Do()] and to
    [Documents.BatchUpdate(docID, request).Do()]. *)
Record DocsClient := {
  Get_Do : docs.Document + error;
  BatchUpdate_Do : list Request -> option error
}.

Record Environment := {
  credentialsNotExist : bool;
  NewService : DocsClient + error
}.

(** How a call ends: it returns an error ([None] is [nil]), or it stops in
    the run-time panic of [doc.Body.Content] on a document without body. *)
Inductive outcome :=
| returns (err : option error)
| nilDereference.

(** The common beginning of the three actions, up to the document. *)
Definition withDocument (env : Environment)
           (action : DocsClient -> docs.Document -> outcome) : outcome :=
  if credentialsNotExist env then
    returns (Some (errorString
      (str "churchoutline.json not found. Please follow setup instructions in README.md")))
  else
    match NewService env with
    | inr err => returns (Some (errorWrap (str "unable to create Docs service: %v") err))
    | inl docsService =>
        match Get_Do docsService with
        | inr err => returns (Some (errorWrap (str "unable to retrieve document: %v") err))
        | inl doc => action docsService doc
        end
    end.

(** *** [insertTabsAtLineStart] *)

(** The loop that sets [hasText]. *)
Fixpoint hasText_loop (elements : list docs.ParagraphElement) : bool :=
  match elements with
  | [] => false
  | paragraphElement :: rest =>
      match docs.TextRun_ paragraphElement with
      | Some textRun =>
          if negb (gostring_eqb (strings.TrimSpace (docs.Content textRun)) []) then true
          else hasText_loop rest
      | None => hasText_loop rest
      end
  end.

Fixpoint paragraphIndices_loop (content : list docs.StructuralElement)
         (paragraphIndices : list Z) : list Z :=
  match content with
  | [] => paragraphIndices
  | element :: rest =>
      match docs.Paragraph_ element with
      | Some paragraph =>
          if hasText_loop (docs.Elements paragraph) then
            paragraphIndices_loop rest (paragraphIndices ++ [docs.StartIndex element])
          else paragraphIndices_loop rest paragraphIndices
      | None => paragraphIndices_loop rest paragraphIndices
      end
  end.

(** [for i := len(paragraphIndices) - 1; i >= 0; i--]; the counter of the
    model is [i + 1]. *)
Fixpoint tabInsertions_loop (count : nat) (paragraphIndices : list Z)
         (requests : list Request) : list Request :=
  match count with
  | O => requests
  | S i =>
      tabInsertions_loop i paragraphIndices
        (requests ++ [InsertText {| docs.Index := nth i paragraphIndices 0;
                                    docs.InsertedText := [x09] |}])
  end.

Definition insertTabsAtLineStart (env : Environment) : outcome :=
  withDocument env (fun docsService doc =>
    match docs.Body_ doc with
    | None => nilDereference
    | Some body =>
        let paragraphIndices := paragraphIndices_loop (docs.BodyContent body) [] in
        let requests :=
          tabInsertions_loop (List.length paragraphIndices) paragraphIndices [] in
        if len requests =? 0 then
          returns (Some (errorString (str "no paragraphs found to update")))
        else
          match BatchUpdate_Do docsService requests with
          | Some err => returns (Some (errorWrap (str "failed to insert tabs: %v") err))
          | None => returns None
          end
    end).

(** *** [applyCenterAlignment] *)

Fixpoint centerRequests_loop (content : list docs.StructuralElement)
         (requests : list Request) : list Request :=
  match content with
  | [] => requests
  | element :: rest =>
      match docs.Paragraph_ element with
      | Some _ =>
          centerRequests_loop rest
            (requests ++ [UpdateParagraphStyle (docs.StartIndex element)
                                               (docs.EndIndex element)
                                               {| docs.Alignment := str "CENTER" |}
                                               (str "alignment")])
      | None => centerRequests_loop rest requests
      end
  end.

Definition applyCenterAlignment (env : Environment) : outcome :=
  withDocument env (fun docsService doc =>
    match docs.Body_ doc with
    | None => nilDereference
    | Some body =>
        let requests := centerRequests_loop (docs.BodyContent body) [] in
        if len requests =? 0 then
          returns (Some (errorString (str "no paragraphs found to update")))
        else
          match BatchUpdate_Do docsService requests with
          | Some err =>
              returns (Some (errorWrap (str "failed to apply center alignment: %v") err))
          | None => returns None
          end
    end).

(** *** [applyChineseLineSpacing] *)

Fixpoint paragraphText_loop (elements : list docs.ParagraphElement)
         (paragraphText : strings.Builder) : strings.Builder :=
  match elements with
  | [] => paragraphText
  | elem :: rest =>
      match docs.TextRun_ elem with
      | Some textRun =>
          paragraphText_loop rest (strings.WriteString paragraphText (docs.Content textRun))
      | None => paragraphText_loop rest paragraphText
      end
  end.

(** [for i := len(doc.Body.Content) - 1; i >= 0; i--]; the counter of the
    model is [i + 1]. *)
Fixpoint spacingRequests_loop (count : nat) (content : list docs.StructuralElement)
         (insertRequests : list Request) : list Request :=
  match count with
  | O => insertRequests
  | S i =>
      match nth_error content i with
      | Some element =>
          match docs.Paragraph_ element with
          | Some paragraph =>
              if len (docs.Elements paragraph) >? 0 then
                let text :=
                  strings.TrimSpace
                    (strings.String (paragraphText_loop (docs.Elements paragraph) [])) in
                if negb (gostring_eqb text []) && startsWithChinese text then
                  spacingRequests_loop i content
                    (insertRequests
                     ++ [InsertText {| docs.Index := docs.EndIndex element;
                                       docs.InsertedText := [x0a] |}])
                else spacingRequests_loop i content insertRequests
              else spacingRequests_loop i content insertRequests
          | None => spacingRequests_loop i content insertRequests
          end
      | None => spacingRequests_loop i content insertRequests
      end
  end.

Definition applyChineseLineSpacing (env : Environment) : outcome :=
  withDocument env (fun docsService doc =>
    match docs.Body_ doc with
    | None => nilDereference
    | Some body =>
        let insertRequests :=
          spacingRequests_loop (List.length (docs.BodyContent body))
                               (docs.BodyContent body) [] in
        if len insertRequests =? 0 then returns None
        else
          match BatchUpdate_Do docsService insertRequests with
          | Some err =>
              returns (Some (errorWrap
                               (str "failed to add spacing after Chinese lines: %v") err))
          | None => returns None
          end
    end).

(** The paragraphs the three actions pick. *)
Definition paragraphHasText (element : docs.StructuralElement) : bool :=
  match docs.Paragraph_ element with
  | Some paragraph => hasText_loop (docs.Elements paragraph)
  | None => false
  end.

Definition isParagraph (element : docs.StructuralElement) : bool :=
  match docs.Paragraph_ element with
  | Some _ => true
  | None => false
  end.

Definition paragraphStartsWithChinese (element : docs.StructuralElement) : bool :=
  match docs.Paragraph_ element with
  | Some paragraph =>
      startsWithChinese
        (strings.TrimSpace (strings.String (paragraphText_loop (docs.Elements paragraph) [])))
  | None => false
  end.

(** What an action that sends [requests], when there are any, returns. *)
Definition sends (docsService : DocsClient) (requests : list Request)
           (noRequests : option error) (failure : gostring) : outcome :=
  match requests with
  | [] => returns noRequests
  | _ :: _ =>
      match BatchUpdate_Do docsService requests with
      | Some err => returns (Some (errorWrap failure err))
      | None => returns None
      end
  end.

(** ** Two small documents

    A source of two lines, the first one behind a tab, and a target that
    has a Chinese line after each of them. *)
Definition bilingualSourceLines : list gostring :=
  [x09 :: str "Title: Jesus Christ, the Same"; str "2. Second Point"].

Definition bilingualTargetLines : list gostring :=
  [str "Title: Jesus Christ, the Same"; str "耶稣基督";
   str "2. second point"; str "第二点"].

Definition bilingualSource : DocumentCursor :=
  newCursor (documentOfLines bilingualSourceLines).

Definition bilingualTarget : DocumentCursor :=
  newCursor (documentOfLines bilingualTargetLines).

(** The locals of the run over them once the first source line is read. *)
Definition bilingualStart : locals :=
  initialLocals (tables := unicode.caselessAboveASCII)
    (lineOf (hd {| docs.StartIndex := 0; docs.EndIndex := 0; docs.Paragraph_ := None |}
                (contentOf bilingualSource))
            (Some {| docs.Content := x09 :: str "Title: Jesus Christ, the Same" ++ [x0a];
                     docs.TextStyle_ := None |})
            (str "Title: Jesus Christ, the Same"))
    (cursorAt bilingualSource 1 0) bilingualTarget.


(** * Facts about bytes and bit operations *)

Lemma byteZ_range (b : byte) : 0 <= byteZ b < 256.
Proof.
  unfold byteZ. pose proof (Byte.to_N_bounded b). lia.
Qed.

Lemma byte_of_byteZ (b : byte) : byte_of (byteZ b) = b.
Proof.
  unfold byte_of. pose proof (byteZ_range b) as Hb.
  rewrite Z.mod_small by lia. unfold byteZ. rewrite N2Z.id.
  now rewrite Byte.of_to_N.
Qed.

Lemma byteZ_byte_of (z : Z) : byteZ (byte_of z) = z mod 256.
Proof.
  unfold byte_of, byteZ.
  pose proof (Z.mod_pos_bound z 256 ltac:(lia)) as Hm.
  destruct (Byte.of_N (Z.to_N (z mod 256))) as [b|] eqn:E.
  - apply Byte.to_of_N in E. rewrite E. lia.
  - apply Byte.of_N_None_iff in E. lia.
Qed.

Lemma byteZ_inj (a b : byte) : byteZ a = byteZ b -> a = b.
Proof.
  intros E. rewrite <- (byte_of_byteZ a), <- (byte_of_byteZ b). now rewrite E.
Qed.

Lemma land_shiftl_low (a b n : Z) :
  0 <= n -> 0 <= b < 2 ^ n -> Z.land (a * 2 ^ n) b = 0.
Proof.
  intros Hn Hb. apply Z.bits_inj'. intros k Hk.
  rewrite Z.land_spec, Z.bits_0.
  destruct (Z.lt_ge_cases k n) as [Hlt|Hge].
  - rewrite Z.mul_pow2_bits_low by lia. reflexivity.
  - replace (Z.testbit b k) with false; [apply andb_false_r|].
    symmetry. destruct (Z.eq_dec b 0) as [->|Hnz]; [apply Z.bits_0|].
    apply Z.bits_above_log2; [lia|].
    apply Z.log2_lt_pow2; [lia|].
    apply Z.lt_le_trans with (2 ^ n); [lia|].
    apply Z.pow_le_mono_r; lia.
Qed.

Lemma lor_shifted_add (a b n : Z) :
  0 <= n -> 0 <= b < 2 ^ n -> Z.lor (a * 2 ^ n) b = a * 2 ^ n + b.
Proof.
  intros Hn Hb. rewrite <- Z.add_lor_land, land_shiftl_low by assumption. lia.
Qed.

Lemma land_63 (x : Z) : Z.land x 0x3F = x mod 64.
Proof. change 0x3F with (Z.ones 6). now rewrite Z.land_ones by lia. Qed.
Lemma land_31 (x : Z) : Z.land x 0x1F = x mod 32.
Proof. change 0x1F with (Z.ones 5). now rewrite Z.land_ones by lia. Qed.
Lemma land_15 (x : Z) : Z.land x 0x0F = x mod 16.
Proof. change 0x0F with (Z.ones 4). now rewrite Z.land_ones by lia. Qed.
Lemma land_7 (x : Z) : Z.land x 0x07 = x mod 8.
Proof. change 0x07 with (Z.ones 3). now rewrite Z.land_ones by lia. Qed.

Lemma lor_192 (x : Z) : 0 <= x < 64 -> Z.lor 0xC0 x = 192 + x.
Proof. intros. change 0xC0 with (3 * 2 ^ 6). rewrite lor_shifted_add; lia. Qed.
Lemma lor_128 (x : Z) : 0 <= x < 64 -> Z.lor 0x80 x = 128 + x.
Proof. intros. change 0x80 with (2 * 2 ^ 6). rewrite lor_shifted_add; lia. Qed.
Lemma lor_224 (x : Z) : 0 <= x < 16 -> Z.lor 0xE0 x = 224 + x.
Proof. intros. change 0xE0 with (14 * 2 ^ 4). rewrite lor_shifted_add; lia. Qed.
Lemma lor_240 (x : Z) : 0 <= x < 8 -> Z.lor 0xF0 x = 240 + x.
Proof. intros. change 0xF0 with (30 * 2 ^ 3). rewrite lor_shifted_add; lia. Qed.

Lemma lor_disjoint_add (x y n : Z) :
  0 <= n -> x mod 2 ^ n = 0 -> 0 <= y < 2 ^ n -> Z.lor x y = x + y.
Proof.
  intros Hn Hx Hy.
  assert (Hp : 0 < 2 ^ n) by (apply Z.pow_pos_nonneg; lia).
  rewrite (Z.div_mod x (2 ^ n)) at 1 2 by lia.
  rewrite Hx, Z.add_0_r, (Z.mul_comm (2 ^ n)).
  now apply lor_shifted_add.
Qed.

Ltac solve_divmod := Z.div_mod_to_equations; lia.

(** The arithmetic reading of the three decoding expressions. *)
Lemma decode2_arith (a b : Z) :
  Z.lor (Z.shiftl (Z.land a 0x1F) 6) (Z.land b 0x3F) = (a mod 32) * 64 + b mod 64.
Proof.
  rewrite land_31, land_63, Z.shiftl_mul_pow2 by lia.
  change (2 ^ 6) with 64.
  apply (lor_disjoint_add _ _ 6); [lia| |]; change (2 ^ 6) with 64; solve_divmod.
Qed.

Lemma decode3_arith (a b c : Z) :
  Z.lor (Z.lor (Z.shiftl (Z.land a 0x0F) 12) (Z.shiftl (Z.land b 0x3F) 6)) (Z.land c 0x3F)
  = (a mod 16) * 4096 + (b mod 64) * 64 + c mod 64.
Proof.
  rewrite land_15, !land_63, !Z.shiftl_mul_pow2 by lia.
  change (2 ^ 6) with 64. change (2 ^ 12) with 4096.
  rewrite (lor_disjoint_add (a mod 16 * 4096) (b mod 64 * 64) 12)
    by (try change (2 ^ 12) with 4096; solve_divmod).
  apply (lor_disjoint_add _ _ 6); [lia| |]; change (2 ^ 6) with 64; solve_divmod.
Qed.

Lemma decode4_arith (a b c d : Z) :
  Z.lor (Z.lor (Z.lor (Z.shiftl (Z.land a 0x07) 18) (Z.shiftl (Z.land b 0x3F) 12))
               (Z.shiftl (Z.land c 0x3F) 6)) (Z.land d 0x3F)
  = (a mod 8) * 262144 + (b mod 64) * 4096 + (c mod 64) * 64 + d mod 64.
Proof.
  rewrite land_7, !land_63, !Z.shiftl_mul_pow2 by lia.
  change (2 ^ 6) with 64. change (2 ^ 12) with 4096. change (2 ^ 18) with 262144.
  rewrite (lor_disjoint_add (a mod 8 * 262144) (b mod 64 * 4096) 18)
    by (try change (2 ^ 18) with 262144; solve_divmod).
  rewrite (lor_disjoint_add (a mod 8 * 262144 + b mod 64 * 4096) (c mod 64 * 64) 12)
    by (try change (2 ^ 12) with 4096; solve_divmod).
  apply (lor_disjoint_add _ _ 6); [lia| |]; change (2 ^ 6) with 64; solve_divmod.
Qed.

(** * Facts about [utf8.DecodeRuneInString] *)

Lemma len_nil {A} : len (@nil A) = 0.
Proof. reflexivity. Qed.

Lemma len_cons {A} (x : A) s : len (x :: s) = len s + 1.
Proof. unfold len. cbn [List.length]. lia. Qed.

Lemma len_nonneg {A} (s : list A) : 0 <= len s.
Proof. unfold len. lia. Qed.

Lemma len_app {A} (s t : list A) : len (s ++ t) = len s + len t.
Proof. unfold len. rewrite length_app. lia. Qed.

Lemma first_spec (a : Z) :
  (a < 0x80 /\ utf8.first a = utf8.as_) \/
  ((0x80 <= a < 0xC2 \/ 0xF4 < a) /\ utf8.first a = utf8.xx) \/
  (0xC2 <= a < 0xE0 /\ utf8.first a = utf8.s1) \/
  (a = 0xE0 /\ utf8.first a = utf8.s2) \/
  ((0xE0 < a < 0xED \/ 0xED < a < 0xF0) /\ utf8.first a = utf8.s3) \/
  (a = 0xED /\ utf8.first a = utf8.s4) \/
  (a = 0xF0 /\ utf8.first a = utf8.s5) \/
  (0xF0 < a < 0xF4 /\ utf8.first a = utf8.s6) \/
  (a = 0xF4 /\ utf8.first a = utf8.s7).
Proof.
  unfold utf8.first.
  repeat match goal with
         | |- context [if ?c then _ else _] =>
             let E := fresh "E" in destruct c eqn:E
         end; lia.
Qed.

Ltac first_cases a :=
  let R := fresh "R" in let E := fresh "E" in
  destruct (first_spec a)
    as [[R E]|[[R E]|[[R E]|[[R E]|[[R E]|[[R E]|[[R E]|[[R E]|[R E]]]]]]]]];
  rewrite ?E in *.

(** Reduces the table lookups of [DecodeRuneInString] once [first s0] is
    the constant [K]. *)
Ltac reduce_first K :=
  let sz := eval vm_compute in (Z.land K 7) in
  let ge := eval vm_compute in (K >=? utf8.as_) in
  let ar := eval vm_compute in (utf8.acceptRanges (Z.shiftr K 4)) in
  let mk := eval vm_compute in (Z.shiftr (int32 (Z.shiftl K 31)) 31) in
  let le2 := eval vm_compute in (sz <=? 2) in
  let le3 := eval vm_compute in (sz <=? 3) in
  change (Z.shiftr (int32 (Z.shiftl K 31)) 31) with mk;
  change (Z.land K 7) with sz; change (K >=? utf8.as_) with ge;
  change (utf8.acceptRanges (Z.shiftr K 4)) with ar;
  change (sz <=? 2) with le2; change (sz <=? 3) with le3;
  cbv beta iota; cbn [utf8.lo utf8.hi].

Ltac decode_head b s :=
  unfold utf8.DecodeRuneInString; cbv zeta;
  replace (len (b :: s) <? 1) with false
    by (symmetry; apply Z.ltb_ge; rewrite len_cons; pose proof (len_nonneg s); lia);
  change (byteAt (b :: s) 0) with (byteZ b).

Lemma decode_ascii b s :
  byteZ b < 0x80 -> utf8.DecodeRuneInString (b :: s) = (byteZ b, 1).
Proof.
  intros Hb. decode_head b s.
  first_cases (byteZ b); try lia.
  reduce_first utf8.as_.
  rewrite Z.land_0_r, Z.lor_0_r. change (Z.lnot 0) with (-1).
  now rewrite Z.land_m1_r.
Qed.

Lemma byteAt_cons b s i : 0 <= i -> byteAt (b :: s) (i + 1) = byteAt s i.
Proof.
  intros Hi. unfold byteAt. rewrite Z2Nat.inj_add by lia.
  rewrite Nat.add_comm. reflexivity.
Qed.

Lemma byteAt_0 b s : byteAt (b :: s) 0 = byteZ b.
Proof. reflexivity. Qed.

Ltac bool_to_Z :=
  repeat match goal with
         | H : (_ || _) = false |- _ => apply orb_false_iff in H; destruct H
         | H : (_ && _) = true |- _ => apply andb_true_iff in H; destruct H
         | H : negb _ = true |- _ => apply negb_true_iff in H
         | H : negb _ = false |- _ => apply negb_false_iff in H
         | H : (_ <? _) = true |- _ => apply Z.ltb_lt in H
         | H : (_ <? _) = false |- _ => apply Z.ltb_ge in H
         | H : (_ <=? _) = true |- _ => apply Z.leb_le in H
         | H : (_ <=? _) = false |- _ => apply Z.leb_gt in H
         | H : (_ >=? _) = true |- _ => rewrite Z.geb_leb in H
         | H : (_ >=? _) = false |- _ => rewrite Z.geb_leb in H
         | H : (_ >? _) = true |- _ => rewrite Z.gtb_ltb in H
         | H : (_ >? _) = false |- _ => rewrite Z.gtb_ltb in H
         | H : (_ =? _) = true |- _ => apply Z.eqb_eq in H
         | H : (_ =? _) = false |- _ => apply Z.eqb_neq in H
         end.

Ltac decode_err := left; split; [discriminate|reflexivity].

(** Strips the head byte of [s] in a decoding goal, or closes the goal when
    [s] is too short. *)
Ltac next_byte Hn s b :=
  destruct s as [|b s];
  [ repeat rewrite ?len_cons, ?len_nil in Hn; bool_to_Z; lia | ].

Lemma byteAt_1 b0 b1 s : byteAt (b0 :: b1 :: s) 1 = byteZ b1.
Proof. reflexivity. Qed.

Lemma byteAt_2 b0 b1 b2 s : byteAt (b0 :: b1 :: b2 :: s) 2 = byteZ b2.
Proof. reflexivity. Qed.

Lemma byteAt_3 b0 b1 b2 b3 s : byteAt (b0 :: b1 :: b2 :: b3 :: s) 3 = byteZ b3.
Proof. reflexivity. Qed.

(** Splits on the range check of the next byte of a decoding goal. *)
Ltac check_byte :=
  match goal with
  | |- context [if (?x <? ?l) || (?h <? ?x) then _ else _] =>
      let Hb := fresh "Hb" in
      destruct ((x <? l) || (h <? x)) eqn:Hb; [decode_err|]; bool_to_Z
  end.

Ltac decode3 :=
  match goal with
  | |- context [len (?b0 :: ?s) <? 3] =>
      let Hn := fresh "Hn" in let b1 := fresh "b1" in let b2 := fresh "b2" in
      destruct (len (b0 :: s) <? 3) eqn:Hn; [decode_err|];
      next_byte Hn s b1; next_byte Hn s b2;
      rewrite ?byteAt_1, ?byteAt_2; unfold utf8.locb, utf8.hicb;
      check_byte; check_byte;
      right; eexists _, 3; split; [apply VS3; lia|];
      unfold utf8.mask3, utf8.maskx; now rewrite decode3_arith
  end.

Ltac decode4 :=
  match goal with
  | |- context [len (?b0 :: ?s) <? 4] =>
      let Hn := fresh "Hn" in let b1 := fresh "b1" in let b2 := fresh "b2" in
      let b3 := fresh "b3" in
      destruct (len (b0 :: s) <? 4) eqn:Hn; [decode_err|];
      next_byte Hn s b1; next_byte Hn s b2; next_byte Hn s b3;
      rewrite ?byteAt_1, ?byteAt_2, ?byteAt_3; unfold utf8.locb, utf8.hicb;
      check_byte; check_byte; check_byte;
      right; eexists _, 4; split; [apply VS4; lia|];
      unfold utf8.mask4, utf8.maskx; now rewrite decode4_arith
  end.

Lemma decode_cases s :
  (s = [] /\ utf8.DecodeRuneInString s = (utf8.RuneError, 0)) \/
  (s <> [] /\ utf8.DecodeRuneInString s = (utf8.RuneError, 1)) \/
  (exists r w, ValidSeq s r w /\ utf8.DecodeRuneInString s = (r, w)).
Proof.
  destruct s as [|b0 s]; [left; split; reflexivity|right].
  destruct (Z.lt_ge_cases (byteZ b0) 0x80) as [Ha|Ha].
  { right. exists (byteZ b0), 1. split; [now constructor|now apply decode_ascii]. }
  decode_head b0 s.
  first_cases (byteZ b0); try lia;
    match goal with E : utf8.first _ = ?K |- _ => reduce_first K end;
    try decode3; try decode4.
  - left. split; [discriminate|].
    change (Z.lnot (-1)) with 0. now rewrite Z.land_0_r, Z.land_m1_r.
  - destruct (len (b0 :: s) <? 2) eqn:Hn; [decode_err|].
    next_byte Hn s b1. rewrite byteAt_1. check_byte.
    right. eexists _, 2. split; [apply VS2; lia|].
    unfold utf8.mask2, utf8.maskx. now rewrite decode2_arith.
Qed.

Ltac len_ok n :=
  match goal with
  | |- context [len ?s <? n] =>
      replace (len s <? n) with false
        by (symmetry; apply Z.ltb_ge; repeat rewrite len_cons;
            match goal with |- context [len ?t] => pose proof (len_nonneg t) end; lia)
  end.

Ltac byte_ok :=
  match goal with
  | |- context [if (?x <? ?l) || (?h <? ?x) then _ else _] =>
      let Hb := fresh "Hb" in
      destruct ((x <? l) || (h <? x)) eqn:Hb;
      [apply orb_true_iff in Hb; destruct Hb; bool_to_Z; lia|]
  end.

Lemma ValidSeq_decode s r w :
  ValidSeq s r w -> utf8.DecodeRuneInString s = (r, w).
Proof.
  intros [b s' Hb | b0 b1 s' H0 H1 | b0 b1 b2 s' H0 H1 Hlo Hhi H2
         | b0 b1 b2 b3 s' H0 H1 Hlo Hhi H2 H3].
  - now apply decode_ascii.
  - decode_head b0 (b1 :: s').
    first_cases (byteZ b0); try lia;
      match goal with E : utf8.first _ = ?K |- _ => reduce_first K end.
    len_ok 2. rewrite byteAt_1. byte_ok.
    unfold utf8.mask2, utf8.maskx. now rewrite decode2_arith.
  - decode_head b0 (b1 :: b2 :: s').
    first_cases (byteZ b0); try lia;
      match goal with E : utf8.first _ = ?K |- _ => reduce_first K end;
      len_ok 3; rewrite byteAt_1, byteAt_2; unfold utf8.locb, utf8.hicb;
      byte_ok; byte_ok;
      unfold utf8.mask3, utf8.maskx; now rewrite decode3_arith.
  - decode_head b0 (b1 :: b2 :: b3 :: s').
    first_cases (byteZ b0); try lia;
      match goal with E : utf8.first _ = ?K |- _ => reduce_first K end;
      len_ok 4; rewrite byteAt_1, byteAt_2, byteAt_3; unfold utf8.locb, utf8.hicb;
      byte_ok; byte_ok; byte_ok;
      unfold utf8.mask4, utf8.maskx; now rewrite decode4_arith.
Qed.

Lemma ValidSeq_app s t r w : ValidSeq s r w -> ValidSeq (s ++ t) r w.
Proof.
  intros H. destruct H; cbn [app]; constructor; assumption.
Qed.

Lemma ValidSeq_rune s r w :
  ValidSeq s r w ->
  validRune r /\
  (w = 1 /\ 0 <= r < 0x80 \/ w = 2 /\ 0x80 <= r < 0x800 \/
   w = 3 /\ 0x800 <= r < 0x10000 \/ w = 4 /\ 0x10000 <= r).
Proof.
  unfold validRune.
  intros [b s' Hb | b0 b1 s' H0 H1 | b0 b1 b2 s' H0 H1 Hlo Hhi H2
         | b0 b1 b2 b3 s' H0 H1 Hlo Hhi H2 H3].
  - pose proof (byteZ_range b). lia.
  - solve_divmod.
  - solve_divmod.
  - solve_divmod.
Qed.

Lemma ValidSeq_len s r w : ValidSeq s r w -> 1 <= w <= len s.
Proof.
  intros H; destruct H; repeat rewrite len_cons;
    match goal with |- context [len ?t] => pose proof (len_nonneg t) end; lia.
Qed.

Lemma RuneError_valid : validRune utf8.RuneError.
Proof. unfold validRune, utf8.RuneError. lia. Qed.

(** What [DecodeRuneInString] returns on a string that is not empty. *)
Lemma decode_width s r w :
  s <> [] -> utf8.DecodeRuneInString s = (r, w) -> 1 <= w <= len s.
Proof.
  intros Hs E.
  destruct (decode_cases s) as [[-> _]|[[_ E']|(r' & w' & V & E')]].
  - contradiction.
  - rewrite E in E'. inversion E'; subst.
    destruct s; [contradiction|]. rewrite len_cons. pose proof (len_nonneg s). lia.
  - rewrite E in E'. inversion E'; subst. eapply ValidSeq_len; eauto.
Qed.

Lemma decode_valid s r w : utf8.DecodeRuneInString s = (r, w) -> validRune r.
Proof.
  intros E.
  destruct (decode_cases s) as [[_ E']|[[_ E']|(r' & w' & V & E')]];
    rewrite E in E'; inversion E'; subst; try apply RuneError_valid.
  now apply ValidSeq_rune in V.
Qed.

Lemma decode_app s t r w :
  utf8.DecodeRuneInString s = (r, w) -> r <> utf8.RuneError ->
  utf8.DecodeRuneInString (s ++ t) = (r, w).
Proof.
  intros E Hr.
  destruct (decode_cases s) as [[_ E']|[[_ E']|(r' & w' & V & E')]];
    rewrite E in E'; inversion E'; subst; try contradiction.
  apply ValidSeq_decode. now apply ValidSeq_app.
Qed.

(** A byte of the ASCII range is decoded to itself, and no other byte
    starts a rune of that range. *)
Lemma decode_nonascii b s r w :
  0x80 <= byteZ b -> utf8.DecodeRuneInString (b :: s) = (r, w) -> 0x80 <= r.
Proof.
  intros Hb E.
  destruct (decode_cases (b :: s)) as [[E0 _]|[[_ E']|(r' & w' & V & E')]];
    [discriminate| |]; rewrite E in E'; inversion E'; subst.
  - unfold utf8.RuneError. lia.
  - inversion V; subst; try lia. all: solve_divmod.
Qed.

(** * Facts about [utf8.AppendRune] *)

Lemma AppendRune_app p r : utf8.AppendRune p r = p ++ utf8.AppendRune [] r.
Proof.
  unfold utf8.AppendRune, utf8.appendRuneNonASCII.
  repeat match goal with
         | |- context [if ?c then _ else _] => destruct c
         end; reflexivity.
Qed.

Lemma ValidSeq_eq s r r' w : ValidSeq s r' w -> r' = r -> ValidSeq s r w.
Proof. now intros H <-. Qed.

Lemma shiftr_6 r : Z.shiftr r 6 = r / 64.
Proof. now rewrite Z.shiftr_div_pow2 by lia. Qed.
Lemma shiftr_12 r : Z.shiftr r 12 = r / 4096.
Proof. now rewrite Z.shiftr_div_pow2 by lia. Qed.
Lemma shiftr_18 r : Z.shiftr r 18 = r / 262144.
Proof. now rewrite Z.shiftr_div_pow2 by lia. Qed.

Lemma byteZ_lead2 r : 0x80 <= r < 0x800 ->
  byteZ (byte_of (Z.lor utf8.t2 (Z.shiftr r 6))) = 192 + r / 64.
Proof.
  intros Hr. rewrite byteZ_byte_of, shiftr_6. unfold utf8.t2.
  rewrite lor_192 by solve_divmod. solve_divmod.
Qed.

Lemma byteZ_lead3 r : 0 <= r < 0x10000 ->
  byteZ (byte_of (Z.lor utf8.t3 (Z.shiftr r 12))) = 224 + r / 4096.
Proof.
  intros Hr. rewrite byteZ_byte_of, shiftr_12. unfold utf8.t3.
  rewrite lor_224 by solve_divmod. solve_divmod.
Qed.

Lemma byteZ_lead4 r : 0 <= r <= 0x10FFFF ->
  byteZ (byte_of (Z.lor utf8.t4 (Z.shiftr r 18))) = 240 + r / 262144.
Proof.
  intros Hr. rewrite byteZ_byte_of, shiftr_18. unfold utf8.t4.
  rewrite lor_240 by solve_divmod. solve_divmod.
Qed.

Lemma byteZ_cont x :
  byteZ (byte_of (Z.lor utf8.tx (Z.land x utf8.maskx))) = 128 + x mod 64.
Proof.
  rewrite byteZ_byte_of. unfold utf8.tx, utf8.maskx. rewrite land_63.
  rewrite lor_128 by solve_divmod. solve_divmod.
Qed.

(** The bytes [AppendRune] writes for a rune of Unicode are a well-formed
    encoding of that rune. *)
Lemma AppendRune_ValidSeq r t :
  validRune r ->
  ValidSeq (utf8.AppendRune [] r ++ t) r (len (utf8.AppendRune [] r)).
Proof.
  intros [Hr Hs].
  unfold utf8.AppendRune, utf8.appendRuneNonASCII, uint32.
  rewrite Z.mod_small by lia.
  unfold utf8.rune1Max, utf8.rune2Max, utf8.rune3Max, utf8.MaxRune,
    utf8.surrogateMin, utf8.surrogateMax.
  destruct (r <=? 127) eqn:H1; bool_to_Z.
  { cbn [app]. change (len [byte_of r]) with 1.
    eapply ValidSeq_eq; [apply VS1|]; rewrite byteZ_byte_of; solve_divmod. }
  destruct (r <=? 2047) eqn:H2; bool_to_Z.
  { cbn [app]. change (len [_; _]) with 2.
    eapply ValidSeq_eq; [apply VS2|];
      rewrite ?byteZ_lead2, ?byteZ_cont by lia; solve_divmod. }
  replace ((1114111 <? r) || (55296 <=? r) && (r <=? 57343)) with false
    by (symmetry; apply orb_false_iff; split;
        [apply Z.ltb_ge; lia
        |apply andb_false_iff;
         destruct (Z.le_gt_cases 55296 r);
         [right; apply Z.leb_gt; lia|left; apply Z.leb_gt; lia]]).
  destruct (r <=? 65535) eqn:H3; bool_to_Z.
  { cbn [app]. change (len [_; _; _]) with 3.
    eapply ValidSeq_eq; [apply VS3|];
      rewrite ?byteZ_lead3, ?byteZ_cont, ?shiftr_6 by lia; solve_divmod. }
  cbn [app]. change (len [_; _; _; _]) with 4.
  eapply ValidSeq_eq; [apply VS4|];
    rewrite ?byteZ_lead4, ?byteZ_cont, ?shiftr_6, ?shiftr_12 by lia; solve_divmod.
Qed.

Lemma decode_AppendRune r t :
  validRune r ->
  utf8.DecodeRuneInString (utf8.AppendRune [] r ++ t) = (r, len (utf8.AppendRune [] r)).
Proof.
  intros Hr. apply ValidSeq_decode. now apply AppendRune_ValidSeq.
Qed.

Lemma AppendRune_ascii r : 0 <= r < 0x80 -> utf8.AppendRune [] r = [byte_of r].
Proof.
  intros Hr. unfold utf8.AppendRune, uint32, utf8.rune1Max.
  rewrite Z.mod_small by lia.
  destruct (r <=? 127) eqn:E; bool_to_Z; [reflexivity|lia].
Qed.

Lemma AppendRune_nonempty r : utf8.AppendRune [] r <> [].
Proof.
  unfold utf8.AppendRune, utf8.appendRuneNonASCII.
  repeat match goal with
         | |- context [if ?c then _ else _] => destruct c
         end; discriminate.
Qed.


(** * Facts about [range] loops over strings *)

Lemma sliceFrom_0 {A} (s : list A) : sliceFrom s 0 = s.
Proof. reflexivity. Qed.

Lemma sliceFrom_cons {A} (x : A) s i : 1 <= i -> sliceFrom (x :: s) i = sliceFrom s (i - 1).
Proof.
  intros Hi. unfold sliceFrom.
  replace (Z.to_nat i) with (S (Z.to_nat (i - 1))) by lia. reflexivity.
Qed.

Lemma sliceFrom_sliceFrom {A} (s : list A) i j :
  0 <= i -> 0 <= j -> sliceFrom (sliceFrom s i) j = sliceFrom s (i + j).
Proof.
  intros Hi Hj. unfold sliceFrom. rewrite skipn_skipn.
  f_equal. lia.
Qed.

Lemma sliceFrom_nil_iff {A} (s : list A) i : 0 <= i -> sliceFrom s i = [] <-> len s <= i.
Proof.
  intros Hi. unfold sliceFrom, len. split; intros H.
  - apply (f_equal (@List.length A)) in H. rewrite length_skipn in H. cbn in H. lia.
  - apply skipn_all2. lia.
Qed.

Lemma rangeFrom_skip s : forall i k,
  (k <= List.length s)%nat -> rangeFrom s i k = rangeFrom (skipn k s) (i + Z.of_nat k) 0.
Proof.
  induction s as [|b s IH]; intros i k Hk.
  - destruct k; [reflexivity|cbn in Hk; lia].
  - destruct k as [|k].
    + cbn [skipn]. now rewrite Z.add_0_r.
    + cbn [rangeFrom skipn]. rewrite IH by (cbn in Hk; lia). f_equal. lia.
Qed.

(** One round of a [range] loop: the rune at the head, then the loop over
    the rest of the string. *)
Lemma rangeFrom_step s i r w :
  s <> [] -> utf8.DecodeRuneInString s = (r, w) ->
  rangeFrom s i 0 = (i, r) :: rangeFrom (sliceFrom s w) (i + w) 0.
Proof.
  intros Hs E. pose proof (decode_width s r w Hs E) as Hw.
  destruct s as [|b s]; [contradiction|].
  cbn [rangeFrom]. rewrite E. f_equal.
  rewrite len_cons in Hw.
  rewrite rangeFrom_skip by (unfold len in Hw; lia).
  rewrite sliceFrom_cons by lia. unfold sliceFrom.
  replace (Z.to_nat (w - 1)) with (Z.to_nat w - 1)%nat by lia.
  f_equal. lia.
Qed.

Lemma rangeFrom_nil i k : rangeFrom [] i k = [].
Proof. reflexivity. Qed.

(** Induction over the rounds of a [range] loop. *)
Lemma range_ind (P : gostring -> Prop) :
  P [] ->
  (forall s r w, s <> [] -> utf8.DecodeRuneInString s = (r, w) ->
                 P (sliceFrom s w) -> P s) ->
  forall s, P s.
Proof.
  intros Hnil Hstep s.
  remember (List.length s) as n eqn:Hn.
  revert s Hn. induction n as [n IH] using lt_wf_ind. intros s Hn.
  destruct s as [|b s']; [exact Hnil|].
  destruct (utf8.DecodeRuneInString (b :: s')) as [r w] eqn:E.
  assert (Hs : b :: s' <> []) by discriminate.
  pose proof (decode_width _ _ _ Hs E) as Hw.
  apply (Hstep _ r w Hs E).
  apply (IH (List.length (sliceFrom (b :: s') w))); [|reflexivity].
  subst n. unfold sliceFrom. rewrite length_skipn. cbn [List.length]. lia.
Qed.

Lemma rangeFrom_shift s : forall i j,
  rangeFrom s j 0 = map (fun p => (fst p + (j - i), snd p)) (rangeFrom s i 0).
Proof.
  induction s as [|s r w Hs E IH] using range_ind; intros i j; [reflexivity|].
  rewrite (rangeFrom_step s j r w Hs E), (rangeFrom_step s i r w Hs E).
  cbn [map fst snd]. f_equal; [f_equal; lia|].
  rewrite (IH (i + w) (j + w)). apply map_ext. intros [a c]. cbn. f_equal. lia.
Qed.

Lemma runes_rangeFrom s i : map snd (rangeFrom s i 0) = runesOf s.
Proof.
  unfold runesOf, rangeString. rewrite (rangeFrom_shift s 0 i), map_map.
  reflexivity.
Qed.

Lemma runesOf_nil : runesOf [] = [].
Proof. reflexivity. Qed.

Lemma runesOf_step s r w :
  s <> [] -> utf8.DecodeRuneInString s = (r, w) ->
  runesOf s = r :: runesOf (sliceFrom s w).
Proof.
  intros Hs E. unfold runesOf at 1, rangeString.
  rewrite (rangeFrom_step s 0 r w Hs E). cbn [map snd]. f_equal.
  apply runes_rangeFrom.
Qed.

Lemma runesOf_cons_ascii b s : byteZ b < 0x80 -> runesOf (b :: s) = byteZ b :: runesOf s.
Proof.
  intros Hb. rewrite (runesOf_step (b :: s) (byteZ b) 1); [reflexivity|discriminate|].
  now apply decode_ascii.
Qed.

Lemma runesOf_valid s : Forall validRune (runesOf s).
Proof.
  induction s as [|s r w Hs E IH] using range_ind; [constructor|].
  rewrite (runesOf_step s r w Hs E). constructor; [|exact IH].
  eapply decode_valid; eauto.
Qed.

(** The indices a [range] loop visits lie within the string. *)
Lemma rangeFrom_index s : forall i j r,
  In (j, r) (rangeFrom s i 0) -> i <= j < i + len s.
Proof.
  induction s as [|s r w Hs E IH] using range_ind; intros i j c Hin; [destruct Hin|].
  pose proof (decode_width s r w Hs E) as Hw.
  rewrite (rangeFrom_step s i r w Hs E) in Hin. destruct Hin as [Heq|Hin].
  - inversion Heq; subst. lia.
  - apply IH in Hin. unfold sliceFrom, len in *. rewrite length_skipn in Hin. lia.
Qed.

(** The loop over the string cut at an index the loop visits is the rest of
    the loop from there. *)
Lemma rangeFrom_suffix l1 : forall s i j r l2,
  rangeFrom s i 0 = l1 ++ (j, r) :: l2 ->
  rangeFrom (sliceFrom s (j - i)) j 0 = (j, r) :: l2.
Proof.
  induction l1 as [|[i0 r0] l1 IH]; intros s i j r l2 Hsplit.
  - cbn [app] in Hsplit.
    destruct s as [|b s]; [discriminate|].
    destruct (utf8.DecodeRuneInString (b :: s)) as [c w] eqn:E.
    rewrite (rangeFrom_step (b :: s) i c w ltac:(discriminate) E) in Hsplit.
    inversion Hsplit; subst. rewrite Z.sub_diag, sliceFrom_0. now apply rangeFrom_step.
  - destruct s as [|b s]; [discriminate|].
    destruct (utf8.DecodeRuneInString (b :: s)) as [c w] eqn:E.
    pose proof (decode_width (b :: s) _ _ ltac:(discriminate) E) as Hw.
    rewrite (rangeFrom_step (b :: s) i c w ltac:(discriminate) E) in Hsplit.
    cbn [app] in Hsplit. inversion Hsplit; subst.
    pose proof (rangeFrom_index (sliceFrom (b :: s) w) (i0 + w) j r) as Hj.
    rewrite H2 in Hj. specialize (Hj ltac:(apply in_elt)).
    apply IH in H2. rewrite sliceFrom_sliceFrom in H2 by lia.
    now replace (w + (j - (i0 + w))) with (j - i0) in H2 by lia.
Qed.


(** * Facts about [strings.TrimSpace] *)

Lemma IsSpace_RuneError : unicode.IsSpace utf8.RuneError = false.
Proof. reflexivity. Qed.

Lemma IsSpace_range r : unicode.IsSpace r = true -> 9 <= r <= 0x3000.
Proof.
  unfold unicode.IsSpace.
  destruct (uint32 r <=? unicode.MaxLatin1); intros H;
    repeat (apply orb_true_iff in H; destruct H as [H|H]); bool_to_Z; lia.
Qed.

Lemma IsSpace_not_letter r : unicode.IsSpace r = true -> isEnglishLetter r = false.
Proof.
  unfold unicode.IsSpace, isEnglishLetter.
  destruct (uint32 r <=? unicode.MaxLatin1); intros H;
    repeat (apply orb_true_iff in H; destruct H as [H|H]); bool_to_Z; lia.
Qed.

Lemma IsSpace_not_CJK r : unicode.IsSpace r = true -> isCJK r = false.
Proof.
  unfold unicode.IsSpace, isCJK.
  destruct (uint32 r <=? unicode.MaxLatin1) eqn:E; intros H.
  - unfold uint32, unicode.MaxLatin1 in E.
    repeat (apply orb_true_iff in H; destruct H as [H|H]); bool_to_Z; lia.
  - repeat (apply orb_true_iff in H; destruct H as [H|H]); bool_to_Z; lia.
Qed.

Lemma asciiSpace_IsSpace c : strings.asciiSpace c = true -> unicode.IsSpace c = true.
Proof.
  unfold strings.asciiSpace, unicode.IsSpace. intros H.
  assert (Hc : 9 <= c <= 32) by lia.
  replace (uint32 c <=? unicode.MaxLatin1) with true; [lia|].
  symmetry. unfold uint32, unicode.MaxLatin1. rewrite Z.mod_small by lia. lia.
Qed.

Lemma IsSpace_ascii c : 0 <= c < 0x80 -> unicode.IsSpace c = strings.asciiSpace c.
Proof.
  intros Hc. unfold strings.asciiSpace, unicode.IsSpace.
  replace (uint32 c <=? unicode.MaxLatin1) with true; [lia|].
  symmetry. unfold uint32, unicode.MaxLatin1. rewrite Z.mod_small by lia. lia.
Qed.

Lemma backToRuneStart_le fuel s : forall start lim,
  strings.backToRuneStart fuel s start lim <= start.
Proof.
  induction fuel as [|fuel IH]; intros start lim; cbn [strings.backToRuneStart]; [lia|].
  destruct (start >=? lim); [|lia].
  destruct (strings.RuneStart (byteAt s start)); [lia|].
  specialize (IH (start - 1) lim). lia.
Qed.

Lemma len_firstn {A} (s : list A) i : 0 <= i <= len s -> len (firstn (Z.to_nat i) s) = i.
Proof. intros Hi. unfold len in *. rewrite length_firstn. lia. Qed.

Lemma byteAt_last_single (w : gostring) :
  len w = 1 -> exists b, w = [b] /\ byteAt w (len w - 1) = byteZ b.
Proof.
  intros H. destruct w as [|b [|c w]]; try (cbn in H; lia).
  exists b. split; reflexivity.
Qed.

(** The last rune of a string that is not empty: its width lies within the
    string, and a white-space rune spanning the whole string is also the
    first rune of every string that starts with it. *)
Lemma DecodeLast_spec w r size :
  w <> [] -> strings.DecodeLastRuneInString w = (r, size) ->
  1 <= size <= len w /\
  (unicode.IsSpace r = true -> size = len w ->
   forall rest, utf8.DecodeRuneInString (w ++ rest) = (r, size)).
Proof.
  intros Hw. unfold strings.DecodeLastRuneInString. cbv zeta.
  assert (Hlen : 1 <= len w).
  { destruct w; [contradiction|]. rewrite len_cons. pose proof (len_nonneg w). lia. }
  replace (len w =? 0) with false by lia.
  destruct (byteAt w (len w - 1) <? utf8.RuneSelf) eqn:Hascii.
  - intros E. inversion E; subst. split; [lia|].
    intros _ H1 rest. symmetry in H1.
    destruct (byteAt_last_single w H1) as (b & -> & Hb). rewrite Hb in *.
    cbn [app]. apply decode_ascii. unfold utf8.RuneSelf in Hascii. lia.
  - set (start := Z.max (strings.backToRuneStart 4 w (len w - 1 - 1)
                                                  (Z.max (len w - utf8.UTFMax) 0)) 0).
    assert (Hstart : 0 <= start < len w).
    { subst start.
      pose proof (backToRuneStart_le 4 w (len w - 1 - 1) (Z.max (len w - utf8.UTFMax) 0)).
      lia. }
    destruct (utf8.DecodeRuneInString (sliceFrom w start)) as [r' size'] eqn:E'.
    assert (Hne : sliceFrom w start <> []).
    { intros Hnil. apply sliceFrom_nil_iff in Hnil; lia. }
    pose proof (decode_width _ _ _ Hne E') as Hsz.
    destruct (negb (start + size' =? len w)) eqn:Hend; intros E; inversion E; subst.
    + split; [lia|]. rewrite IsSpace_RuneError. discriminate.
    + bool_to_Z. split; [lia|]. intros Hsp Hfull rest.
      assert (start = 0) by lia.
      replace (sliceFrom w start) with w in E' by (now rewrite H, sliceFrom_0).
      apply decode_app; [exact E'|].
      intros ->. rewrite IsSpace_RuneError in Hsp. discriminate.
Qed.

Lemma lastIndexFunc_loop_found v : forall fuel i,
  v <> [] ->
  (forall r w, utf8.DecodeRuneInString v = (r, w) -> unicode.IsSpace r = false) ->
  0 < i <= len v -> (Z.to_nat i <= fuel)%nat ->
  0 <= strings.lastIndexFunc_loop fuel v i unicode.IsSpace false.
Proof.
  intros fuel. induction fuel as [|fuel IH]; intros i Hv Hfirst Hi Hfuel; [lia|].
  cbn [strings.lastIndexFunc_loop].
  replace (i >? 0) with true by lia.
  destruct (strings.DecodeLastRuneInString (firstn (Z.to_nat i) v)) as [r size] eqn:E.
  assert (Hne : firstn (Z.to_nat i) v <> []).
  { intros Hnil. apply (f_equal len) in Hnil. rewrite len_firstn in Hnil by lia.
    rewrite len_nil in Hnil. lia. }
  destruct (DecodeLast_spec _ _ _ Hne E) as [Hsz Hsp].
  rewrite len_firstn in Hsz, Hsp by lia.
  destruct (unicode.IsSpace r) eqn:Hr; cbn [Bool.eqb]; [|lia].
  destruct (Z.eq_dec size i) as [Hfull|Hpart].
  - specialize (Hsp eq_refl Hfull (skipn (Z.to_nat i) v)).
    rewrite firstn_skipn in Hsp. apply Hfirst in Hsp. congruence.
  - apply IH; try assumption; lia.
Qed.

Lemma TrimRightFunc_nonempty v :
  v <> [] ->
  (forall r w, utf8.DecodeRuneInString v = (r, w) -> unicode.IsSpace r = false) ->
  strings.TrimRightFunc v unicode.IsSpace <> [].
Proof.
  intros Hv Hfirst. unfold strings.TrimRightFunc. cbv zeta.
  assert (Hlen : 1 <= len v).
  { destruct v; [contradiction|]. rewrite len_cons. pose proof (len_nonneg v). lia. }
  pose proof (lastIndexFunc_loop_found v (List.length v) (len v) Hv Hfirst
                ltac:(lia) ltac:(unfold len; lia)) as Hi.
  fold (strings.lastIndexFunc v unicode.IsSpace false) in Hi.
  set (i := strings.lastIndexFunc v unicode.IsSpace false) in *.
  assert (Hcut : forall k, 1 <= k -> firstn (Z.to_nat k) v <> []).
  { intros k Hk Hnil. destruct v; [contradiction|].
    replace (Z.to_nat k) with (S (Z.to_nat (k - 1))) in Hnil by lia. discriminate. }
  destruct ((i >=? 0) && (byteAt v i >=? utf8.RuneSelf)) eqn:Hc.
  - destruct (utf8.DecodeRuneInString (sliceFrom v i)) as [c wid] eqn:E.
    apply Hcut.
    assert (Hne : sliceFrom v i <> []).
    { intros Hnil. apply sliceFrom_nil_iff in Hnil; [|lia].
      unfold byteAt in Hc. rewrite nth_overflow in Hc by (unfold len in Hnil; lia).
      unfold utf8.RuneSelf in Hc. cbn in Hc. lia. }
    pose proof (decode_width _ _ _ Hne E). lia.
  - apply Hcut. lia.
Qed.

Lemma indexFunc_loop_none (f : rune -> bool) rs :
  (forall p, In p rs -> 0 <= fst p) ->
  strings.indexFunc_loop rs f false = -1 ->
  Forall (fun p => f (snd p) = true) rs.
Proof.
  induction rs as [|[i r] rs IH]; intros Hidx H; [constructor|].
  cbn [strings.indexFunc_loop] in H.
  destruct (f r) eqn:Hf; cbn [Bool.eqb] in H.
  - constructor; [exact Hf|]. apply IH; [|exact H].
    intros p Hp. apply Hidx. now right.
  - specialize (Hidx (i, r) (or_introl eq_refl)). cbn in Hidx. lia.
Qed.

Lemma indexFunc_loop_some (f : rune -> bool) rs j :
  strings.indexFunc_loop rs f false = j -> j <> -1 ->
  exists l1 r l2, rs = l1 ++ (j, r) :: l2 /\ f r = false.
Proof.
  induction rs as [|[i r] rs IH]; intros H Hj; [cbn in H; congruence|].
  cbn [strings.indexFunc_loop] in H.
  destruct (f r) eqn:Hf; cbn [Bool.eqb] in H.
  - destruct (IH H Hj) as (l1 & c & l2 & -> & Hc).
    now exists ((i, r) :: l1), c, l2.
  - subst. now exists [], r, rs.
Qed.

Lemma rangeString_index s p : In p (rangeString s) -> 0 <= fst p.
Proof.
  destruct p as [j r]. intros H. apply rangeFrom_index in H. cbn. lia.
Qed.

Lemma rangeFrom_head s i j r l :
  rangeFrom s i 0 = (j, r) :: l ->
  s <> [] /\ exists w, utf8.DecodeRuneInString s = (r, w).
Proof.
  intros H. destruct s as [|b s]; [discriminate|]. split; [discriminate|].
  destruct (utf8.DecodeRuneInString (b :: s)) as [c w] eqn:E.
  rewrite (rangeFrom_step (b :: s) i c w ltac:(discriminate) E) in H.
  inversion H; subst. now exists w.
Qed.

Lemma TrimFunc_nil s :
  strings.TrimFunc s unicode.IsSpace = [] ->
  Forall (fun r => unicode.IsSpace r = true) (runesOf s).
Proof.
  unfold strings.TrimFunc, strings.TrimLeftFunc, strings.indexFunc. cbv zeta.
  destruct (strings.indexFunc_loop (rangeString s) unicode.IsSpace false =? -1) eqn:Hi;
    bool_to_Z; intros H.
  - apply indexFunc_loop_none in Hi; [|apply rangeString_index].
    unfold runesOf. now apply Forall_map.
  - exfalso. destruct (indexFunc_loop_some _ _ _ eq_refl Hi) as (l1 & r & l2 & Hsplit & Hr).
    apply rangeFrom_suffix in Hsplit. rewrite Z.sub_0_r in Hsplit.
    destruct (rangeFrom_head _ _ _ _ _ Hsplit) as (Hne & w & E).
    revert H. apply TrimRightFunc_nonempty; [exact Hne|].
    intros r' w' E'. congruence.
Qed.

Lemma runesOf_ascii_app sp rest :
  Forall (fun c => byteZ c < 0x80) sp ->
  runesOf (sp ++ rest) = map byteZ sp ++ runesOf rest.
Proof.
  induction 1 as [|c sp Hc _ IH]; [reflexivity|].
  cbn [app map]. rewrite runesOf_cons_ascii by exact Hc. now rewrite IH.
Qed.

Lemma trimStart_spec rest : forall start,
  exists sp rest2,
    rest = sp ++ rest2 /\ Forall isAsciiSpaceByte sp /\
    match strings.trimStart rest start with
    | inl k =>
        k = start + len sp /\
        (rest2 = [] \/
         exists c t, rest2 = c :: t /\ byteZ c < 0x80 /\ strings.asciiSpace (byteZ c) = false)
    | inr res => res = strings.TrimFunc rest2 unicode.IsSpace
    end.
Proof.
  induction rest as [|c rest IH]; intros start.
  - exists [], []. cbn. repeat split; [constructor|lia|now left].
  - cbn [strings.trimStart]. unfold utf8.RuneSelf.
    destruct (byteZ c >=? 128) eqn:Hc.
    + exists [], (c :: rest). repeat split. constructor.
    + destruct (strings.asciiSpace (byteZ c)) eqn:Hsp; cbn [negb].
      * destruct (IH (start + 1)) as (sp & rest2 & -> & Hall & Hres).
        exists (c :: sp), rest2. split; [reflexivity|]. split.
        { constructor; [split; [lia|exact Hsp]|exact Hall]. }
        destruct (strings.trimStart (sp ++ rest2) (start + 1)); [|exact Hres].
        rewrite len_cons. destruct Hres as [-> Hr]. split; [lia|exact Hr].
      * exists [], (c :: rest). repeat split; [constructor|cbn; lia|].
        right. exists c, rest. repeat split; [lia|exact Hsp].
Qed.

Lemma trimStop_nonempty c : forall rl t,
  byteZ c < 0x80 -> strings.asciiSpace (byteZ c) = false ->
  rev rl = c :: t -> strings.trimStop rl <> [].
Proof.
  intros rl. induction rl as [|x rl IH]; intros t Hc Hsp Hrev; [discriminate|].
  cbn [strings.trimStop]. unfold utf8.RuneSelf.
  destruct (byteZ x >=? 128) eqn:Hx.
  - rewrite Hrev. apply TrimRightFunc_nonempty; [discriminate|].
    intros r w E. rewrite decode_ascii in E by exact Hc. inversion E; subst.
    pose proof (byteZ_range c). rewrite IsSpace_ascii by lia. exact Hsp.
  - destruct (strings.asciiSpace (byteZ x)) eqn:Hxs; cbn [negb].
    + cbn [rev] in Hrev. destruct (rev rl) as [|c' t'] eqn:Hrl.
      * cbn in Hrev. inversion Hrev; subst. congruence.
      * cbn in Hrev. inversion Hrev; subst. eapply IH; eauto.
    + rewrite Hrev. discriminate.
Qed.

(** A text that [strings.TrimSpace] trims to the empty string consists of
    white space only. *)
Lemma TrimSpace_nil s :
  strings.TrimSpace s = [] ->
  Forall (fun r => unicode.IsSpace r = true) (runesOf s).
Proof.
  unfold strings.TrimSpace.
  destruct (trimStart_spec s 0) as (sp & rest2 & -> & Hall & Hres).
  assert (Hascii : Forall (fun c => byteZ c < 0x80) sp).
  { eapply Forall_impl; [|exact Hall]. now intros c [Hc _]. }
  assert (Hsp : Forall (fun r => unicode.IsSpace r = true) (map byteZ sp)).
  { apply Forall_map. eapply Forall_impl; [|exact Hall].
    intros c [_ Hc]. now apply asciiSpace_IsSpace. }
  rewrite runesOf_ascii_app by exact Hascii.
  destruct (strings.trimStart (sp ++ rest2) 0) as [k|res].
  - destruct Hres as [-> Hr]. cbn [Z.add].
    replace (sliceFrom (sp ++ rest2) (len sp)) with rest2
      by (unfold sliceFrom, len; rewrite Nat2Z.id, skipn_app, skipn_all,
          Nat.sub_diag; reflexivity).
    destruct Hr as [->|(c & t & -> & Hc & Hcs)].
    + intros _. rewrite runesOf_nil, app_nil_r. exact Hsp.
    + intros H. exfalso. revert H.
      apply (trimStop_nonempty c _ t Hc Hcs). apply rev_involutive.
  - subst res. intros H. apply Forall_app. split; [exact Hsp|].
    now apply TrimFunc_nil.
Qed.


(** * The matcher over the characters of a text *)

Lemma gostring_eqb_eq a b : gostring_eqb a b = true <-> a = b.
Proof.
  unfold gostring_eqb. destruct (list_eq_dec Byte.byte_eq_dec a b); split; congruence.
Qed.

Lemma gostring_eqb_refl a : gostring_eqb a a = true.
Proof. now apply gostring_eqb_eq. Qed.

Lemma gostring_eqb_neq a b : gostring_eqb a b = false <-> a <> b.
Proof.
  unfold gostring_eqb. destruct (list_eq_dec Byte.byte_eq_dec a b); split; congruence.
Qed.

Lemma encodeRunes_cons r rs : encodeRunes (r :: rs) = utf8.AppendRune [] r ++ encodeRunes rs.
Proof. reflexivity. Qed.

Lemma encodeRunes_app a b : encodeRunes (a ++ b) = encodeRunes a ++ encodeRunes b.
Proof. unfold encodeRunes. apply flat_map_app. Qed.

Lemma sliceFrom_app_len {A} (a b : list A) : sliceFrom (a ++ b) (len a) = b.
Proof.
  unfold sliceFrom, len. rewrite Nat2Z.id, skipn_app, skipn_all, Nat.sub_diag.
  reflexivity.
Qed.

(** Decoding what was encoded gives the runes back. *)
Lemma runesOf_encodeRunes rs : Forall validRune rs -> runesOf (encodeRunes rs) = rs.
Proof.
  induction 1 as [|r rs Hr _ IH]; [reflexivity|].
  rewrite encodeRunes_cons.
  rewrite (runesOf_step _ r (len (utf8.AppendRune [] r))).
  - now rewrite sliceFrom_app_len, IH.
  - intros Hnil. apply app_eq_nil in Hnil. destruct Hnil as [Hnil _].
    now apply AppendRune_nonempty in Hnil.
  - now apply decode_AppendRune.
Qed.

Lemma containsChinese_loop_runes rs :
  containsChinese_loop rs = existsb isCJK (map snd rs).
Proof.
  induction rs as [|[i r] rs IH]; [reflexivity|].
  cbn [containsChinese_loop map snd existsb]. rewrite IH. now destruct (isCJK r).
Qed.

Lemma containsChinese_runes text : containsChinese text = existsb isCJK (runesOf text).
Proof. apply containsChinese_loop_runes. Qed.

Lemma removeWhitespace_loop_runes rs : forall result,
  removeWhitespace_loop rs result
  = result ++ encodeRunes (List.filter notBlank (map snd rs)).
Proof.
  induction rs as [|[i r] rs IH]; intros result; cbn [removeWhitespace_loop map snd List.filter].
  - now rewrite app_nil_r.
  - destruct (notBlank r).
    + rewrite IH. unfold strings.WriteRune. rewrite AppendRune_app, encodeRunes_cons.
      now rewrite <- app_assoc.
    + apply IH.
Qed.

Lemma firstEnglishIndex_loop_spec rs :
  (forall p, In p rs -> 0 <= fst p) ->
  (firstEnglishIndex_loop rs = -1 /\ fromFirstLetter (map snd rs) = []) \/
  (exists l1 j r l2,
      firstEnglishIndex_loop rs = j /\ 0 <= j /\ rs = l1 ++ (j, r) :: l2 /\
      isEnglishLetter r = true /\ fromFirstLetter (map snd rs) = r :: map snd l2).
Proof.
  induction rs as [|[i r] rs IH]; intros Hidx; [now left|].
  cbn [firstEnglishIndex_loop map snd fromFirstLetter].
  destruct (isEnglishLetter r) eqn:Hr.
  - right. exists [], i, r, rs. repeat split; try reflexivity; try assumption.
    apply (Hidx (i, r)). now left.
  - destruct IH as [[E1 E2]|(l1 & j & c & l2 & E1 & Hj & -> & Hc & E2)].
    + intros p Hp. apply Hidx. now right.
    + now left.
    + right. exists ((i, r) :: l1), j, c, l2. repeat split; assumption.
Qed.

Lemma Forall_filter {A} (P : A -> Prop) f (l : list A) :
  Forall P l -> Forall P (List.filter f l).
Proof.
  induction 1 as [|x l Hx _ IH]; cbn; [constructor|].
  destruct (f x); [constructor|]; assumption.
Qed.

Lemma fromFirstLetter_valid (P : rune -> Prop) rs :
  Forall P rs -> Forall P (fromFirstLetter rs).
Proof.
  induction 1 as [|r rs Hr Hrs IH]; cbn; [constructor|].
  destruct (isEnglishLetter r); [constructor|]; assumption.
Qed.

Lemma fromFirstLetter_head rs :
  fromFirstLetter rs = [] \/
  exists c rest, fromFirstLetter rs = c :: rest /\ isEnglishLetter c = true.
Proof.
  induction rs as [|r rs IH]; [now left|]. cbn.
  destruct (isEnglishLetter r) eqn:Hr; [right; now exists r, rs|exact IH].
Qed.

Section MatcherFacts.
Context {tables : unicode.CaseTables}.

Lemma ToLower_int32 r :
  - 2147483648 <= r < 2147483648 -> - 2147483648 <= unicode.ToLower r < 2147483648.
Proof.
  intros Hr32. unfold unicode.ToLower, unicode.MaxASCII, int32.
  destruct (r <=? 127) eqn:Hr; [|solve_divmod].
  destruct ((65 <=? r) && (r <=? 90)) eqn:Hu; lia.
Qed.

Lemma ToLower_ascii r :
  0 <= r < 0x80 -> unicode.ToLower r = foldCase r /\ 0 <= foldCase r < 0x80.
Proof.
  intros Hr. unfold unicode.ToLower, unicode.MaxASCII, foldCase.
  replace (r <=? 127) with true by lia.
  destruct ((65 <=? r) && (r <=? 90)) eqn:Hu; lia.
Qed.

Lemma Map_loop_runes (f : rune -> rune) rs : forall b,
  strings.Map_loop f rs b
  = b ++ encodeRunes (flat_map (fun c => if f c >=? 0 then [f c] else []) (map snd rs)).
Proof.
  induction rs as [|[i c] rs IH]; intros b; cbn [strings.Map_loop map snd flat_map].
  - now rewrite app_nil_r.
  - destruct (f c >=? 0).
    + rewrite IH. unfold strings.WriteRune. rewrite AppendRune_app.
      cbn [app]. rewrite encodeRunes_cons. now rewrite <- app_assoc.
    + apply IH.
Qed.

Lemma Map_ToLower_runes s :
  strings.Map unicode.ToLower s = encodeRunes (lowerRunes (runesOf s)).
Proof.
  unfold strings.Map, strings.String. now rewrite Map_loop_runes.
Qed.

Lemma lowerByte_spec c :
  byteZ c < 0x80 -> utf8.AppendRune [] (unicode.ToLower (byteZ c)) = [strings.lowerByte c]
                    /\ (unicode.ToLower (byteZ c) >=? 0) = true.
Proof.
  intros Hc. pose proof (byteZ_range c) as Hb.
  destruct (ToLower_ascii (byteZ c) ltac:(lia)) as [-> Hf].
  rewrite AppendRune_ascii by lia. split; [|lia].
  unfold foldCase, strings.lowerByte in *.
  destruct ((65 <=? byteZ c) && (byteZ c <=? 90)); [reflexivity|].
  now rewrite byte_of_byteZ.
Qed.

Lemma lowerRunes_ascii_bytes s :
  strings.isASCII s = true -> encodeRunes (lowerRunes (runesOf s)) = map strings.lowerByte s.
Proof.
  unfold strings.isASCII, utf8.RuneSelf.
  induction s as [|c s IH]; intros Hs; [reflexivity|].
  cbn [forallb] in Hs. apply andb_true_iff in Hs. destruct Hs as [Hc Hs].
  rewrite runesOf_cons_ascii by lia.
  destruct (lowerByte_spec c ltac:(lia)) as [E1 E2].
  unfold lowerRunes in *. cbn [flat_map map]. cbv zeta. rewrite E2.
  cbn [app]. rewrite encodeRunes_cons, E1. cbn [app]. now rewrite IH.
Qed.

Lemma lowerByte_noUpper s : strings.hasUpper s = false -> map strings.lowerByte s = s.
Proof.
  unfold strings.hasUpper.
  induction s as [|c s IH]; intros Hs; [reflexivity|].
  cbn [existsb] in Hs. apply orb_false_iff in Hs. destruct Hs as [Hc Hs].
  cbn [map]. rewrite IH by exact Hs. unfold strings.lowerByte. now rewrite Hc.
Qed.

(** [strings.ToLower] lower-cases the string character by character, on
    its fast path as on the general one. *)
Lemma ToLower_runes s : strings.ToLower s = encodeRunes (lowerRunes (runesOf s)).
Proof.
  unfold strings.ToLower.
  destruct (strings.isASCII s) eqn:Ha; [|apply Map_ToLower_runes].
  rewrite lowerRunes_ascii_bytes by exact Ha.
  destruct (strings.hasUpper s) eqn:Hu; cbn [negb]; [reflexivity|].
  symmetry. now apply lowerByte_noUpper.
Qed.


Lemma AppendRune_head r :
  0 <= r < 2147483648 ->
  exists b bs, utf8.AppendRune [] r = b :: bs /\
               (byteZ b = 46 <-> r = 46) /\ (r = 46 -> bs = []).
Proof.
  intros Hr.
  destruct (Z.lt_ge_cases r 0x80) as [Ha|Ha].
  { rewrite AppendRune_ascii by lia. exists (byte_of r), [].
    rewrite byteZ_byte_of, Z.mod_small by lia. repeat split; auto. }
  unfold utf8.AppendRune, utf8.appendRuneNonASCII, uint32.
  rewrite Z.mod_small by lia.
  unfold utf8.rune1Max, utf8.rune2Max, utf8.rune3Max, utf8.MaxRune,
    utf8.surrogateMin, utf8.surrogateMax.
  replace (r <=? 127) with false by lia.
  destruct (r <=? 2047) eqn:H2; bool_to_Z.
  { cbn [app]. eexists _, _. split; [reflexivity|].
    rewrite byteZ_lead2 by lia. split; [|lia]. split; intros; solve_divmod. }
  destruct ((1114111 <? r) || (55296 <=? r) && (r <=? 57343)) eqn:Hbad.
  { cbn [app]. eexists _, _. split; [reflexivity|].
    split; [|lia]. split; [vm_compute; discriminate|lia]. }
  destruct (r <=? 65535) eqn:H3; bool_to_Z.
  { cbn [app]. eexists _, _. split; [reflexivity|].
    rewrite byteZ_lead3 by lia. split; [|lia]. split; intros; solve_divmod. }
  cbn [app]. eexists _, _. split; [reflexivity|].
  rewrite byteZ_lead4 by lia. split; [|lia]. split; intros; solve_divmod.
Qed.

Lemma dropEnumerationPrefix_bytes lc L' :
  0 <= lc < 0x80 -> Forall (fun r => 0 <= r < 2147483648) L' ->
  (let key := encodeRunes (lc :: L') in
   if (len key >=? 2) && (byteAt key 1 =? 46) then sliceFrom key 2 else key)
  = encodeRunes (dropEnumerationPrefix (lc :: L')).
Proof.
  intros Hlc HL. cbv zeta. rewrite encodeRunes_cons, AppendRune_ascii by exact Hlc.
  destruct L' as [|r2 L''].
  - cbn [dropEnumerationPrefix].
    rewrite encodeRunes_cons, AppendRune_ascii by exact Hlc. reflexivity.
  - inversion HL as [|? ? Hr2 HL'']; subst.
    destruct (AppendRune_head r2 Hr2) as (b & bs & E & Hdot & Hsingle).
    cbn [dropEnumerationPrefix]. rewrite encodeRunes_cons, E. cbn [app].
    rewrite byteAt_1.
    replace (len (byte_of lc :: b :: bs ++ encodeRunes L'') >=? 2) with true
      by (repeat rewrite len_cons;
          pose proof (len_nonneg (bs ++ encodeRunes L'')); lia).
    cbn [andb].
    destruct (r2 =? 46) eqn:E46; bool_to_Z.
    + rewrite (Hsingle E46). replace (byteZ b =? 46) with true by (symmetry; lia).
      reflexivity.
    + replace (byteZ b =? 46) with false by (symmetry; lia).
      rewrite encodeRunes_cons, AppendRune_ascii by exact Hlc.
      rewrite encodeRunes_cons, E. reflexivity.
Qed.

Lemma lowerRunes_bounds rs :
  Forall validRune rs -> Forall (fun r => 0 <= r < 2147483648) (lowerRunes rs).
Proof.
  induction 1 as [|r rs Hr _ IH]; [constructor|].
  unfold lowerRunes in *. cbn [flat_map]. cbv zeta.
  destruct (unicode.ToLower r >=? 0) eqn:E; [|exact IH].
  cbn [app]. constructor; [|exact IH].
  destruct Hr as [Hr _]. pose proof (ToLower_int32 r ltac:(lia)). lia.
Qed.

Lemma lowerRunes_letter c rest :
  isEnglishLetter c = true ->
  lowerRunes (c :: rest) = foldCase c :: lowerRunes rest /\ 0 <= foldCase c < 0x80.
Proof.
  intros Hc. unfold isEnglishLetter in Hc.
  destruct (ToLower_ascii c ltac:(lia)) as [E Hf].
  unfold lowerRunes. cbn [flat_map]. cbv zeta. rewrite E.
  replace (foldCase c >=? 0) with true by lia. now split.
Qed.

Lemma letter_notBlank c : isEnglishLetter c = true -> notBlank c = true.
Proof. unfold isEnglishLetter, notBlank. lia. Qed.

(** The key of a text is the specification's key of its characters. *)
Lemma generateLineKey_runes text :
  generateLineKey text = encodeRunes (normalize_spec (runesOf text)).
Proof.
  unfold generateLineKey, normalize_spec. cbv zeta.
  destruct (firstEnglishIndex_loop_spec (rangeString text) (rangeString_index text))
    as [[E1 E2]|(l1 & j & r & l2 & E1 & Hj & Hsplit & Hr & E2)].
  - rewrite E1. fold (runesOf text) in E2. now rewrite E2.
  - rewrite E1. replace (j =? -1) with false by lia.
    fold (runesOf text) in E2. rewrite E2.
    rewrite removeWhitespace_loop_runes. cbn [app].
    fold (runesOf (sliceFrom text j)).
    apply rangeFrom_suffix in Hsplit. rewrite Z.sub_0_r in Hsplit.
    rewrite <- (runes_rangeFrom (sliceFrom text j) j), Hsplit. cbn [map snd].
    assert (Hvalid : Forall validRune (r :: map snd l2)).
    { rewrite <- E2. apply fromFirstLetter_valid, runesOf_valid. }
    unfold strings.String. rewrite ToLower_runes.
    rewrite runesOf_encodeRunes by (now apply Forall_filter).
    cbn [List.filter]. rewrite (letter_notBlank r Hr).
    destruct (lowerRunes_letter r (List.filter notBlank (map snd l2)) Hr) as [-> Hf].
    apply dropEnumerationPrefix_bytes; [exact Hf|].
    apply lowerRunes_bounds, Forall_filter. now inversion Hvalid.
Qed.

End MatcherFacts.


(** * The claims about the matcher *)

Lemma fromFirstLetter_none rs :
  (forall r, In r rs -> isEnglishLetter r = false) -> fromFirstLetter rs = [].
Proof.
  induction rs as [|r rs IH]; intros Hno; [reflexivity|].
  cbn. rewrite (Hno r (or_introl eq_refl)). apply IH.
  intros c Hc. apply Hno. now right.
Qed.

Lemma fromFirstLetter_In rs r : In r (fromFirstLetter rs) -> In r rs.
Proof.
  induction rs as [|c rs IH]; [auto|]. cbn.
  destruct (isEnglishLetter c); [auto|]. intros Hin. right. now apply IH.
Qed.

Lemma existsb_isCJK_false rs :
  (forall r, In r rs -> isCJK r = false) -> existsb isCJK rs = false.
Proof.
  intros Hno. destruct (existsb isCJK rs) eqn:E; [|reflexivity].
  apply existsb_exists in E. destruct E as (r & Hin & Hr).
  rewrite (Hno r Hin) in Hr. discriminate.
Qed.

Lemma len_eqb_0 {A} (s : list A) : (len s =? 0) = true <-> s = [].
Proof.
  destruct s; [split; reflexivity|]. rewrite len_cons. pose proof (len_nonneg s).
  split; [lia|discriminate].
Qed.

Lemma LineType_eqb_eq a b : LineType_eqb a b = true <-> a = b.
Proof. destruct a, b; cbn; split; congruence. Qed.

Lemma isChineseOrMixed_iff t :
  isChineseOrMixed t = true <-> t = LineTypeChinese \/ t = LineTypeMixed.
Proof.
  destruct t; cbn; split; intros H; try discriminate; auto;
    destruct H; discriminate.
Qed.

Section MatcherClaims.
Context {tables : unicode.CaseTables}.

(** A text without ASCII letter has the empty key. *)
Lemma generateLineKey_no_letter text :
  (forall r, In r (runesOf text) -> isEnglishLetter r = false) ->
  generateLineKey text = [].
Proof.
  intros Hno. rewrite generateLineKey_runes. unfold normalize_spec.
  now rewrite fromFirstLetter_none.
Qed.

(** A text with a key that is not empty has an ASCII letter. *)
Lemma generateLineKey_letter text :
  generateLineKey text <> [] ->
  exists r, In r (runesOf text) /\ isEnglishLetter r = true.
Proof.
  intros Hkey. destruct (fromFirstLetter_head (runesOf text)) as [E|(c & rest & E & Hc)].
  - exfalso. apply Hkey. rewrite generateLineKey_runes. unfold normalize_spec.
    now rewrite E.
  - exists c. split; [|exact Hc]. apply fromFirstLetter_In. rewrite E. now left.
Qed.

(** Only white space is trimmed away entirely: such a text has no ASCII
    letter and no CJK ideograph. *)
Lemma TrimSpace_nil_key text : strings.TrimSpace text = [] -> generateLineKey text = [].
Proof.
  intros Ht. apply generateLineKey_no_letter. intros r Hr.
  apply TrimSpace_nil in Ht. rewrite Forall_forall in Ht.
  now apply IsSpace_not_letter, Ht.
Qed.

Lemma TrimSpace_nil_containsChinese text :
  strings.TrimSpace text = [] -> containsChinese text = false.
Proof.
  intros Ht. rewrite containsChinese_runes. apply existsb_isCJK_false.
  intros r Hr. apply TrimSpace_nil in Ht. rewrite Forall_forall in Ht.
  now apply IsSpace_not_CJK, Ht.
Qed.

Lemma classifyLineType_spec text :
  classifyLineType text
  = classify_spec (gostring_eqb (strings.TrimSpace text) [])
                  (existsb isCJK (runesOf text))
                  (negb (gostring_eqb (generateLineKey text) [])).
Proof.
  unfold classifyLineType, classify_spec. cbv zeta.
  rewrite containsChinese_runes.
  destruct (len (strings.TrimSpace text) =? 0) eqn:E.
  - apply len_eqb_0 in E. rewrite E. reflexivity.
  - replace (gostring_eqb (strings.TrimSpace text) []) with false; [reflexivity|].
    symmetry. apply gostring_eqb_neq. intros Hnil.
    apply len_eqb_0 in Hnil. congruence.
Qed.

(** A text with a CJK ideograph is classified Chinese or Mixed. *)
Lemma classifyLineType_Chinese text :
  containsChinese text = true -> isChineseOrMixed (classifyLineType text) = true.
Proof.
  intros Hc. rewrite classifyLineType_spec. rewrite containsChinese_runes in Hc.
  rewrite Hc.
  destruct (gostring_eqb (strings.TrimSpace text) []) eqn:Ht.
  - apply gostring_eqb_eq, TrimSpace_nil_containsChinese in Ht.
    rewrite containsChinese_runes in Ht. congruence.
  - unfold classify_spec. cbn.
    now destruct (negb (gostring_eqb (generateLineKey text) [])).
Qed.

Lemma classifyLineType_ChineseOrMixed text :
  isChineseOrMixed (classifyLineType text) = containsChinese text.
Proof.
  destruct (containsChinese text) eqn:Hc; [now apply classifyLineType_Chinese|].
  rewrite classifyLineType_spec. rewrite containsChinese_runes in Hc. rewrite Hc.
  unfold classify_spec.
  destruct (gostring_eqb (strings.TrimSpace text) []); [reflexivity|].
  now destruct (negb (gostring_eqb (generateLineKey text) [])).
Qed.

(** An Empty line has the empty key. *)
Lemma classifyLineType_Empty_key text :
  classifyLineType text = LineTypeEmpty -> generateLineKey text = [].
Proof.
  rewrite classifyLineType_spec. unfold classify_spec.
  destruct (gostring_eqb (strings.TrimSpace text) []) eqn:Ht.
  - intros _. now apply TrimSpace_nil_key, gostring_eqb_eq.
  - destruct (existsb isCJK (runesOf text));
      destruct (gostring_eqb (generateLineKey text) []) eqn:Hk; cbn;
      try discriminate.
    intros _. now apply gostring_eqb_eq.
Qed.

(** C3: the decision's ShouldAdvanceSource is the caller's flag, whatever
    the texts and the previous features are: it is the same for any two
    line pairs under the same flag. *)
Theorem C3_ShouldAdvanceSource_pass_through
        (sourceText targetText : gostring) (previousSnapshot : option LineFeatures)
        (lastAdvanceFlag : bool) :
  MatchDecision.ShouldAdvanceSource
    (AnalyzeLineMatch sourceText targetText previousSnapshot lastAdvanceFlag)
  = lastAdvanceFlag
  /\ forall sourceText' targetText' previousSnapshot',
      MatchDecision.ShouldAdvanceSource
        (AnalyzeLineMatch sourceText' targetText' previousSnapshot' lastAdvanceFlag)
      = MatchDecision.ShouldAdvanceSource
          (AnalyzeLineMatch sourceText targetText previousSnapshot lastAdvanceFlag).
Proof.
  split; [|intros]; reflexivity.
Qed.

(** C5: the classification is Empty when the trimmed text is empty, and
    otherwise Mixed, Chinese (Secondary), English (Primary) or Empty by the
    two facts "some character lies in U+4E00..U+9FFF" and "the key is not
    empty"; a text without ASCII letter and without such a character, as a
    line of digits and punctuation is, is Empty. *)
Theorem C5_classification (text : gostring) :
  classifyLineType text
  = classify_spec (gostring_eqb (strings.TrimSpace text) [])
                  (existsb isCJK (runesOf text))
                  (negb (gostring_eqb (generateLineKey text) []))
  /\ ((forall r, In r (runesOf text) -> isEnglishLetter r = false /\ isCJK r = false) ->
      classifyLineType text = LineTypeEmpty).
Proof.
  split; [apply classifyLineType_spec|].
  intros Hno. rewrite classifyLineType_spec.
  rewrite generateLineKey_no_letter by (intros r Hr; now apply Hno).
  rewrite existsb_isCJK_false by (intros r Hr; now apply Hno).
  unfold classify_spec. now destruct (gostring_eqb (strings.TrimSpace text) []).
Qed.

(** C8: LinesMatch says that the two keys are equal, ShouldFollowPrevStyle
    that the target is Chinese or Mixed and a previous snapshot is there,
    ShouldAddEmptyLine that the target is Chinese or Mixed; a target with a
    character in U+4E00..U+9FFF and a previous snapshot gets both of the
    latter, whatever the keys are. *)
Theorem C8_decision_fields
        (sourceText targetText : gostring) (previousSnapshot : option LineFeatures)
        (flag : bool) :
  let d := AnalyzeLineMatch sourceText targetText previousSnapshot flag in
  (MatchDecision.LinesMatch d = true
   <-> generateLineKey sourceText = generateLineKey targetText)
  /\ (MatchDecision.ShouldFollowPrevStyle d = true
      <-> (MatchDecision.LineType d = LineTypeChinese
           \/ MatchDecision.LineType d = LineTypeMixed)
          /\ previousSnapshot <> None)
  /\ (MatchDecision.ShouldAddEmptyLine d = true
      <-> MatchDecision.LineType d = LineTypeChinese
          \/ MatchDecision.LineType d = LineTypeMixed)
  /\ ((exists r, In r (runesOf targetText) /\ 0x4e00 <= r <= 0x9fff) ->
      previousSnapshot <> None ->
      MatchDecision.ShouldFollowPrevStyle d = true
      /\ MatchDecision.ShouldAddEmptyLine d = true).
Proof.
  cbv zeta. unfold AnalyzeLineMatch. cbn [MatchDecision.LinesMatch
    MatchDecision.ShouldFollowPrevStyle MatchDecision.ShouldAddEmptyLine
    MatchDecision.LineType].
  unfold linesMatch, shouldFollowPreviousLineStyle, shouldAddEmptyLine. cbv zeta.
  fold (isChineseOrMixed (classifyLineType targetText)).
  assert (Hcm := isChineseOrMixed_iff (classifyLineType targetText)).
  split; [apply gostring_eqb_eq|]. split; [|split].
  - destruct (isChineseOrMixed (classifyLineType targetText)), previousSnapshot;
      cbn; split; intros Hd; try discriminate.
    + split; [now apply Hcm|discriminate].
    + reflexivity.
    + now destruct Hd.
    + destruct Hd as [Hd _]. apply Hcm in Hd. discriminate.
    + destruct Hd as [Hd _]. apply Hcm in Hd. discriminate.
  - destruct (isChineseOrMixed (classifyLineType targetText));
      split; intros Hd; try discriminate; try reflexivity.
    + now apply Hcm.
    + apply Hcm in Hd. discriminate.
  - intros (r & Hin & Hr) Hprev.
    assert (Hc : containsChinese targetText = true).
    { rewrite containsChinese_runes. apply existsb_exists. exists r.
      split; [exact Hin|]. unfold isCJK. lia. }
    rewrite (classifyLineType_Chinese targetText Hc).
    destruct previousSnapshot; [split; reflexivity|contradiction].
Qed.

End MatcherClaims.


(** * The claims about the key *)

Lemma filter_fromFirstLetter rs :
  List.filter notBlank (fromFirstLetter rs) = fromFirstLetter (List.filter notBlank rs).
Proof.
  induction rs as [|r rs IH]; [reflexivity|].
  cbn [fromFirstLetter List.filter].
  destruct (isEnglishLetter r) eqn:Hr.
  - cbn [List.filter]. rewrite (letter_notBlank r Hr). cbn [fromFirstLetter].
    now rewrite Hr.
  - destruct (notBlank r); [|exact IH]. cbn [fromFirstLetter]. now rewrite Hr.
Qed.

Lemma isEnglishLetter_foldCase r : isEnglishLetter (foldCase r) = isEnglishLetter r.
Proof.
  unfold isEnglishLetter, foldCase.
  destruct ((65 <=? r) && (r <=? 90)) eqn:E; lia.
Qed.

Lemma fromFirstLetter_foldCase rs :
  fromFirstLetter (map foldCase rs) = map foldCase (fromFirstLetter rs).
Proof.
  induction rs as [|r rs IH]; [reflexivity|].
  cbn [map fromFirstLetter]. rewrite isEnglishLetter_foldCase.
  destruct (isEnglishLetter r); [reflexivity|exact IH].
Qed.

Lemma insQuotes_app_same p : forall n a b,
  insQuotes n a b -> insQuotes n (p ++ a) (p ++ b).
Proof.
  induction p as [|r p IH]; intros n a b Hab; [exact Hab|].
  cbn [app]. constructor. now apply IH.
Qed.

Lemma isQuote_ascii q : isQuote q = true -> q = 34 \/ q = 39.
Proof. unfold isQuote. lia. Qed.

Lemma insQuotes_len n a b :
  insQuotes n a b -> len (encodeRunes b) = len (encodeRunes a) + Z.of_nat n.
Proof.
  induction 1 as [|n r a b _ IH|n q a b Hq _ IH].
  - reflexivity.
  - rewrite !encodeRunes_cons, !len_app. lia.
  - rewrite encodeRunes_cons, len_app, IH.
    apply isQuote_ascii in Hq. rewrite AppendRune_ascii by lia.
    change (len [byte_of q]) with 1. lia.
Qed.

Lemma dropEnumerationPrefix_len rs :
  len (encodeRunes (dropEnumerationPrefix rs)) <= len (encodeRunes rs).
Proof.
  destruct rs as [|a [|b rs]]; cbn [dropEnumerationPrefix]; try lia.
  destruct (b =? 46); [|lia].
  rewrite !encodeRunes_cons, !len_app.
  pose proof (len_nonneg (utf8.AppendRune [] a)).
  pose proof (len_nonneg (utf8.AppendRune [] b)). lia.
Qed.

Section KeyClaims.
Context {tables : unicode.CaseTables}.

Lemma ToLower_foldCase r : unicode.ToLower (foldCase r) = unicode.ToLower r.
Proof.
  unfold foldCase. destruct ((65 <=? r) && (r <=? 90)) eqn:E; [|reflexivity].
  unfold unicode.ToLower, unicode.MaxASCII.
  replace (r + 32 <=? 127) with true by lia. replace (r <=? 127) with true by lia.
  rewrite E. replace ((65 <=? r + 32) && (r + 32 <=? 90)) with false by lia. lia.
Qed.

Lemma lowerRunes_foldCase rs : lowerRunes (map foldCase rs) = lowerRunes rs.
Proof.
  unfold lowerRunes. induction rs as [|r rs IH]; [reflexivity|].
  cbn [map flat_map]. cbv zeta. now rewrite ToLower_foldCase, IH.
Qed.

Lemma lowerRunes_app a b : lowerRunes (a ++ b) = lowerRunes a ++ lowerRunes b.
Proof. unfold lowerRunes. apply flat_map_app. Qed.

(** The specification's key only depends on the characters that are not
    blank, up to the case of ASCII letters. *)
Lemma normalize_spec_folded rs :
  normalize_spec rs
  = dropEnumerationPrefix
      (lowerRunes (fromFirstLetter (map foldCase (List.filter notBlank rs)))).
Proof.
  unfold normalize_spec.
  now rewrite filter_fromFirstLetter, fromFirstLetter_foldCase, lowerRunes_foldCase.
Qed.

(** Where the case tables leave the characters above ASCII alone,
    lower-casing is ASCII case folding. *)
Lemma lowerRunes_caseless rs :
  Forall validRune rs ->
  (forall r, In r rs -> 0x80 <= r -> unicode.ToLower r = r) ->
  lowerRunes rs = map foldCase rs.
Proof.
  induction 1 as [|r rs Hr _ IH]; intros Hfix; [reflexivity|].
  unfold lowerRunes in *. cbn [flat_map map]. cbv zeta.
  rewrite IH by (intros c Hc; apply Hfix; now right).
  destruct Hr as [Hr _].
  destruct (Z.lt_ge_cases r 0x80) as [Ha|Ha].
  - destruct (ToLower_ascii r ltac:(lia)) as [-> Hf].
    now replace (foldCase r >=? 0) with true by lia.
  - rewrite (Hfix r (or_introl eq_refl) Ha).
    replace (r >=? 0) with true by lia.
    unfold foldCase. now replace ((65 <=? r) && (r <=? 90)) with false by lia.
Qed.

Lemma lowerRunes_quote q : isQuote q = true -> lowerRunes [q] = [q].
Proof.
  intros Hq. apply isQuote_ascii in Hq.
  destruct (ToLower_ascii q ltac:(lia)) as [E _].
  unfold lowerRunes. cbn [flat_map]. cbv zeta. rewrite E. unfold foldCase.
  replace ((65 <=? q) && (q <=? 90)) with false by lia.
  now replace (q >=? 0) with true by lia.
Qed.

Lemma insQuotes_lowered n a b :
  insQuotes n a b ->
  insQuotes n (lowerRunes (List.filter notBlank a)) (lowerRunes (List.filter notBlank b)).
Proof.
  induction 1 as [|n r a b _ IH|n q a b Hq _ IH].
  - constructor.
  - cbn [List.filter]. destruct (notBlank r); [|exact IH].
    change (r :: List.filter notBlank a) with ([r] ++ List.filter notBlank a).
    change (r :: List.filter notBlank b) with ([r] ++ List.filter notBlank b).
    rewrite !lowerRunes_app. now apply insQuotes_app_same.
  - cbn [List.filter].
    replace (notBlank q) with true
      by (apply isQuote_ascii in Hq; unfold notBlank; lia).
    change (q :: List.filter notBlank b) with ([q] ++ List.filter notBlank b).
    rewrite lowerRunes_app, (lowerRunes_quote q Hq). cbn [app].
    now constructor.
Qed.

(** Keys of different length are different. *)
Lemma keys_differ_by_len (a b : gostring) : len a <> len b -> a <> b.
Proof. intros Hl ->. now apply Hl. Qed.

Lemma quotes_change_key lc n X Y :
  insQuotes (S n) X Y ->
  encodeRunes (dropEnumerationPrefix (lc :: X))
  <> encodeRunes (dropEnumerationPrefix (lc :: Y)).
Proof.
  intros Hins. apply keys_differ_by_len.
  inversion Hins as [|? r X' Y' Hrest|? q ? Y' Hq Hrest]; subst.
  - pose proof (insQuotes_len _ _ _ Hrest) as Hl.
    cbn [dropEnumerationPrefix]. destruct (r =? 46).
    + lia.
    + rewrite !encodeRunes_cons, !len_app. lia.
  - pose proof (insQuotes_len _ _ _ Hrest) as Hl.
    pose proof (dropEnumerationPrefix_len (lc :: X)) as Hd.
    change (dropEnumerationPrefix (lc :: q :: Y'))
      with (if q =? 46 then Y' else lc :: q :: Y').
    replace (q =? 46) with false by (apply isQuote_ascii in Hq; lia).
    rewrite encodeRunes_cons, len_app in Hd.
    rewrite !encodeRunes_cons, !len_app.
    apply isQuote_ascii in Hq. rewrite (AppendRune_ascii q) by lia.
    change (len [byte_of q]) with 1. lia.
Qed.

(** Quotation marks after the first ASCII letter change the key. *)
Lemma generateLineKey_quotes text1 text2 n :
  insQuotes (S n) (fromFirstLetter (runesOf text1)) (fromFirstLetter (runesOf text2)) ->
  generateLineKey text1 <> generateLineKey text2.
Proof.
  intros Hins. rewrite !generateLineKey_runes. unfold normalize_spec.
  destruct (fromFirstLetter_head (runesOf text2)) as [E2|(c & P2 & E2 & Hc)];
    rewrite E2 in *.
  - inversion Hins.
  - remember (fromFirstLetter (runesOf text1)) as P1 eqn:E1.
    inversion Hins as [|n' r P1' b' Hrest|n' q a' b' Hq Hrest]; subst.
    + cbn [List.filter]. rewrite (letter_notBlank c Hc).
      destruct (lowerRunes_letter c (List.filter notBlank P1') Hc) as [-> _].
      destruct (lowerRunes_letter c (List.filter notBlank P2) Hc) as [-> _].
      eapply quotes_change_key. apply insQuotes_lowered. exact Hrest.
    + apply isQuote_ascii in Hq. unfold isEnglishLetter in Hc. lia.
Qed.

End KeyClaims.


Section KeyTheorems.
Context {tables : unicode.CaseTables}.

(** C6, in the form the program satisfies: a text without ASCII letter has
    the empty key; in general the key is the text from its first ASCII
    letter on, without space, tab, newline and carriage return, lower-cased,
    and without its first two characters when the second one is a period.
    Lower-casing is that of [strings.ToLower], which lowers the letters
    above ASCII too; it is ASCII case folding on every text whose characters
    above ASCII the case tables leave alone.  The two example lines have the
    key "firstpoint". *)
Theorem C6_normalize (text : gostring) :
  ((forall r, In r (runesOf text) -> isEnglishLetter r = false) ->
   generateLineKey text = [])
  /\ generateLineKey text = encodeRunes (normalize_spec (runesOf text))
  /\ ((forall r, In r (runesOf text) -> 0x80 <= r -> unicode.ToLower r = r) ->
      generateLineKey text
      = encodeRunes
          (dropEnumerationPrefix
             (map foldCase (List.filter notBlank (fromFirstLetter (runesOf text))))))
  /\ generateLineKey (str "1. First Point") = str "firstpoint"
  /\ generateLineKey (str "First Point") = str "firstpoint".
Proof.
  split; [apply generateLineKey_no_letter|].
  split; [apply generateLineKey_runes|].
  split; [|split; vm_compute; reflexivity].
  intros Hfix. rewrite generateLineKey_runes. unfold normalize_spec.
  rewrite lowerRunes_caseless; [reflexivity| |].
  - apply Forall_filter, fromFirstLetter_valid, runesOf_valid.
  - intros r Hr. apply Hfix. apply filter_In in Hr. destruct Hr as [Hr _].
    now apply fromFirstLetter_In.
Qed.

(** C7, in the form the program satisfies: two texts that read the same once space, tab, newline
    and carriage return are removed and the case of ASCII letters is folded
    have the same key; and if, from their first ASCII letters on, one text is
    the other with quotation marks put in, their keys differ. *)
Theorem C7_key_invariance (text1 text2 : gostring) :
  (map foldCase (List.filter notBlank (runesOf text1))
   = map foldCase (List.filter notBlank (runesOf text2)) ->
   generateLineKey text1 = generateLineKey text2)
  /\ (forall n,
         insQuotes (S n) (fromFirstLetter (runesOf text1))
                   (fromFirstLetter (runesOf text2)) ->
         generateLineKey text1 <> generateLineKey text2).
Proof.
  split.
  - intros Heq. rewrite !generateLineKey_runes, !normalize_spec_folded.
    now rewrite Heq.
  - intros n. apply generateLineKey_quotes.
Qed.

(** C9, in the form the program satisfies: with the same text on both sides the keys match; if the
    text has no character in U+4E00..U+9FFF, the decision asks neither to
    follow the previous style nor for a spacer, and the line is English
    (Primary) when its key is not empty. *)
Theorem C9_identical_texts (text : gostring) (previousSnapshot : option LineFeatures)
        (flag : bool) :
  let d := AnalyzeLineMatch text text previousSnapshot flag in
  MatchDecision.LinesMatch d = true
  /\ ((forall r, In r (runesOf text) -> isCJK r = false) ->
      MatchDecision.ShouldFollowPrevStyle d = false
      /\ MatchDecision.ShouldAddEmptyLine d = false
      /\ (generateLineKey text <> [] -> MatchDecision.LineType d = LineTypeEnglish)).
Proof.
  cbv zeta. unfold AnalyzeLineMatch. cbn [MatchDecision.LinesMatch
    MatchDecision.ShouldFollowPrevStyle MatchDecision.ShouldAddEmptyLine
    MatchDecision.LineType].
  split; [apply gostring_eqb_refl|].
  intros Hno.
  unfold shouldFollowPreviousLineStyle, shouldAddEmptyLine. cbv zeta.
  fold (isChineseOrMixed (classifyLineType text)).
  rewrite classifyLineType_ChineseOrMixed, containsChinese_runes.
  rewrite (existsb_isCJK_false _ Hno). cbn.
  split; [reflexivity|]. split; [reflexivity|].
  intros Hkey. rewrite classifyLineType_spec, (existsb_isCJK_false _ Hno).
  replace (gostring_eqb (generateLineKey text) []) with false
    by (symmetry; now apply gostring_eqb_neq).
  replace (gostring_eqb (strings.TrimSpace text) []) with false; [reflexivity|].
  symmetry. apply gostring_eqb_neq. intros Ht. now apply TrimSpace_nil_key in Ht.
Qed.

End KeyTheorems.

(** C6: a letter above ASCII is lowered too: with the case tables of the Go
    distribution for Latin-1 the key of "aÉ" is "aé", where lowering the
    ASCII letters only leaves "aÉ". *)
Lemma C6_non_ASCII_letter_lowered :
  generateLineKey (tables := unicode.latin1CaseTables) (str "aÉ") = str "aé"
  /\ encodeRunes
       (dropEnumerationPrefix
          (map foldCase (List.filter notBlank (fromFirstLetter (runesOf (str "aÉ"))))))
     = str "aÉ"
  /\ generateLineKey (tables := unicode.latin1CaseTables) (str "aÉ")
     <> encodeRunes
          (dropEnumerationPrefix
             (map foldCase (List.filter notBlank (fromFirstLetter (runesOf (str "aÉ")))))).
Proof.
  split; [vm_compute; reflexivity|]. split; [vm_compute; reflexivity|].
  vm_compute. discriminate.
Qed.

(** C7: a quotation mark before the first ASCII letter does not change the
    key: the two lines differ only in a quotation mark and have the same
    key. *)
Lemma C7_quote_before_first_letter :
  ~ (forall (T : unicode.CaseTables) (text1 text2 : gostring) (n : nat),
        insQuotes (S n) (runesOf text1) (runesOf text2) ->
        generateLineKey text1 <> generateLineKey text2).
Proof.
  intros Hclaim.
  apply (Hclaim unicode.caselessAboveASCII (str "Title") (x22 :: str "Title") 0%nat).
  - vm_compute. repeat constructor.
  - vm_compute. reflexivity.
Qed.

(** C7 at work on lines that differ in blanks and
    case, and on the two title lines of the tests. *)
Lemma C7_key_invariance_witness :
  generateLineKey (tables := unicode.caselessAboveASCII)
                  (str "Heritage   Baptist") 
  = generateLineKey (tables := unicode.caselessAboveASCII) (str "heritage BAPTIST")
  /\ generateLineKey (tables := unicode.caselessAboveASCII)
                     (str "Title: Jesus Christ, the Same")
     <> generateLineKey (tables := unicode.caselessAboveASCII)
                        (str "Title: " ++ x22 :: str "Jesus Christ, the Same" ++ [x22]).
Proof.
  split.
  - apply (proj1 (C7_key_invariance (tables := unicode.caselessAboveASCII) _ _)).
    vm_compute. reflexivity.
  - apply (proj2 (C7_key_invariance (tables := unicode.caselessAboveASCII) _ _) 1%nat).
    vm_compute. repeat constructor.
Defined.

(** C9: with the same Chinese text on both sides the line is not English
    (Primary), and a spacer is asked for. *)
Lemma C9_identical_Chinese_text :
  ~ (forall (T : unicode.CaseTables) (text : gostring)
            (previousSnapshot : option LineFeatures) (flag : bool),
        let d := AnalyzeLineMatch text text previousSnapshot flag in
        MatchDecision.LineType d = LineTypeEnglish
        /\ MatchDecision.LinesMatch d = true
        /\ MatchDecision.ShouldFollowPrevStyle d = false
        /\ MatchDecision.ShouldAddEmptyLine d = false).
Proof.
  intros Hclaim.
  destruct (Hclaim unicode.caselessAboveASCII (str "耶稣基督") None false)
    as (Htype & _).
  vm_compute in Htype. discriminate.
Qed.


(** * The line source *)

Lemma lines_loop_spec rest : forall lineIndex line idx,
  lines_loop rest lineIndex = Some (line, idx) ->
  lineIndex <= idx < lineIndex + len rest /\ line <> [].
Proof.
  induction rest as [|l rest IH]; intros lineIndex line idx E; [discriminate|].
  cbn [lines_loop] in E. rewrite len_cons. pose proof (len_nonneg rest).
  destruct (gostring_eqb (strings.TrimSpace l) []) eqn:Hl; cbn [negb] in E.
  - apply IH in E. destruct E as [E Hne]. split; [lia|exact Hne].
  - inversion E; subst. split; [lia|]. now apply gostring_eqb_neq.
Qed.

Lemma lineCount_maxLines element content :
  In element content -> (lineCount element <= maxLines content)%nat.
Proof.
  induction content as [|e content IH]; intros Hin; [destruct Hin|].
  cbn [maxLines fold_right]. fold (maxLines content).
  destruct Hin as [->|Hin]; [lia|]. specialize (IH Hin). lia.
Qed.

(** A line delivered moves the cursor forward, within the bound [L] on the
    lines of a paragraph. *)
Lemma elements_loop_spec (L : Z) rest : forall cursor info c',
  Forall (fun element => Z.of_nat (lineCount element) <= L) rest ->
  cursorOk cursor ->
  elements_loop rest cursor = (inl info, c') ->
  DocumentCursor.Document c' = DocumentCursor.Document cursor
  /\ 0 <= DocumentCursor.LineIndex c' <= L
  /\ ((DocumentCursor.ElementIndex c' = DocumentCursor.ElementIndex cursor
       /\ DocumentCursor.LineIndex cursor < DocumentCursor.LineIndex c')
      \/ DocumentCursor.ElementIndex cursor < DocumentCursor.ElementIndex c'
         <= DocumentCursor.ElementIndex cursor + len rest).
Proof.
  induction rest as [|element rest IH]; intros cursor info c' HL [Hei Hli] E;
    [discriminate|].
  inversion HL as [|? ? Hl HL']; subst. pose proof (len_nonneg rest) as Hrest.
  cbn [elements_loop] in E. rewrite len_cons.
  assert (Hskip : forall cursor2,
             DocumentCursor.Document cursor2 = DocumentCursor.Document cursor ->
             DocumentCursor.ElementIndex cursor2 = DocumentCursor.ElementIndex cursor ->
             0 <= DocumentCursor.LineIndex cursor2 ->
             elements_loop rest
               (cursorAt cursor2 (DocumentCursor.ElementIndex cursor2 + 1)
                         (DocumentCursor.LineIndex cursor2)) = (inl info, c') ->
             DocumentCursor.Document c' = DocumentCursor.Document cursor
             /\ 0 <= DocumentCursor.LineIndex c' <= L
             /\ ((DocumentCursor.ElementIndex c' = DocumentCursor.ElementIndex cursor
                  /\ DocumentCursor.LineIndex cursor < DocumentCursor.LineIndex c')
                 \/ DocumentCursor.ElementIndex cursor < DocumentCursor.ElementIndex c'
                    <= DocumentCursor.ElementIndex cursor + (len rest + 1))).
  { intros cursor2 Hdoc Hidx Hli2 E2.
    apply IH in E2; [|exact HL'|split; cbn; lia].
    cbn in E2. destruct E2 as (E2d & E2l & E2i).
    split; [congruence|]. split; [exact E2l|]. right. lia. }
  unfold lineCount in Hl.
  destruct (paragraphLines element) as [[firstRun lines]|];
    [|apply (Hskip cursor); [reflexivity|reflexivity|exact Hli|exact E]].
  destruct (lines_loop (sliceFrom lines (DocumentCursor.LineIndex cursor))
                       (DocumentCursor.LineIndex cursor)) as [[line idx]|] eqn:El.
  - apply lines_loop_spec in El. destruct El as [Hidx _].
    fold (len lines) in Hl. pose proof (len_nonneg lines).
    destruct (idx + 1 >=? len lines) eqn:Hlast; inversion E; subst; cbn.
    + split; [reflexivity|]. split; [lia|]. right. lia.
    + split; [reflexivity|]. split; [lia|]. left. lia.
  - apply (Hskip (cursorAt cursor (DocumentCursor.ElementIndex cursor) 0));
      [reflexivity|reflexivity|cbn; lia|exact E].
Qed.

Lemma Forall_skipn {A} (P : A -> Prop) n (l : list A) : Forall P l -> Forall P (skipn n l).
Proof.
  revert l. induction n as [|n IH]; intros l Hl; [exact Hl|].
  destruct l; [constructor|]. inversion Hl; subst. now apply IH.
Qed.

(** Every line [getNextNonEmptyLine] delivers lowers the measure of the
    cursor. *)
Lemma getNextNonEmptyLine_decreases cursor info c' :
  cursorOk cursor ->
  getNextNonEmptyLine cursor = (inl info, c') ->
  cursorOk c' /\ (cursorMeasure c' < cursorMeasure cursor)%nat.
Proof.
  intros Hok E. unfold getNextNonEmptyLine in E.
  unfold cursorMeasure, contentOf.
  destruct (docs.Body_ (DocumentCursor.Document cursor)) as [body|] eqn:Hbody;
    [|discriminate].
  destruct (len (docs.BodyContent body) =? 0); [discriminate|].
  set (content := docs.BodyContent body) in *.
  set (L := maxLines content).
  apply (elements_loop_spec (Z.of_nat L)) in E; [|apply Forall_skipn|exact Hok].
  2:{ apply Forall_forall. intros e He. apply inj_le. now apply lineCount_maxLines. }
  destruct E as (Hdoc & Hli & Hmove). rewrite Hdoc, Hbody. fold content. fold L.
  destruct Hok as [Hei Hli0].
  unfold sliceFrom, len in Hmove. rewrite length_skipn in Hmove.
  split; [split; lia|].
  destruct Hmove as [[Heq Hlt]|Hlt].
  - rewrite Heq. lia.
  - remember (List.length content - Z.to_nat (DocumentCursor.ElementIndex cursor))%nat as k.
    remember (List.length content - Z.to_nat (DocumentCursor.ElementIndex c'))%nat as k'.
    assert (k' < k)%nat by lia.
    assert (S L * k' + L < S L * k)%nat by nia.
    lia.
Qed.


(** * The driver, line by line *)

Section DriverLines.
Context {tables : unicode.CaseTables}.

Lemma keyInSync_initial li sc tc : keyInSync (initialLocals li sc tc).
Proof. reflexivity. Qed.

Lemma keyInSync_firstSourceLine sc tc st : firstSourceLine sc tc = inr st -> keyInSync st.
Proof.
  unfold firstSourceLine.
  destruct (getNextNonEmptyLine sc) as [[li|err] c]; intros E; inversion E.
  apply keyInSync_initial.
Qed.

Lemma mainLoop_source_keyInSync st st' :
  keyInSync st -> mainLoop_source st = Next st' -> keyInSync st'.
Proof.
  unfold mainLoop_source, shouldAdvanceSourceCursor. intros Hk.
  destruct (lastProcessedWasChinese st); [|intros E; inversion E; now subst].
  destruct (getNextNonEmptyLine (sourceCursor st)) as [[li|err] c].
  - intros E. inversion E. reflexivity.
  - destruct (isEndOfDocument err); discriminate.
Qed.

Lemma fastForward_source_keyInSync st st' :
  keyInSync st -> fastForward_source st = Next st' -> keyInSync st'.
Proof.
  unfold fastForward_source, shouldAdvanceSourceCursor. intros Hk.
  destruct (lastProcessedWasChinese st); [|intros E; inversion E; now subst].
  destruct (getNextNonEmptyLine (sourceCursor st)) as [[li|err] c].
  - intros E. inversion E. reflexivity.
  - destruct (isEndOfDocument err); discriminate.
Qed.

(** The three ways the treatment of a target line ends in the main loop. *)
Lemma mainLoop_line_cases loopID st targetLineInfo :
  keyInSync st ->
  let text := LineInfo.Text targetLineInfo in
  (isChineseOrMixed (classifyLineType text) = true
   /\ exists st', mainLoop_line loopID st targetLineInfo = Next st'
                  /\ lastProcessedWasChinese st' = true
                  /\ sourceCursor st' = sourceCursor st /\ targetCursor st' = targetCursor st
                  /\ sourceLineNum st' = sourceLineNum st
                  /\ targetLineNum st' = targetLineNum st
                  /\ previousFeatures st' = previousFeatures st
                  /\ sourceLineInfo st' = sourceLineInfo st /\ sourceKey st' = sourceKey st
                  /\ sourceFeatures st' = sourceFeatures st)
  \/ (isChineseOrMixed (classifyLineType text) = false
      /\ sourceKey st = generateLineKey text
      /\ exists st', mainLoop_line loopID st targetLineInfo = Next st'
                     /\ lastProcessedWasChinese st' = false
                     /\ sourceCursor st' = sourceCursor st
                     /\ targetCursor st' = targetCursor st
                     /\ sourceLineNum st' = sourceLineNum st
                     /\ targetLineNum st' = targetLineNum st
                     /\ previousFeatures st' = Some (sourceFeatures st)
                     /\ sourceLineInfo st' = sourceLineInfo st
                     /\ sourceKey st' = sourceKey st
                     /\ sourceFeatures st' = sourceFeatures st)
  \/ (mismatch st text
      /\ mainLoop_line loopID st targetLineInfo = ReturnErr (syncErrorAt st text) st).
Proof.
  intros Hk text. unfold mainLoop_line, mismatch. cbv zeta.
  cbn [AnalyzeLineMatch MatchDecision.LineType MatchDecision.LinesMatch
       MatchDecision.ShouldFollowPrevStyle].
  fold text. unfold linesMatch. unfold keyInSync in Hk. rewrite <- !Hk.
  destruct (isChineseOrMixed (classifyLineType text)) eqn:Hc.
  - left. split; [reflexivity|]. eexists. split; [reflexivity|].
    destruct (previousFeatures st) as [pf|] eqn:Hpf.
    + destruct (LineFeatures.LeadingTabs pf >? 0); cbn; rewrite ?Hpf;
        destruct (shouldFollowPreviousLineStyle text (Some pf)); cbn;
        repeat split; assumption.
    + cbn. rewrite Hpf. cbn. repeat split; assumption.
  - right. destruct (gostring_eqb (sourceKey st) (generateLineKey text)) eqn:Hm; cbn [negb].
    + left. apply gostring_eqb_eq in Hm. split; [reflexivity|]. split; [exact Hm|].
      eexists. split; [reflexivity|].
      destruct (LineFeatures.LeadingTabs (sourceFeatures st) >? 0); cbn;
        repeat split; reflexivity.
    + right. apply gostring_eqb_neq in Hm. repeat split; assumption.
Qed.

(** The treatment of a target line in the fast-forward loop ends the same
    way, without any formatting call and without any tab recorded. *)
Lemma fastForward_line_cases st targetLineInfo :
  keyInSync st ->
  let text := LineInfo.Text targetLineInfo in
  (isChineseOrMixed (classifyLineType text) = true
   /\ fastForward_line st targetLineInfo = Next (set_lastProcessedWasChinese st true))
  \/ (isChineseOrMixed (classifyLineType text) = false
      /\ sourceKey st = generateLineKey text
      /\ fastForward_line st targetLineInfo
         = Next (set_lastProcessedWasChinese
                   (set_previousFeatures st (Some (sourceFeatures st))) false))
  \/ (mismatch st text
      /\ fastForward_line st targetLineInfo = ReturnErr (syncErrorAt st text) st).
Proof.
  intros Hk text. unfold fastForward_line, mismatch. cbv zeta.
  cbn [AnalyzeLineMatch MatchDecision.LineType MatchDecision.LinesMatch].
  fold text. unfold linesMatch. unfold keyInSync in Hk. rewrite <- !Hk.
  destruct (isChineseOrMixed (classifyLineType text)) eqn:Hc.
  - left. now split.
  - right. destruct (gostring_eqb (sourceKey st) (generateLineKey text)) eqn:Hm; cbn [negb].
    + left. apply gostring_eqb_eq in Hm. repeat split; assumption.
    + right. apply gostring_eqb_neq in Hm. repeat split; assumption.
Qed.

Lemma mainLoop_line_keyInSync loopID st targetLineInfo st' :
  keyInSync st -> mainLoop_line loopID st targetLineInfo = Next st' -> keyInSync st'.
Proof.
  intros Hk E. unfold keyInSync in *.
  destruct (mainLoop_line_cases loopID st targetLineInfo Hk)
    as [(_ & st1 & E1 & H1)|[(_ & _ & st1 & E1 & H1)|(_ & E1)]];
    rewrite E in E1; inversion E1; subst.
  - decompose [and] H1. congruence.
  - decompose [and] H1. congruence.
Qed.

Lemma mainLoopBody_keyInSync loopID st st' :
  keyInSync st -> mainLoopBody loopID st = Next st' -> keyInSync st'.
Proof.
  intros Hk. unfold mainLoopBody.
  destruct (mainLoop_source st) as [st1| |] eqn:Es; cbn [andThen]; try discriminate.
  apply mainLoop_source_keyInSync in Es; [|exact Hk].
  destruct (getNextNonEmptyLine (targetCursor st1)) as [[tli|err] c].
  - apply mainLoop_line_keyInSync. exact Es.
  - destruct (isEndOfDocument err); discriminate.
Qed.

Lemma rounds_keyInSync n : forall loopID st stn,
  keyInSync st -> rounds n loopID st = Some stn -> keyInSync stn.
Proof.
  induction n as [|n IH]; intros loopID st stn Hk E; cbn [rounds] in E.
  - inversion E. now subst.
  - destruct (mainLoopBody loopID st) as [st1| |] eqn:Eb; try discriminate.
    eapply IH; [|exact E]. eapply mainLoopBody_keyInSync; eauto.
Qed.

(** The main loop against its rounds. *)
Lemma mainLoop_rounds n : forall fuel loopID st stn,
  rounds n loopID st = Some stn ->
  mainLoop (n + fuel) loopID st = mainLoop fuel (loopID + Z.of_nat n) stn.
Proof.
  induction n as [|n IH]; intros fuel loopID st stn E; cbn [rounds] in E.
  - inversion E. subst. cbn. now rewrite Z.add_0_r.
  - destruct (mainLoopBody loopID st) as [st1| |] eqn:Eb; try discriminate.
    cbn [Nat.add mainLoop]. rewrite Eb. rewrite (IH _ _ _ _ E). f_equal. lia.
Qed.

Lemma mainLoop_stops fuel : forall loopID st s,
  mainLoop fuel loopID st = Some s ->
  exists n stn, (n < fuel)%nat /\ rounds n loopID st = Some stn
                /\ mainLoopBody (loopID + Z.of_nat n) stn = s
                /\ (forall st', s <> Next st').
Proof.
  induction fuel as [|fuel IH]; intros loopID st s E; [discriminate|].
  cbn [mainLoop] in E.
  destruct (mainLoopBody loopID st) as [st1|st1|err st1] eqn:Eb.
  - destruct (IH _ _ _ E) as (n & stn & Hn & Er & Es & Hs).
    exists (S n), stn. split; [lia|]. split; [cbn [rounds]; now rewrite Eb|].
    split; [|exact Hs]. rewrite <- Es. f_equal. lia.
  - inversion E; subst. exists O, st. rewrite Z.add_0_r.
    repeat split; [lia|exact Eb|discriminate].
  - inversion E; subst. exists O, st. rewrite Z.add_0_r.
    repeat split; [lia|exact Eb|discriminate].
Qed.

Lemma mainLoop_from_rounds n fuel loopID st stn s :
  rounds n loopID st = Some stn ->
  mainLoopBody (loopID + Z.of_nat n) stn = s -> (forall st', s <> Next st') ->
  (n < fuel)%nat -> mainLoop fuel loopID st = Some s.
Proof.
  intros Er Es Hs Hn.
  replace fuel with (n + S (fuel - S n))%nat by lia.
  rewrite (mainLoop_rounds _ _ _ _ _ Er). cbn [mainLoop]. rewrite Es.
  destruct s; [now contradiction (Hs st0)|reflexivity|reflexivity].
Qed.

(** A [SyncError] leaves the body of the main loop only from the treatment
    of a target line. *)
Lemma mainLoopBody_SyncError loopID st e st' :
  keyInSync st ->
  mainLoopBody loopID st = ReturnErr (errorSync e) st' <->
  exists st1 targetLineInfo c,
    mainLoop_source st = Next st1
    /\ getNextNonEmptyLine (targetCursor st1) = (inl targetLineInfo, c)
    /\ mismatch (set_targetLine st1 c) (LineInfo.Text targetLineInfo)
    /\ errorSync e = syncErrorAt (set_targetLine st1 c) (LineInfo.Text targetLineInfo)
    /\ st' = set_targetLine st1 c.
Proof.
  intros Hk. unfold mainLoopBody. split.
  - destruct (mainLoop_source st) as [st1|st1|err st1] eqn:Es; cbn [andThen];
      try discriminate.
    + apply mainLoop_source_keyInSync in Es as Hk1; [|exact Hk].
      destruct (getNextNonEmptyLine (targetCursor st1)) as [[tli|err] c] eqn:Et.
      * intros E. exists st1, tli, c. split; [reflexivity|]. split; [exact Et|].
        assert (Hk2 : keyInSync (set_targetLine st1 c)) by exact Hk1.
        destruct (mainLoop_line_cases loopID _ tli Hk2)
          as [(_ & st2 & E2 & _)|[(_ & _ & st2 & E2 & _)|(Hm & E2)]];
          rewrite E in E2; inversion E2; subst.
        repeat split; try assumption; try reflexivity. now destruct Hm. now destruct Hm.
      * destruct (isEndOfDocument err); discriminate.
    + unfold mainLoop_source in Es.
      destruct (shouldAdvanceSourceCursor (lastProcessedWasChinese st)); [|discriminate].
      destruct (getNextNonEmptyLine (sourceCursor st)) as [[li|err'] c]; [discriminate|].
      destruct (isEndOfDocument err'); inversion Es; subst. discriminate.
  - intros (st1 & tli & c & Es & Et & Hm & He & ->).
    rewrite Es. cbn [andThen]. rewrite Et.
    apply mainLoop_source_keyInSync in Es; [|exact Hk].
    assert (Hk2 : keyInSync (set_targetLine st1 c)) by exact Es.
    destruct (mainLoop_line_cases loopID _ tli Hk2)
      as [(Hc & _)|[(_ & Heq & _)|(_ & E2)]].
    + destruct Hm as [Hm _]. congruence.
    + destruct Hm as [_ Hm]. contradiction.
    + rewrite E2. now rewrite He.
Qed.

End DriverLines.


Section DriverClaims.
Context {tables : unicode.CaseTables}.

Lemma lineStartIndices_loop_no_SyncError fuel : forall cursor m k err e,
  lineStartIndices_loop fuel cursor m k = Some (inl err) -> err <> errorSync e.
Proof.
  induction fuel as [|fuel IH]; intros cursor m k err e E; [discriminate|].
  cbn [lineStartIndices_loop] in E.
  destruct (getNextNonEmptyLine cursor) as [[li|err'] c].
  - eapply IH; eauto.
  - destruct (isEndOfDocument err'); inversion E. discriminate.
Qed.

Lemma insertTabs_no_SyncError fuel svc m e :
  insertTabs fuel svc m <> Some (Some (errorSync e)).
Proof.
  unfold insertTabs.
  destruct (len m >? 0); [|discriminate].
  destruct (Documents_Get svc) as [doc|err]; [|discriminate].
  match goal with
  | |- context [lineStartIndices_loop fuel ?c ?m0 ?k] =>
      destruct (lineStartIndices_loop fuel c m0 k) as [[err|[starts cur]]|] eqn:El
  end; [|try discriminate..].
  - intros E. inversion E. subst. eapply lineStartIndices_loop_no_SyncError; eauto.
  - destruct (len _ >? 0); [|discriminate].
    destruct (Documents_BatchUpdate svc _); discriminate.
Qed.

Lemma firstSourceLine_no_SyncError sc tc err e :
  firstSourceLine sc tc = inl err -> err <> errorSync e.
Proof.
  unfold firstSourceLine.
  destruct (getNextNonEmptyLine sc) as [[li|err'] c]; intros E; inversion E.
  discriminate.
Qed.

(** ** The fast-forward loop and the iterations of a run *)

Lemma fastForward_line_keyInSync st targetLineInfo st' :
  keyInSync st -> fastForward_line st targetLineInfo = Next st' -> keyInSync st'.
Proof.
  intros Hk E.
  destruct (fastForward_line_cases st targetLineInfo Hk)
    as [(_ & E1)|[(_ & _ & E1)|(_ & E1)]];
    rewrite E in E1; inversion E1; subst; exact Hk.
Qed.

Lemma fastForwardBody_keyInSync st st' :
  keyInSync st -> fastForwardBody st = Next st' -> keyInSync st'.
Proof.
  intros Hk. unfold fastForwardBody.
  destruct (fastForward_source st) as [st1| |] eqn:Es; cbn [andThen]; try discriminate.
  apply fastForward_source_keyInSync in Es; [|exact Hk].
  destruct (getNextNonEmptyLine (targetCursor st1)) as [[tli|err] c].
  - apply fastForward_line_keyInSync. exact Es.
  - destruct (isEndOfDocument err); discriminate.
Qed.

Lemma fastForwardRounds_keyInSync n : forall st stn,
  keyInSync st -> fastForwardRounds n st = Some stn -> keyInSync stn.
Proof.
  induction n as [|n IH]; intros st stn Hk E; cbn [fastForwardRounds] in E.
  - inversion E. now subst.
  - destruct (fastForwardBody st) as [st1| |] eqn:Eb; try discriminate.
    eapply IH; [|exact E]. eapply fastForwardBody_keyInSync; eauto.
Qed.

(** The fast-forward loop against its rounds. *)
Lemma fastForward_loop_Next n : forall loopID st st',
  fastForward_loop n loopID st = Next st' <-> fastForwardRounds n st = Some st'.
Proof.
  induction n as [|n IH]; intros loopID st st'; cbn [fastForward_loop fastForwardRounds].
  - split; intros E; inversion E; reflexivity.
  - destruct (fastForwardBody st) as [st1|st1|err st1]; cbn [andThen];
      [apply IH|split; discriminate..].
Qed.

Lemma fastForward_loop_stops n : forall loopID st s,
  fastForward_loop n loopID st = s -> (forall st', s <> Next st') ->
  exists k stk, (k < n)%nat /\ fastForwardRounds k st = Some stk
                /\ fastForwardBody stk = s.
Proof.
  induction n as [|n IH]; intros loopID st s E Hs; cbn [fastForward_loop] in E.
  - subst. now contradiction (Hs st).
  - destruct (fastForwardBody st) as [st1|st1|err st1] eqn:Eb; cbn [andThen] in E.
    + destruct (IH _ _ _ E Hs) as (k & stk & Hk & Er & Es).
      exists (S k), stk. split; [lia|]. split; [cbn [fastForwardRounds]; now rewrite Eb|].
      exact Es.
    + exists O, st. subst. repeat split; [lia|exact Eb].
    + exists O, st. subst. repeat split; [lia|exact Eb].
Qed.

Lemma fastForward_loop_from_rounds k : forall n loopID st stk s,
  fastForwardRounds k st = Some stk -> fastForwardBody stk = s ->
  (forall st', s <> Next st') -> (k < n)%nat -> fastForward_loop n loopID st = s.
Proof.
  induction k as [|k IH]; intros n loopID st stk s Er Es Hs Hk;
    (destruct n as [|n]; [lia|]); cbn [fastForwardRounds] in Er; cbn [fastForward_loop].
  - inversion Er; subst. destruct (fastForwardBody stk) as [st1|st1|err st1];
      [now contradiction (Hs st1)|reflexivity..].
  - destruct (fastForwardBody st) as [st1|st1|err st1]; try discriminate.
    cbn [andThen]. eapply IH; eauto. lia.
Qed.

(** A [SyncError] leaves the body of the fast-forward loop only from the
    treatment of a target line. *)
Lemma fastForwardBody_SyncError st e st' :
  keyInSync st ->
  fastForwardBody st = ReturnErr (errorSync e) st' <->
  exists st1 targetLineInfo c,
    fastForward_source st = Next st1
    /\ getNextNonEmptyLine (targetCursor st1) = (inl targetLineInfo, c)
    /\ mismatch (set_targetLine st1 c) (LineInfo.Text targetLineInfo)
    /\ errorSync e = syncErrorAt (set_targetLine st1 c) (LineInfo.Text targetLineInfo)
    /\ st' = set_targetLine st1 c.
Proof.
  intros Hk. unfold fastForwardBody. split.
  - destruct (fastForward_source st) as [st1|st1|err st1] eqn:Es; cbn [andThen];
      try discriminate.
    + apply fastForward_source_keyInSync in Es as Hk1; [|exact Hk].
      destruct (getNextNonEmptyLine (targetCursor st1)) as [[tli|err] c] eqn:Et.
      * intros E. exists st1, tli, c. split; [reflexivity|]. split; [exact Et|].
        assert (Hk2 : keyInSync (set_targetLine st1 c)) by exact Hk1.
        destruct (fastForward_line_cases _ tli Hk2)
          as [(_ & E2)|[(_ & _ & E2)|(Hm & E2)]];
          rewrite E in E2; inversion E2; subst.
        repeat split; try assumption; try reflexivity. now destruct Hm. now destruct Hm.
      * destruct (isEndOfDocument err); discriminate.
    + unfold fastForward_source in Es.
      destruct (shouldAdvanceSourceCursor (lastProcessedWasChinese st)); [|discriminate].
      destruct (getNextNonEmptyLine (sourceCursor st)) as [[li|err'] c]; [discriminate|].
      destruct (isEndOfDocument err'); inversion Es; subst; discriminate.
  - intros (st1 & tli & c & Es & Et & Hm & He & ->).
    rewrite Es. cbn [andThen]. rewrite Et.
    apply fastForward_source_keyInSync in Es; [|exact Hk].
    assert (Hk2 : keyInSync (set_targetLine st1 c)) by exact Es.
    destruct (fastForward_line_cases _ tli Hk2)
      as [(Hc & _)|[(_ & Heq & _)|(_ & E2)]].
    + destruct Hm as [Hm _]. congruence.
    + destruct Hm as [_ Hm]. contradiction.
    + rewrite E2. now rewrite He.
Qed.

(** The two loops end with a [SyncError] exactly when, after some number of
    full rounds, the target line read next does not match. *)
Lemma mainLoop_SyncError fuel loopID st e st' :
  keyInSync st ->
  mainLoop fuel loopID st = Some (ReturnErr (errorSync e) st') <->
  exists n stn st1 targetLineInfo c,
    (n < fuel)%nat /\ rounds n loopID st = Some stn
    /\ mainLoop_source stn = Next st1
    /\ getNextNonEmptyLine (targetCursor st1) = (inl targetLineInfo, c)
    /\ mismatch (set_targetLine st1 c) (LineInfo.Text targetLineInfo)
    /\ errorSync e = syncErrorAt (set_targetLine st1 c) (LineInfo.Text targetLineInfo)
    /\ st' = set_targetLine st1 c.
Proof.
  intros Hk. split.
  - intros E. destruct (mainLoop_stops _ _ _ _ E) as (n & stn & Hn & Er & Eb & _).
    apply mainLoopBody_SyncError in Eb; [|eapply rounds_keyInSync; eauto].
    destruct Eb as (st1 & tli & c & Hb). now exists n, stn, st1, tli, c.
  - intros (n & stn & st1 & tli & c & Hn & Er & Hb).
    eapply mainLoop_from_rounds; [exact Er| |discriminate|exact Hn].
    apply mainLoopBody_SyncError; [eapply rounds_keyInSync; eauto|].
    now exists st1, tli, c.
Qed.

Lemma fastForward_loop_SyncError n loopID st e st' :
  keyInSync st ->
  fastForward_loop n loopID st = ReturnErr (errorSync e) st' <->
  exists k stk st1 targetLineInfo c,
    (k < n)%nat /\ fastForwardRounds k st = Some stk
    /\ fastForward_source stk = Next st1
    /\ getNextNonEmptyLine (targetCursor st1) = (inl targetLineInfo, c)
    /\ mismatch (set_targetLine st1 c) (LineInfo.Text targetLineInfo)
    /\ errorSync e = syncErrorAt (set_targetLine st1 c) (LineInfo.Text targetLineInfo)
    /\ st' = set_targetLine st1 c.
Proof.
  intros Hk. split.
  - intros E.
    destruct (fastForward_loop_stops _ _ _ _ E ltac:(discriminate))
      as (k & stk & Hlt & Er & Eb).
    apply fastForwardBody_SyncError in Eb; [|eapply fastForwardRounds_keyInSync; eauto].
    destruct Eb as (st1 & tli & c & Hb). now exists k, stk, st1, tli, c.
  - intros (k & stk & st1 & tli & c & Hlt & Er & Hb).
    eapply fastForward_loop_from_rounds; [exact Er| |discriminate|exact Hlt].
    apply fastForwardBody_SyncError; [eapply fastForwardRounds_keyInSync; eauto|].
    now exists st1, tli, c.
Qed.

(** The iterations of a run are rounds of the fast-forward loop before
    [startLoop] and rounds of the main loop from there on. *)
Lemma runRounds_fastForward n : forall startLoop loopID st,
  loopID + Z.of_nat n <= startLoop ->
  runRounds startLoop n loopID st = fastForwardRounds n st.
Proof.
  induction n as [|n IH]; intros startLoop loopID st H; [reflexivity|].
  cbn [runRounds fastForwardRounds]. unfold roundBody.
  replace (loopID <? startLoop) with true by lia.
  destruct (fastForwardBody st); try reflexivity. apply IH. lia.
Qed.

Lemma runRounds_main n : forall startLoop loopID st,
  startLoop <= loopID -> runRounds startLoop n loopID st = rounds n loopID st.
Proof.
  induction n as [|n IH]; intros startLoop loopID st H; [reflexivity|].
  cbn [runRounds rounds]. unfold roundBody.
  replace (loopID <? startLoop) with false by lia.
  destruct (mainLoopBody loopID st); try reflexivity. apply IH. lia.
Qed.

Lemma runRounds_add n : forall m startLoop loopID st,
  runRounds startLoop (n + m) loopID st
  = match runRounds startLoop n loopID st with
    | Some st' => runRounds startLoop m (loopID + Z.of_nat n) st'
    | None => None
    end.
Proof.
  induction n as [|n IH]; intros m startLoop loopID st.
  - cbn. now rewrite Z.add_0_r.
  - cbn [Nat.add runRounds]. destruct (roundBody startLoop loopID st); try reflexivity.
    rewrite IH. replace (loopID + 1 + Z.of_nat n) with (loopID + Z.of_nat (S n)) by lia.
    reflexivity.
Qed.

(** Where a run stands after [n] iterations: in its fast-forward loop, or
    past it and in its main loop. *)
Lemma runRounds_cases startLoop n st0 stn :
  runRounds startLoop n (firstLoop startLoop) st0 = Some stn ->
  ((n < Z.to_nat (startLoop - 1))%nat /\ fastForwardRounds n st0 = Some stn)
  \/ exists stN,
       (Z.to_nat (startLoop - 1) <= n)%nat
       /\ fastForwardRounds (Z.to_nat (startLoop - 1)) st0 = Some stN
       /\ rounds (n - Z.to_nat (startLoop - 1)) startLoop stN = Some stn.
Proof.
  unfold firstLoop. intros E.
  destruct (startLoop >? 1) eqn:Hsl.
  - destruct (Nat.lt_ge_cases n (Z.to_nat (startLoop - 1))) as [Hlt|Hge].
    + left. split; [exact Hlt|]. rewrite runRounds_fastForward in E by lia. exact E.
    + right. replace n with (Z.to_nat (startLoop - 1) + (n - Z.to_nat (startLoop - 1)))%nat
        in E by lia.
      rewrite runRounds_add, runRounds_fastForward in E by lia.
      destruct (fastForwardRounds (Z.to_nat (startLoop - 1)) st0) as [stN|];
        [|discriminate].
      exists stN. split; [exact Hge|]. split; [reflexivity|].
      rewrite runRounds_main in E by lia.
      replace (1 + Z.of_nat (Z.to_nat (startLoop - 1))) with startLoop in E by lia.
      exact E.
  - right. exists st0. replace (Z.to_nat (startLoop - 1)) with O by lia.
    split; [lia|]. split; [reflexivity|]. rewrite Nat.sub_0_r.
    rewrite runRounds_main in E by lia. exact E.
Qed.

Lemma runRounds_in_fastForward startLoop n st0 :
  (n < Z.to_nat (startLoop - 1))%nat ->
  runRounds startLoop n (firstLoop startLoop) st0 = fastForwardRounds n st0
  /\ forall st, roundSource startLoop (firstLoop startLoop + Z.of_nat n) st
                = fastForward_source st.
Proof.
  intros H. unfold firstLoop, roundSource. replace (startLoop >? 1) with true by lia.
  split; [apply runRounds_fastForward; lia|].
  intros st. now replace (1 + Z.of_nat n <? startLoop) with true by lia.
Qed.

Lemma runRounds_in_mainLoop startLoop m st0 stN :
  fastForwardRounds (Z.to_nat (startLoop - 1)) st0 = Some stN ->
  runRounds startLoop (Z.to_nat (startLoop - 1) + m) (firstLoop startLoop) st0
  = rounds m startLoop stN
  /\ forall st, roundSource startLoop
                  (firstLoop startLoop + Z.of_nat (Z.to_nat (startLoop - 1) + m)) st
                = mainLoop_source st.
Proof.
  intros E. unfold firstLoop, roundSource.
  destruct (startLoop >? 1) eqn:Hsl.
  - split.
    + rewrite runRounds_add, runRounds_fastForward by lia. rewrite E.
      replace (1 + Z.of_nat (Z.to_nat (startLoop - 1))) with startLoop by lia.
      apply runRounds_main. lia.
    + intros st.
      replace (1 + Z.of_nat (Z.to_nat (startLoop - 1) + m) <? startLoop) with false;
        [reflexivity|].
      symmetry. apply Z.ltb_ge. lia.
  - replace (Z.to_nat (startLoop - 1)) with O in * by lia. cbn in E. inversion E; subst.
    split; [apply runRounds_main; lia|].
    intros st. replace (startLoop + Z.of_nat (0 + m) <? startLoop) with false;
      [reflexivity|].
    symmetry. apply Z.ltb_ge. lia.
Qed.

(** A run returns a [SyncError] exactly when, after some number of full
    iterations, fast-forwarded or not, the target line read next does not
    match. *)
Lemma synchronizeDocuments_SyncError fuel sc tc svc startLoop e final :
  synchronizeDocuments fuel sc tc svc startLoop = Returned (Some (errorSync e)) final <->
  exists st0 n stn st1 targetLineInfo c,
    firstSourceLine sc tc = inr st0
    /\ (n < Z.to_nat (startLoop - 1) + fuel)%nat
    /\ runRounds startLoop n (firstLoop startLoop) st0 = Some stn
    /\ roundSource startLoop (firstLoop startLoop + Z.of_nat n) stn = Next st1
    /\ getNextNonEmptyLine (targetCursor st1) = (inl targetLineInfo, c)
    /\ mismatch (set_targetLine st1 c) (LineInfo.Text targetLineInfo)
    /\ errorSync e = syncErrorAt (set_targetLine st1 c) (LineInfo.Text targetLineInfo)
    /\ final = Some (set_targetLine st1 c).
Proof.
  unfold synchronizeDocuments.
  destruct (firstSourceLine sc tc) as [err|st0] eqn:E0.
  { split; [|intros (? & ? & ? & ? & ? & ? & E & _); discriminate].
    intros E. inversion E; subst.
    now apply (firstSourceLine_no_SyncError _ _ _ e) in E0. }
  pose proof (keyInSync_firstSourceLine _ _ _ E0) as Hk0.
  set (k := Z.to_nat (startLoop - 1)).
  assert (Eloop : (if startLoop >? 1 then fastForward_loop k 1 st0 else Next st0)
                  = fastForward_loop k 1 st0).
  { destruct (startLoop >? 1) eqn:Hsl; [reflexivity|].
    subst k. now replace (Z.to_nat (startLoop - 1)) with O by lia. }
  rewrite Eloop. clear Eloop. split.
  - intros E.
    destruct (fastForward_loop k 1 st0) as [stN|stN|err stN] eqn:Eff.
    + apply fastForward_loop_Next in Eff.
      pose proof (fastForwardRounds_keyInSync _ _ _ Hk0 Eff) as HkN.
      assert (Em : exists st', mainLoop fuel startLoop stN
                               = Some (ReturnErr (errorSync e) st')
                               /\ final = Some st').
      { destruct (mainLoop fuel startLoop stN) as [[st1|st1|err st1]|];
          [| | |discriminate].
        - destruct (insertTabs fuel svc (tabsToAddMap st1)) as [r|] eqn:Ei;
            [|discriminate].
          inversion E; subst. now apply insertTabs_no_SyncError in Ei.
        - destruct (insertTabs fuel svc (tabsToAddMap st1)) as [r|] eqn:Ei;
            [|discriminate].
          inversion E; subst. now apply insertTabs_no_SyncError in Ei.
        - inversion E; subst. now exists st1. }
      destruct Em as (st' & Em & ->).
      apply (mainLoop_SyncError _ _ _ _ _ HkN) in Em.
      destruct Em as (m & stn & st1 & tli & c & Hm & Er & Es & Hrest).
      destruct (runRounds_in_mainLoop startLoop m st0 stN Eff) as [Hrun Hsrc].
      exists st0, (k + m)%nat, stn, st1, tli, c.
      split; [reflexivity|]. split; [lia|]. fold k in Hrun, Hsrc.
      split; [now rewrite Hrun|]. split; [now rewrite Hsrc|].
      destruct Hrest as (Ht & Hmis & He & ->).
      split; [exact Ht|]. split; [exact Hmis|]. split; [exact He|reflexivity].
    + discriminate.
    + inversion E; subst.
      apply (fastForward_loop_SyncError _ _ _ _ _ Hk0) in Eff.
      destruct Eff as (n & stn & st1 & tli & c & Hn & Er & Es & Ht & Hmis & He & ->).
      destruct (runRounds_in_fastForward startLoop n st0 Hn) as [Hrun Hsrc].
      exists st0, n, stn, st1, tli, c.
      split; [reflexivity|]. split; [fold k; lia|].
      split; [now rewrite Hrun|]. split; [now rewrite Hsrc|].
      split; [exact Ht|]. split; [exact Hmis|]. split; [exact He|reflexivity].
  - intros (st0' & n & stn & st1 & tli & c & E & Hn & Er & Es & Ht & Hmis & He & ->).
    inversion E; subst st0'. clear E.
    destruct (runRounds_cases _ _ _ _ Er) as [[Hlt Hff]|(stN & Hge & Hff & Hr)].
    + destruct (runRounds_in_fastForward startLoop n st0 Hlt) as [_ Hsrc].
      rewrite Hsrc in Es.
      assert (Eff : fastForward_loop k 1 st0
                    = ReturnErr (errorSync e) (set_targetLine st1 c)).
      { apply (fastForward_loop_SyncError _ _ _ _ _ Hk0).
        now exists n, stn, st1, tli, c. }
      now rewrite Eff.
    + fold k in Hge, Hff, Hr.
      destruct (runRounds_in_mainLoop startLoop (n - k) st0 stN Hff) as [_ Hsrc].
      fold k in Hsrc. replace (k + (n - k))%nat with n in Hsrc by lia.
      rewrite Hsrc in Es.
      pose proof (fastForwardRounds_keyInSync _ _ _ Hk0 Hff) as HkN.
      apply (fastForward_loop_Next k 1) in Hff. rewrite Hff.
      assert (Em : mainLoop fuel startLoop stN
                   = Some (ReturnErr (errorSync e) (set_targetLine st1 c))).
      { apply (mainLoop_SyncError _ _ _ _ _ HkN).
        exists (n - k)%nat, stn, st1, tli, c. split; [lia|].
        split; [exact Hr|]. split; [exact Es|]. split; [exact Ht|].
        split; [exact Hmis|]. split; [exact He|reflexivity]. }
      now rewrite Em.
Qed.

(** C1: a target line raises a [SyncError] exactly when it is neither
    Chinese nor Mixed and its key differs from the key of the current source
    line, in the main loop as in the fast-forward loop; the error carries the
    two line numbers and the two keys, and the locals are left as they were
    when the line was read.  The main loop and the fast-forward loop each end
    with a [SyncError] exactly when, after some number of full rounds, the
    target line read next is such a line.  A run, with or without
    fast-forward, returns a [SyncError] exactly when, after some number of
    its iterations, the target line read next is such a line; it returns
    that error with the locals as they were when the line was read. *)
Theorem C1_SyncError_exactly_on_mismatch :
  (forall loopID st targetLineInfo,
      keyInSync st ->
      let text := LineInfo.Text targetLineInfo in
      (mismatch st text ->
       mainLoop_line loopID st targetLineInfo = ReturnErr (syncErrorAt st text) st
       /\ fastForward_line st targetLineInfo = ReturnErr (syncErrorAt st text) st)
      /\ (~ mismatch st text ->
          (exists st', mainLoop_line loopID st targetLineInfo = Next st')
          /\ (exists st', fastForward_line st targetLineInfo = Next st'))
      /\ (isChineseOrMixed (classifyLineType text) = true -> ~ mismatch st text))
  /\ (forall fuel loopID st e st',
         keyInSync st ->
         (mainLoop fuel loopID st = Some (ReturnErr (errorSync e) st') <->
          exists n stn st1 targetLineInfo c,
            (n < fuel)%nat /\ rounds n loopID st = Some stn
            /\ mainLoop_source stn = Next st1
            /\ getNextNonEmptyLine (targetCursor st1) = (inl targetLineInfo, c)
            /\ mismatch (set_targetLine st1 c) (LineInfo.Text targetLineInfo)
            /\ errorSync e
               = syncErrorAt (set_targetLine st1 c) (LineInfo.Text targetLineInfo)
            /\ st' = set_targetLine st1 c))
  /\ (forall count loopID st e st',
         keyInSync st ->
         (fastForward_loop count loopID st = ReturnErr (errorSync e) st' <->
          exists n stn st1 targetLineInfo c,
            (n < count)%nat /\ fastForwardRounds n st = Some stn
            /\ fastForward_source stn = Next st1
            /\ getNextNonEmptyLine (targetCursor st1) = (inl targetLineInfo, c)
            /\ mismatch (set_targetLine st1 c) (LineInfo.Text targetLineInfo)
            /\ errorSync e
               = syncErrorAt (set_targetLine st1 c) (LineInfo.Text targetLineInfo)
            /\ st' = set_targetLine st1 c))
  /\ (forall fuel source target docsService startLoop e final,
         synchronizeDocuments fuel source target docsService startLoop
         = Returned (Some (errorSync e)) final <->
         exists st0 n stn st1 targetLineInfo c,
           firstSourceLine source target = inr st0
           /\ (n < Z.to_nat (startLoop - 1) + fuel)%nat
           /\ runRounds startLoop n (firstLoop startLoop) st0 = Some stn
           /\ roundSource startLoop (firstLoop startLoop + Z.of_nat n) stn = Next st1
           /\ getNextNonEmptyLine (targetCursor st1) = (inl targetLineInfo, c)
           /\ mismatch (set_targetLine st1 c) (LineInfo.Text targetLineInfo)
           /\ errorSync e
              = syncErrorAt (set_targetLine st1 c) (LineInfo.Text targetLineInfo)
           /\ final = Some (set_targetLine st1 c)).
Proof.
  split; [|split; [|split]].
  - intros loopID st tli Hk text. split; [|split].
    + intros Hm. split.
      * destruct (mainLoop_line_cases loopID st tli Hk)
          as [(Hc & _)|[(_ & Heq & _)|(_ & E)]]; [| |exact E];
          destruct Hm as [Hm1 Hm2]; fold text in Hc || fold text in Heq; congruence.
      * destruct (fastForward_line_cases st tli Hk)
          as [(Hc & _)|[(_ & Heq & _)|(_ & E)]]; [| |exact E];
          destruct Hm as [Hm1 Hm2]; fold text in Hc || fold text in Heq; congruence.
    + intros Hm. split.
      * destruct (mainLoop_line_cases loopID st tli Hk)
          as [(_ & st1 & E & _)|[(_ & _ & st1 & E & _)|(Hm' & _)]];
          [now exists st1|now exists st1|contradiction].
      * destruct (fastForward_line_cases st tli Hk)
          as [(_ & E)|[(_ & _ & E)|(Hm' & _)]];
          [eexists; exact E|eexists; exact E|contradiction].
    + intros Hc [Hm _]. congruence.
  - intros fuel loopID st e st'. apply mainLoop_SyncError.
  - intros n loopID st e st'. apply fastForward_loop_SyncError.
  - intros fuel sc tc svc startLoop e final. apply synchronizeDocuments_SyncError.
Qed.

(** C10: a target line classified Empty has the empty key and is treated
    like an English line: with a source key that is not empty the run stops
    with the [SyncError] of the two keys, and with an empty source key the
    line passes, [lastProcessedWasChinese] is false afterwards, and the next
    round leaves the source where it is. *)
Theorem C10_Empty_line_takes_Primary_branch
        (loopID : Z) (st : locals) (targetLineInfo : LineInfo) :
  keyInSync st ->
  classifyLineType (LineInfo.Text targetLineInfo) = LineTypeEmpty ->
  generateLineKey (LineInfo.Text targetLineInfo) = []
  /\ (sourceKey st <> [] ->
      mainLoop_line loopID st targetLineInfo
      = ReturnErr
          (errorSync {| SyncError.SourceLine := sourceLineNum st;
                        SyncError.TargetLine := targetLineNum st;
                        SyncError.SourceKey := sourceKey st;
                        SyncError.TargetKey := [];
                        SyncError.Message := str "Line content mismatch" |})
          st)
  /\ (sourceKey st = [] ->
      exists st',
        mainLoop_line loopID st targetLineInfo = Next st'
        /\ lastProcessedWasChinese st' = false
        /\ mainLoop_source st' = Next st').
Proof.
  intros Hk Hempty.
  pose proof (classifyLineType_Empty_key _ Hempty) as Hkey.
  split; [exact Hkey|].
  destruct (mainLoop_line_cases loopID st targetLineInfo Hk)
    as [(Hc & _)|[(_ & Heq & st1 & E & Hflag & _)|((_ & Hneq) & E)]].
  - rewrite Hempty in Hc. discriminate.
  - rewrite Hkey in Heq. split; [intros Hne; contradiction|].
    intros _. exists st1. split; [exact E|]. split; [exact Hflag|].
    unfold mainLoop_source, shouldAdvanceSourceCursor. now rewrite Hflag.
  - split.
    + intros _. rewrite E. unfold syncErrorAt. now rewrite Hkey.
    + intros Heq. rewrite Hkey in Hneq. contradiction.
Qed.

End DriverClaims.

(** C10 at work on a source line and a target line of digits and
    punctuation. *)
Lemma C10_Empty_line_witness :
  generateLineKey (tables := unicode.caselessAboveASCII)
                  (LineInfo.Text (lineOfParagraph 6 (str "12.5%"))) = []
  /\ exists st',
      mainLoop_line (tables := unicode.caselessAboveASCII) 1
        (initialLocals (tables := unicode.caselessAboveASCII)
           (lineOfParagraph 1 (str "2024"))
           (newCursor (documentOfLines [])) (newCursor (documentOfLines [])))
        (lineOfParagraph 6 (str "12.5%")) = Next st'
      /\ lastProcessedWasChinese st' = false
      /\ mainLoop_source (tables := unicode.caselessAboveASCII) st' = Next st'.
Proof.
  pose proof (C10_Empty_line_takes_Primary_branch
                (tables := unicode.caselessAboveASCII) 1
                (initialLocals (tables := unicode.caselessAboveASCII)
                   (lineOfParagraph 1 (str "2024"))
                   (newCursor (documentOfLines [])) (newCursor (documentOfLines [])))
                (lineOfParagraph 6 (str "12.5%"))
                (keyInSync_initial _ _ _) eq_refl) as (Hkey & _ & Hpass).
  split; [exact Hkey|]. apply Hpass. reflexivity.
Defined.


(** * Runs of the driver: termination and fast-forward *)

Ltac same_progress a b H :=
  destruct a, b; unfold sameProgress in H; cbn in H;
  decompose [and] H; clear H; subst.

(** Reduces the projections of the locals and their updates. *)
Ltac fields :=
  cbn [sourceCursor targetCursor sourceLineNum targetLineNum previousFeatures
       lastProcessedWasChinese tabsToAddMap sourceLineInfo sourceKey sourceFeatures
       applied set_sourceCursor set_targetCursor set_sourceLine set_targetLine
       set_lastProcessedWasChinese set_previousFeatures set_tabsToAdd
       applyFormattingToRange andThen].

(** Splits on the tests and reads of a loop body. *)
Ltac split_body :=
  try match goal with
      | |- context [Build_locals _ _ _ _ ?p _ _ _ _ _ _] => is_var p; destruct p
      end;
  fields;
  repeat (match goal with
          | |- context [getNextNonEmptyLine ?c] =>
              destruct (getNextNonEmptyLine c) as [[?|?] ?]
          | |- context [if ?c then _ else _] => destruct c
          | |- context [match ?o with Some _ => _ | None => _ end] => destruct o
          end; fields).

Ltac same_calls :=
  first [ exists []; rewrite !app_nil_r; split; reflexivity
        | eexists; split; reflexivity ].

Section DriverRuns.
Context {tables : unicode.CaseTables}.

Lemma sameProgress_refl a : sameProgress a a.
Proof. unfold sameProgress. repeat split. Qed.

Lemma sameProgress_progressOf a b : sameProgress a b -> progressOf a = progressOf b.
Proof.
  intros H. unfold sameProgress in H. decompose [and] H. unfold progressOf. congruence.
Qed.

(** The source part of a round: the main loop on two states of the same
    progress, and the main loop against the fast-forward loop. *)
Lemma mainLoop_source_same a b :
  sameProgress a b ->
  match mainLoop_source a, mainLoop_source b with
  | Next a', Next b' | Break a', Break b' =>
      sameProgress a' b' /\ applied a' = applied a /\ applied b' = applied b
      /\ tabsToAddMap a' = tabsToAddMap a /\ tabsToAddMap b' = tabsToAddMap b
  | ReturnErr e a', ReturnErr e' b' =>
      e = e' /\ sameProgress a' b' /\ applied a' = applied a /\ applied b' = applied b
  | _, _ => False
  end.
Proof.
  intros H. same_progress a b H.
  unfold mainLoop_source, shouldAdvanceSourceCursor. cbn.
  split_body; repeat split.
Qed.

Lemma fastForward_source_follows a b a' :
  sameProgress a b -> mainLoop_source a = Next a' ->
  exists b', fastForward_source b = Next b' /\ sameProgress a' b'
             /\ tabsToAddMap b' = tabsToAddMap b /\ applied b' = applied b.
Proof.
  intros H. same_progress a b H.
  unfold mainLoop_source, fastForward_source, shouldAdvanceSourceCursor. cbn.
  split_body; intros E; inversion E; subst;
    (eexists; split; [reflexivity|]; cbn; repeat split).
Qed.

(** The treatment of a target line. *)
Lemma mainLoop_line_same loopID a b targetLineInfo :
  sameProgress a b ->
  match mainLoop_line loopID a targetLineInfo, mainLoop_line loopID b targetLineInfo with
  | Next a', Next b' =>
      sameProgress a' b'
      /\ exists calls, applied a' = applied a ++ calls /\ applied b' = applied b ++ calls
  | ReturnErr e a', ReturnErr e' b' => e = e' /\ a' = a /\ b' = b
  | _, _ => False
  end.
Proof.
  intros H. same_progress a b H.
  unfold mainLoop_line. cbv zeta. cbn [sourceLineInfo previousFeatures
    lastProcessedWasChinese sourceFeatures sourceLineNum targetLineNum sourceKey].
  split_body; first [ now repeat split | split; [repeat split|same_calls] ].
Qed.

Lemma fastForward_line_follows loopID a b targetLineInfo a' :
  sameProgress a b -> mainLoop_line loopID a targetLineInfo = Next a' ->
  exists b', fastForward_line b targetLineInfo = Next b' /\ sameProgress a' b'
             /\ tabsToAddMap b' = tabsToAddMap b /\ applied b' = applied b.
Proof.
  intros H. same_progress a b H.
  unfold mainLoop_line, fastForward_line. cbv zeta. cbn [sourceLineInfo previousFeatures
    lastProcessedWasChinese sourceFeatures sourceLineNum targetLineNum sourceKey].
  split_body; intros E; inversion E; subst;
    (eexists; split; [reflexivity|]; cbn; repeat split).
Qed.

Lemma set_targetLine_same a b c :
  sameProgress a b -> sameProgress (set_targetLine a c) (set_targetLine b c).
Proof. intros H. same_progress a b H. cbn. repeat split. Qed.

Lemma set_targetCursor_same a b c :
  sameProgress a b -> sameProgress (set_targetCursor a c) (set_targetCursor b c).
Proof. intros H. same_progress a b H. cbn. repeat split. Qed.

Lemma sameProgress_targetCursor a b : sameProgress a b -> targetCursor a = targetCursor b.
Proof. intros H. unfold sameProgress in H. now decompose [and] H. Qed.

(** A full round of the main loop on two states of the same progress: the
    same outcome, the same formatting calls. *)
Lemma mainLoopBody_same loopID a b :
  sameProgress a b ->
  match mainLoopBody loopID a, mainLoopBody loopID b with
  | Next a', Next b' | Break a', Break b' =>
      sameProgress a' b'
      /\ exists calls, applied a' = applied a ++ calls /\ applied b' = applied b ++ calls
  | ReturnErr e a', ReturnErr e' b' =>
      e = e' /\ sameProgress a' b'
      /\ exists calls, applied a' = applied a ++ calls /\ applied b' = applied b ++ calls
  | _, _ => False
  end.
Proof.
  intros H. unfold mainLoopBody.
  pose proof (mainLoop_source_same a b H) as Hs.
  destruct (mainLoop_source a) as [a1|a1|e a1], (mainLoop_source b) as [b1|b1|e' b1];
    try contradiction; cbn [andThen].
  - destruct Hs as (H1 & Ha & Hb & _).
    rewrite <- (sameProgress_targetCursor a1 b1 H1).
    destruct (getNextNonEmptyLine (targetCursor a1)) as [[tli|err] c].
    + pose proof (mainLoop_line_same loopID _ _ tli (set_targetLine_same a1 b1 c H1)) as Hl.
      destruct (mainLoop_line loopID (set_targetLine a1 c) tli) as [a2|a2|e a2],
               (mainLoop_line loopID (set_targetLine b1 c) tli) as [b2|b2|e' b2];
        try contradiction.
      * destruct Hl as (H2 & calls & Ha2 & Hb2). split; [exact H2|].
        exists calls. cbn in Ha2, Hb2. split; congruence.
      * destruct Hl as (-> & -> & ->). split; [reflexivity|].
        split; [now apply set_targetLine_same|].
        exists []. cbn. rewrite !app_nil_r. now split.
    + destruct (isEndOfDocument err).
      * split; [now apply set_targetCursor_same|].
        exists []. cbn. rewrite !app_nil_r. now split.
      * split; [reflexivity|]. split; [now apply set_targetCursor_same|].
        exists []. cbn. rewrite !app_nil_r. now split.
  - destruct Hs as (H1 & Ha & Hb & _). split; [exact H1|].
    exists []. rewrite !app_nil_r. now split.
  - destruct Hs as (-> & H1 & Ha & Hb). split; [reflexivity|]. split; [exact H1|].
    exists []. rewrite !app_nil_r. now split.
Qed.

(** A round the main loop completes is a round the fast-forward loop
    completes, to the same progress, without formatting call and without tab
    recorded. *)
Lemma fastForwardBody_follows loopID a b a' :
  sameProgress a b -> mainLoopBody loopID a = Next a' ->
  exists b', fastForwardBody b = Next b' /\ sameProgress a' b'
             /\ tabsToAddMap b' = tabsToAddMap b /\ applied b' = applied b.
Proof.
  intros H. unfold mainLoopBody, fastForwardBody.
  destruct (mainLoop_source a) as [a1|a1|e a1] eqn:Es; cbn [andThen]; try discriminate.
  destruct (fastForward_source_follows a b a1 H Es) as (b1 & Eb & H1 & Ht & Hap).
  rewrite Eb. cbn [andThen].
  rewrite <- (sameProgress_targetCursor a1 b1 H1).
  destruct (getNextNonEmptyLine (targetCursor a1)) as [[tli|err] c].
  - intros El.
    destruct (fastForward_line_follows loopID _ _ tli a'
                (set_targetLine_same a1 b1 c H1) El) as (b2 & Eb2 & H2 & Ht2 & Hap2).
    exists b2. split; [exact Eb2|]. split; [exact H2|].
    cbn in Ht2, Hap2. split; congruence.
  - destruct (isEndOfDocument err); discriminate.
Qed.

Lemma fastForward_loop_follows n : forall loopID a b aN,
  sameProgress a b -> rounds n loopID a = Some aN ->
  exists bN, fastForward_loop n loopID b = Next bN /\ sameProgress aN bN
             /\ tabsToAddMap bN = tabsToAddMap b /\ applied bN = applied b.
Proof.
  induction n as [|n IH]; intros loopID a b aN H E; cbn [rounds] in E.
  - inversion E; subst. exists b. cbn [fastForward_loop].
    split; [reflexivity|]. split; [exact H|]. split; reflexivity.
  - destruct (mainLoopBody loopID a) as [a1| |] eqn:Eb; try discriminate.
    destruct (fastForwardBody_follows loopID a b a1 H Eb) as (b1 & Ef & H1 & Ht & Hap).
    destruct (IH _ _ _ _ H1 E) as (bN & EN & HN & HtN & HapN).
    exists bN. cbn [fastForward_loop]. rewrite Ef. cbn [andThen].
    split; [exact EN|]. split; [exact HN|]. split; congruence.
Qed.

(** The main loop on two states of the same progress. *)
Lemma mainLoop_same fuel : forall loopID a b,
  sameProgress a b ->
  match mainLoop fuel loopID a, mainLoop fuel loopID b with
  | None, None => True
  | Some (Next a'), Some (Next b') | Some (Break a'), Some (Break b') =>
      sameProgress a' b'
      /\ exists calls, applied a' = applied a ++ calls /\ applied b' = applied b ++ calls
  | Some (ReturnErr e a'), Some (ReturnErr e' b') =>
      e = e' /\ sameProgress a' b'
      /\ exists calls, applied a' = applied a ++ calls /\ applied b' = applied b ++ calls
  | _, _ => False
  end.
Proof.
  induction fuel as [|fuel IH]; intros loopID a b H; [exact I|].
  cbn [mainLoop].
  pose proof (mainLoopBody_same loopID a b H) as Hb.
  destruct (mainLoopBody loopID a) as [a1|a1|e a1], (mainLoopBody loopID b) as [b1|b1|e' b1];
    try contradiction; try exact Hb.
  destruct Hb as (H1 & calls & Ha & Hb).
  specialize (IH (loopID + 1) a1 b1 H1).
  destruct (mainLoop fuel (loopID + 1) a1) as [[a2|a2|e a2]|],
           (mainLoop fuel (loopID + 1) b1) as [[b2|b2|e' b2]|];
    try contradiction; try exact I.
  - destruct IH as (H2 & calls2 & Ha2 & Hb2). split; [exact H2|].
    exists (calls ++ calls2). rewrite Ha2, Hb2, Ha, Hb, !app_assoc. now split.
  - destruct IH as (H2 & calls2 & Ha2 & Hb2). split; [exact H2|].
    exists (calls ++ calls2). rewrite Ha2, Hb2, Ha, Hb, !app_assoc. now split.
  - destruct IH as (-> & H2 & calls2 & Ha2 & Hb2). split; [reflexivity|].
    split; [exact H2|].
    exists (calls ++ calls2). rewrite Ha2, Hb2, Ha, Hb, !app_assoc. now split.
Qed.

End DriverRuns.


Section Termination.
Context {tables : unicode.CaseTables}.

Lemma mainLoop_source_targetCursor st st' :
  mainLoop_source st = Next st' -> targetCursor st' = targetCursor st.
Proof.
  unfold mainLoop_source, shouldAdvanceSourceCursor.
  split_body; intros E; inversion E; reflexivity.
Qed.

Lemma fastForward_source_targetCursor st st' :
  fastForward_source st = Next st' -> targetCursor st' = targetCursor st.
Proof.
  unfold fastForward_source, shouldAdvanceSourceCursor.
  split_body; intros E; inversion E; reflexivity.
Qed.

Lemma mainLoop_line_targetCursor loopID st targetLineInfo st' :
  mainLoop_line loopID st targetLineInfo = Next st' -> targetCursor st' = targetCursor st.
Proof.
  unfold mainLoop_line. cbv zeta. destruct st.
  split_body; intros E; inversion E; reflexivity.
Qed.

Lemma fastForward_line_targetCursor st targetLineInfo st' :
  fastForward_line st targetLineInfo = Next st' -> targetCursor st' = targetCursor st.
Proof.
  unfold fastForward_line. cbv zeta. destruct st.
  split_body; intros E; inversion E; reflexivity.
Qed.

(** Every full round lowers the measure of the target cursor. *)
Lemma mainLoopBody_measure loopID st st' :
  cursorOk (targetCursor st) -> mainLoopBody loopID st = Next st' ->
  cursorOk (targetCursor st')
  /\ (cursorMeasure (targetCursor st') < cursorMeasure (targetCursor st))%nat.
Proof.
  intros Hok. unfold mainLoopBody.
  destruct (mainLoop_source st) as [st1| |] eqn:Es; cbn [andThen]; try discriminate.
  apply mainLoop_source_targetCursor in Es. rewrite <- Es in *.
  destruct (getNextNonEmptyLine (targetCursor st1)) as [[tli|err] c] eqn:Et.
  - intros El. apply mainLoop_line_targetCursor in El. rewrite El.
    now apply getNextNonEmptyLine_decreases in Et.
  - destruct (isEndOfDocument err); discriminate.
Qed.

Lemma fastForwardBody_measure st st' :
  cursorOk (targetCursor st) -> fastForwardBody st = Next st' ->
  cursorOk (targetCursor st')
  /\ (cursorMeasure (targetCursor st') < cursorMeasure (targetCursor st))%nat.
Proof.
  intros Hok. unfold fastForwardBody.
  destruct (fastForward_source st) as [st1| |] eqn:Es; cbn [andThen]; try discriminate.
  apply fastForward_source_targetCursor in Es. rewrite <- Es in *.
  destruct (getNextNonEmptyLine (targetCursor st1)) as [[tli|err] c] eqn:Et.
  - intros El. apply fastForward_line_targetCursor in El. rewrite El.
    now apply getNextNonEmptyLine_decreases in Et.
  - destruct (isEndOfDocument err); discriminate.
Qed.

Lemma fastForward_loop_measure n : forall loopID st st',
  cursorOk (targetCursor st) -> fastForward_loop n loopID st = Next st' ->
  cursorOk (targetCursor st')
  /\ (cursorMeasure (targetCursor st') <= cursorMeasure (targetCursor st))%nat.
Proof.
  induction n as [|n IH]; intros loopID st st' Hok E; cbn [fastForward_loop] in E.
  - inversion E; subst. split; [exact Hok|lia].
  - destruct (fastForwardBody st) as [st1| |] eqn:Eb; cbn [andThen] in E; try discriminate.
    destruct (fastForwardBody_measure _ _ Hok Eb) as [Hok1 Hm1].
    destruct (IH _ _ _ Hok1 E) as [Hok' Hm']. split; [exact Hok'|lia].
Qed.

Lemma rounds_measure n : forall loopID st stn,
  cursorOk (targetCursor st) -> rounds n loopID st = Some stn ->
  cursorOk (targetCursor stn)
  /\ (cursorMeasure (targetCursor stn) <= cursorMeasure (targetCursor st))%nat.
Proof.
  induction n as [|n IH]; intros loopID st stn Hok E; cbn [rounds] in E.
  - inversion E; subst. split; [exact Hok|lia].
  - destruct (mainLoopBody loopID st) as [st1| |] eqn:Eb; try discriminate.
    destruct (mainLoopBody_measure _ _ _ Hok Eb) as [Hok1 Hm1].
    destruct (IH _ _ _ Hok1 E) as [Hok' Hm']. split; [exact Hok'|lia].
Qed.

(** The main loop ends within as many rounds as the measure of the target
    cursor, plus one. *)
Lemma mainLoop_terminates fuel : forall loopID st,
  cursorOk (targetCursor st) -> (cursorMeasure (targetCursor st) < fuel)%nat ->
  exists s, mainLoop fuel loopID st = Some s /\ forall st', s <> Next st'.
Proof.
  induction fuel as [|fuel IH]; intros loopID st Hok Hm; [lia|].
  cbn [mainLoop].
  destruct (mainLoopBody loopID st) as [st1|st1|err st1] eqn:Eb.
  - destruct (mainLoopBody_measure _ _ _ Hok Eb) as [Hok1 Hm1].
    apply IH; [exact Hok1|lia].
  - eexists. split; [reflexivity|discriminate].
  - eexists. split; [reflexivity|discriminate].
Qed.

Lemma mainLoop_more_fuel fuel k loopID st s :
  mainLoop fuel loopID st = Some s -> mainLoop (fuel + k) loopID st = Some s.
Proof.
  intros E. destruct (mainLoop_stops _ _ _ _ E) as (n & stn & Hn & Er & Eb & Hs).
  eapply mainLoop_from_rounds; eauto. lia.
Qed.

Lemma lineStartIndices_loop_terminates fuel : forall cursor m k,
  cursorOk cursor -> (cursorMeasure cursor < fuel)%nat ->
  exists r, lineStartIndices_loop fuel cursor m k = Some r.
Proof.
  induction fuel as [|fuel IH]; intros cursor m k Hok Hm; [lia|].
  cbn [lineStartIndices_loop].
  destruct (getNextNonEmptyLine cursor) as [[li|err] c] eqn:E.
  - apply getNextNonEmptyLine_decreases in E; [|exact Hok].
    destruct E as [Hok' Hm']. apply IH; [exact Hok'|lia].
  - destruct (isEndOfDocument err); eexists; reflexivity.
Qed.

Lemma newCursor_ok doc : cursorOk (newCursor doc).
Proof. unfold cursorOk, newCursor. cbn. lia. Qed.

Lemma insertTabs_terminates fuel docsService m :
  (tabsFuel docsService <= fuel)%nat -> exists r, insertTabs fuel docsService m = Some r.
Proof.
  unfold tabsFuel, insertTabs. intros Hf.
  destruct (len m >? 0); [|eexists; reflexivity].
  destruct (Documents_Get docsService) as [doc|err]; [|eexists; reflexivity].
  fold (newCursor doc).
  destruct (lineStartIndices_loop_terminates fuel (newCursor doc) [] 1
              (newCursor_ok doc) ltac:(lia)) as (r & ->).
  destruct r as [err|[starts cur]]; [eexists; reflexivity|].
  destruct (len _ >? 0); [|eexists; reflexivity].
  destruct (Documents_BatchUpdate docsService _); eexists; reflexivity.
Qed.

Lemma firstSourceLine_targetCursor sc tc st :
  firstSourceLine sc tc = inr st -> targetCursor st = tc /\ applied st = [].
Proof.
  unfold firstSourceLine.
  destruct (getNextNonEmptyLine sc) as [[li|err] c]; intros E; inversion E.
  split; reflexivity.
Qed.

(** Every run over two documents returns, given fuel enough; the bound
    only depends on the two target documents read. *)
Theorem synchronizeDocuments_returns
        (sourceDoc targetDoc : docs.Document) (docsService : Service) (startLoop : Z) :
  forall fuel,
    (S (cursorMeasure (newCursor targetDoc)) + tabsFuel docsService <= fuel)%nat ->
    exists err final,
      synchronizeDocuments fuel (newCursor sourceDoc) (newCursor targetDoc)
                           docsService startLoop
      = Returned err final.
Proof.
  intros fuel Hfuel. unfold synchronizeDocuments.
  destruct (firstSourceLine (newCursor sourceDoc) (newCursor targetDoc)) as [err|st0] eqn:E0;
    [eexists _, _; reflexivity|].
  apply firstSourceLine_targetCursor in E0. destruct E0 as [Htc _].
  assert (Hok0 : cursorOk (targetCursor st0)) by (rewrite Htc; apply newCursor_ok).
  assert (Hstart : (exists st,
             (if startLoop >? 1
              then fastForward_loop (Z.to_nat (startLoop - 1)) 1 st0 else Next st0) = Next st
             /\ cursorOk (targetCursor st)
             /\ (cursorMeasure (targetCursor st) <= cursorMeasure (targetCursor st0))%nat)
          \/ forall st,
             (if startLoop >? 1
              then fastForward_loop (Z.to_nat (startLoop - 1)) 1 st0 else Next st0) <> Next st).
  { destruct (if startLoop >? 1
              then fastForward_loop (Z.to_nat (startLoop - 1)) 1 st0 else Next st0)
      as [st| |] eqn:Ef; [left|right; discriminate|right; discriminate].
    exists st. split; [reflexivity|].
    destruct (startLoop >? 1).
    - now apply fastForward_loop_measure in Ef.
    - inversion Ef; subst. split; [exact Hok0|lia]. }
  destruct Hstart as [(st & -> & Hok & Hm)|Hstop].
  - destruct (mainLoop_terminates fuel startLoop st Hok ltac:(rewrite Htc in Hm; lia))
      as (s & -> & Hs).
    destruct s as [st'|st'|err st']; [| |eexists _, _; reflexivity];
      destruct (insertTabs_terminates fuel docsService (tabsToAddMap st') ltac:(lia))
        as (r & ->); eexists _, _; reflexivity.
  - destruct (if startLoop >? 1
              then fastForward_loop (Z.to_nat (startLoop - 1)) 1 st0 else Next st0)
      as [st| |]; [now contradiction (Hstop st)|eexists _, _; reflexivity..].
Qed.

(** C4: if the run from iteration 1 gets through its first N - 1 rounds,
    then, with fuel enough, the run that fast-forwards to iteration N and the
    run from iteration 1 both return, with the same
    [lastProcessedWasChinese] and the same source and target line numbers,
    and the formatting calls of the run from iteration 1 are those of its
    first N - 1 rounds followed by the calls of the fast-forwarded run. *)
Theorem C4_fast_forward_same_progress
        (sourceDoc targetDoc : docs.Document) (docsService : Service)
        (N : Z) (st0 stN : locals) :
  N > 1 ->
  firstSourceLine (newCursor sourceDoc) (newCursor targetDoc) = inr st0 ->
  rounds (Z.to_nat (N - 1)) 1 st0 = Some stN ->
  forall fuel,
    (Z.to_nat (N - 1) + S (cursorMeasure (newCursor targetDoc)) + tabsFuel docsService
     <= fuel)%nat ->
    exists err err' final final',
      synchronizeDocuments fuel (newCursor sourceDoc) (newCursor targetDoc) docsService N
      = Returned err (Some final)
      /\ synchronizeDocuments fuel (newCursor sourceDoc) (newCursor targetDoc) docsService 1
         = Returned err' (Some final')
      /\ progressOf final = progressOf final'
      /\ applied final' = applied stN ++ applied final.
Proof.
  intros HN E0 Er fuel Hfuel. unfold synchronizeDocuments. rewrite E0.
  replace (N >? 1) with true by lia. replace (1 >? 1) with false by reflexivity.
  set (n := Z.to_nat (N - 1)) in *.
  destruct (firstSourceLine_targetCursor _ _ _ E0) as [Htc Happ0].
  assert (Hok0 : cursorOk (targetCursor st0)) by (rewrite Htc; apply newCursor_ok).
  destruct (fastForward_loop_follows n 1 st0 st0 stN (sameProgress_refl st0) Er)
    as (bN & -> & Hsame & _ & HappN).
  destruct (rounds_measure _ _ _ _ Hok0 Er) as [HokN HmN]. rewrite Htc in HmN.
  assert (E1 : mainLoop fuel 1 st0 = mainLoop (fuel - n) N stN).
  { replace fuel with (n + (fuel - n))%nat at 1 by lia.
    rewrite (mainLoop_rounds n (fuel - n) 1 st0 stN Er). f_equal. lia. }
  rewrite E1.
  destruct (mainLoop_terminates (fuel - n) N stN HokN ltac:(lia)) as (sa & Ea & Hsa).
  pose proof (mainLoop_same (fuel - n) N stN bN Hsame) as Hrel. rewrite Ea in Hrel.
  destruct (mainLoop (fuel - n) N bN) as [sb|] eqn:Eb;
    [|destruct sa; contradiction].
  apply (mainLoop_more_fuel _ n) in Eb.
  replace (fuel - n + n)%nat with fuel in Eb by lia. rewrite Eb, Ea.
  destruct sa as [a'|a'|e a'], sb as [b'|b'|e' b']; try contradiction.
  - now contradiction (Hsa a').
  - destruct Hrel as (Hfin & calls & Ha & Hb).
    destruct (insertTabs_terminates fuel docsService (tabsToAddMap b') ltac:(lia))
      as (r & ->).
    destruct (insertTabs_terminates fuel docsService (tabsToAddMap a') ltac:(lia))
      as (r' & ->).
    exists r, r', b', a'. repeat split.
    + symmetry. now apply sameProgress_progressOf.
    + rewrite Ha, Hb, HappN, Happ0. reflexivity.
  - destruct Hrel as (-> & Hfin & calls & Ha & Hb).
    exists (Some e'), (Some e'), b', a'. repeat split.
    + symmetry. now apply sameProgress_progressOf.
    + rewrite Ha, Hb, HappN, Happ0. reflexivity.
Qed.

End Termination.


Section ExampleRun.
Context {tables : unicode.CaseTables}.

(** The run over the example documents, round by round: two full rounds,
    then the source runs out in the third and the loop is left. *)
Lemma example_rounds :
  exists st0 st1 st2 st3,
    firstSourceLine exampleSource exampleTarget = inr st0
    /\ mainLoopBody 1 st0 = Next st1
    /\ mainLoopBody 2 st1 = Next st2
    /\ mainLoopBody 3 st2 = Break st3
    /\ mainLoop_source st2 = Break st3.
Proof.
  do 4 eexists.
  split; [vm_compute; reflexivity|].
  split; [vm_compute; reflexivity|].
  split; [vm_compute; reflexivity|].
  split; vm_compute; reflexivity.
Qed.

Lemma example_run_returns_nil (fuel : nat) (docsService : Service) :
  exists final,
    synchronizeDocuments (3 + fuel) exampleSource exampleTarget docsService 1
    = Returned None (Some final).
Proof. eexists. vm_compute. reflexivity. Qed.

Lemma example_run_no_SyncError (fuel : nat) (docsService : Service) e final :
  synchronizeDocuments fuel exampleSource exampleTarget docsService 1
  <> Returned (Some (errorSync e)) final.
Proof.
  destruct fuel as [|[|[|fuel]]]; vm_compute; discriminate.
Qed.

(** C2 (as the program runs): over the source of one line and the target of
    three, the first target line is matched against the first source line
    without advancing the source cursor; the second target line is Chinese
    and sets the advance flag; in the third round the source cursor is
    advanced, reports the end of the document, and the loop is left before
    the third target line is read: the run returns no error, with source
    line number 1, target line number 2 and the flag still set. *)
Theorem C2_example_run_ends_without_error (fuel : nat) (docsService : Service) :
  exists st0 st1 st2 st3 endOfSource,
    firstSourceLine exampleSource exampleTarget = inr st0
    /\ lastProcessedWasChinese st0 = false
    /\ mainLoopBody 1 st0 = Next st1
    /\ sourceCursor st1 = sourceCursor st0
    /\ sourceKey st1 = generateLineKey (nth 0 exampleTargetLines [])
    /\ lastProcessedWasChinese st1 = false
    /\ classifyLineType (nth 1 exampleTargetLines []) = LineTypeChinese
    /\ mainLoopBody 2 st1 = Next st2
    /\ lastProcessedWasChinese st2 = true
    /\ fst (getNextNonEmptyLine (sourceCursor st2)) = inr endOfSource
    /\ isEndOfDocument endOfSource = true
    /\ mainLoopBody 3 st2 = Break st3
    /\ targetCursor st3 = targetCursor st2
    /\ sourceLineNum st3 = 1
    /\ targetLineNum st3 = 2
    /\ lastProcessedWasChinese st3 = true
    /\ synchronizeDocuments (3 + fuel) exampleSource exampleTarget docsService 1
       = Returned None (Some st3).
Proof.
  do 5 eexists.
  split; [vm_compute; reflexivity|].
  repeat (split; [vm_compute; reflexivity|]).
  vm_compute; reflexivity.
Qed.

End ExampleRun.

(** C2 (as stated): no amount of fuel makes the run over the example
    documents end with a [SyncError]. *)
Lemma C2_example_run_raises_no_SyncError :
  ~ (exists (fuel : nat) (e : SyncError) (final : option locals),
        synchronizeDocuments (tables := unicode.caselessAboveASCII) fuel
                             exampleSource exampleTarget idleService 1
        = Returned (Some (errorSync e)) final).
Proof.
  intros (fuel & e & final & H).
  exact (example_run_no_SyncError (tables := unicode.caselessAboveASCII) _ _ _ _ H).
Qed.

(** C4 at work: a source of two lines against a target of four, resumed at
    iteration 3. *)
Lemma C4_fast_forward_witness :
  exists err err' final final',
    synchronizeDocuments (tables := unicode.caselessAboveASCII) 20
      (newCursor (documentOfLines [str "Title: Jesus Christ, the Same"; str "2. Second Point"]))
      (newCursor (documentOfLines [str "Title: Jesus Christ, the Same"; str "耶稣基督";
                                   str "2. second point"; str "第二点"]))
      idleService 3
    = Returned err (Some final)
    /\ synchronizeDocuments (tables := unicode.caselessAboveASCII) 20
      (newCursor (documentOfLines [str "Title: Jesus Christ, the Same"; str "2. Second Point"]))
      (newCursor (documentOfLines [str "Title: Jesus Christ, the Same"; str "耶稣基督";
                                   str "2. second point"; str "第二点"]))
      idleService 1
    = Returned err' (Some final')
    /\ progressOf final = progressOf final'
    /\ exists before : list FormatCall,
        List.length before = 2%nat /\ applied final' = before ++ applied final.
Proof.
  destruct (C4_fast_forward_same_progress (tables := unicode.caselessAboveASCII)
              (documentOfLines [str "Title: Jesus Christ, the Same"; str "2. Second Point"])
              (documentOfLines [str "Title: Jesus Christ, the Same"; str "耶稣基督";
                                str "2. second point"; str "第二点"])
              idleService 3 _ _
              ltac:(lia) ltac:(vm_compute; reflexivity) ltac:(vm_compute; reflexivity)
              20%nat ltac:(vm_compute; lia))
    as (err & err' & final & final' & H1 & H2 & H3 & H4).
  exists err, err', final, final'. repeat split; try assumption.
  eexists. split; [|exact H4]. vm_compute. reflexivity.
Defined.


(** * The statements at work on concrete lines and documents *)

(** C1 at work: a run told to fast-forward to iteration 3, over a target
    whose first line reads differently from the source line, returns from
    its first iteration with the [SyncError] of line 1 against line 1 and
    the two keys. *)
Lemma C1_SyncError_witness :
  exists st',
    synchronizeDocuments (tables := unicode.caselessAboveASCII) 0
      (newCursor (documentOfLines [str "Title: Jesus Christ, the Same"]))
      (newCursor (documentOfLines [str "Title: Jesus Christ, the Lord"; str "耶稣基督"]))
      idleService 3
    = Returned
        (Some (errorSync {| SyncError.SourceLine := 1;
                            SyncError.TargetLine := 1;
                            SyncError.SourceKey := str "title:jesuschrist,thesame";
                            SyncError.TargetKey := str "title:jesuschrist,thelord";
                            SyncError.Message := str "Line content mismatch" |}))
        (Some st').
Proof.
  eexists.
  apply (proj2 (proj2 (proj2 (proj2 (C1_SyncError_exactly_on_mismatch
                                       (tables := unicode.caselessAboveASCII))))
                 0%nat _ _ idleService 3 _ _)).
  eexists. exists 0%nat. do 4 eexists.
  split; [vm_compute; reflexivity|]. split; [vm_compute; lia|].
  split; [vm_compute; reflexivity|]. split; [vm_compute; reflexivity|].
  split; [vm_compute; reflexivity|].
  split; [split; [vm_compute; reflexivity|vm_compute; discriminate]|].
  split; [vm_compute; reflexivity|reflexivity].
Defined.

(** C5 at work: a line of digits and punctuation is Empty. *)
Lemma C5_classification_witness :
  classifyLineType (tables := unicode.caselessAboveASCII) (str "12.5%") = LineTypeEmpty.
Proof.
  apply (proj2 (C5_classification (tables := unicode.caselessAboveASCII) (str "12.5%"))).
  intros r Hr. vm_compute in Hr.
  repeat (destruct Hr as [<-|Hr]; [split; reflexivity|]). contradiction.
Defined.

(** C6 at work: a line without ASCII letter has the empty key. *)
Lemma C6_normalize_witness :
  generateLineKey (tables := unicode.caselessAboveASCII) (str "遗产浸信会 2024") = [].
Proof.
  apply (proj1 (C6_normalize (tables := unicode.caselessAboveASCII) (str "遗产浸信会 2024"))).
  intros r Hr. vm_compute in Hr.
  repeat (destruct Hr as [<-|Hr]; [reflexivity|]). contradiction.
Defined.

(** C8 at work: a Chinese target line under a previous snapshot follows the
    previous style and gets a spacer, though the keys differ. *)
Lemma C8_decision_fields_witness :
  let previous :=
    extractLineFeatures (LineInfo.Element (lineOfParagraph 1 (str "Pastor Alan Fong")))
                        (LineInfo.TextRun (lineOfParagraph 1 (str "Pastor Alan Fong")))
                        (str "Pastor Alan Fong") in
  let d := AnalyzeLineMatch (tables := unicode.caselessAboveASCII)
             (str "Pastor Alan Fong") (str "牧师 Alan Fong") (Some previous) false in
  MatchDecision.ShouldFollowPrevStyle d = true
  /\ MatchDecision.ShouldAddEmptyLine d = true.
Proof.
  cbv zeta.
  apply (proj2 (proj2 (proj2 (C8_decision_fields
                                (tables := unicode.caselessAboveASCII)
                                (str "Pastor Alan Fong") (str "牧师 Alan Fong")
                                (Some _) false)))).
  - exists 0x7267. split; [vm_compute; tauto|lia].
  - discriminate.
Defined.

(** C9 at work: an English line against itself. *)
Lemma C9_identical_texts_witness :
  let d := AnalyzeLineMatch (tables := unicode.caselessAboveASCII)
             (str "Heritage Baptist Church") (str "Heritage Baptist Church") None true in
  MatchDecision.LinesMatch d = true
  /\ MatchDecision.ShouldFollowPrevStyle d = false
  /\ MatchDecision.ShouldAddEmptyLine d = false
  /\ MatchDecision.LineType d = LineTypeEnglish.
Proof.
  cbv zeta.
  destruct (C9_identical_texts (tables := unicode.caselessAboveASCII)
              (str "Heritage Baptist Church") None true) as (Hm & Hrest).
  split; [exact Hm|].
  destruct Hrest as (Hf & Hs & Ht).
  - intros r Hr. vm_compute in Hr.
    repeat (destruct Hr as [<-|Hr]; [reflexivity|]). contradiction.
  - split; [exact Hf|]. split; [exact Hs|]. apply Ht. vm_compute. discriminate.
Defined.


(** * More about the matcher *)

Lemma fromFirstLetter_nil_iff rs :
  fromFirstLetter rs = [] <-> forall r, In r rs -> isEnglishLetter r = false.
Proof.
  split; [|apply fromFirstLetter_none].
  induction rs as [|a rs IH]; intros E r Hr; [contradiction|].
  cbn [fromFirstLetter] in E. destruct (isEnglishLetter a) eqn:Ha; [discriminate|].
  destruct Hr as [<-|Hr]; [exact Ha|now apply IH].
Qed.

Lemma encodeRunes_nil_iff rs : encodeRunes rs = [] <-> rs = [].
Proof.
  split; [|now intros ->].
  destruct rs as [|r rs]; [reflexivity|].
  rewrite encodeRunes_cons. intros E. apply app_eq_nil in E. destruct E as [E _].
  now apply AppendRune_nonempty in E.
Qed.

Lemma foldCase_period r : foldCase r = 46 <-> r = 46.
Proof.
  unfold foldCase. destruct ((65 <=? r) && (r <=? 90)) eqn:E; [|tauto].
  apply andb_true_iff in E. lia.
Qed.

(** The encoding of an integer that is no rune of Unicode is that of
    [utf8.RuneError]. *)
Lemma AppendRune_invalid r :
  0 <= r < 2147483648 -> ~ validRune r ->
  utf8.AppendRune [] r = utf8.AppendRune [] utf8.RuneError.
Proof.
  intros Hr Hinv. unfold validRune in Hinv.
  unfold utf8.AppendRune at 1. unfold utf8.appendRuneNonASCII, uint32.
  rewrite Z.mod_small by lia.
  unfold utf8.rune1Max, utf8.rune2Max, utf8.rune3Max, utf8.MaxRune,
    utf8.surrogateMin, utf8.surrogateMax.
  destruct (r <=? 127) eqn:H1; [lia|].
  destruct (r <=? 2047) eqn:H2; [lia|].
  destruct ((1114111 <? r) || (55296 <=? r) && (r <=? 57343)) eqn:H3; [reflexivity|].
  apply orb_false_iff in H3. destruct H3 as [H3 H4].
  apply andb_false_iff in H4. exfalso. apply Hinv. lia.
Qed.

(** The bytes of an encoded rune: the rune itself when it is ASCII, bytes
    from 0x80 up otherwise. *)
Lemma AppendRune_bytes r :
  0 <= r < 2147483648 ->
  (r < 0x80 /\ utf8.AppendRune [] r = [byte_of r] /\ byteZ (byte_of r) = r)
  \/ (0x80 <= r /\ Forall (fun b => 0x80 <= byteZ b) (utf8.AppendRune [] r)).
Proof.
  intros Hr. destruct (Z.lt_ge_cases r 0x80) as [Hlo|Hhi].
  - left. split; [exact Hlo|]. split; [apply AppendRune_ascii; lia|].
    rewrite byteZ_byte_of. apply Z.mod_small. lia.
  - right. split; [exact Hhi|].
    assert (Hv : forall v, validRune v -> 0x80 <= v ->
                           Forall (fun b => 0x80 <= byteZ b) (utf8.AppendRune [] v)).
    { intros v Hval Hge. pose proof (AppendRune_ValidSeq v [] Hval) as HV.
      rewrite app_nil_r in HV. pose proof (ValidSeq_rune _ _ _ HV) as [_ Hw].
      remember (utf8.AppendRune [] v) as bs eqn:Ebs. clear Ebs.
      remember (len bs) as w eqn:Ew.
      assert (Hnil : forall (x : byte) (s : gostring), len (x :: s) <= 1 -> s = []).
      { intros x s Hk. rewrite len_cons in Hk. destruct s; [reflexivity|].
        rewrite len_cons in Hk. pose proof (len_nonneg s). lia. }
      inversion HV as [b s Hb Es Er Ew'|b0 b1 s H0 H1 Es Er Ew'
                       |b0 b1 b2 s H0 H1 _ _ H2 Es Er Ew'
                       |b0 b1 b2 b3 s H0 H1 _ _ H2 H3 Es Er Ew']; subst bs w.
      - lia.
      - assert (Hs : s = []) by (apply (Hnil b1 s); rewrite !len_cons in *; lia).
        subst s. repeat constructor; lia.
      - assert (Hs : s = []) by (apply (Hnil b2 s); rewrite !len_cons in *; lia).
        subst s. repeat constructor; lia.
      - assert (Hs : s = []) by (apply (Hnil b3 s); rewrite !len_cons in *; lia).
        subst s. repeat constructor; lia. }
    assert (Hdec : validRune r \/ ~ validRune r) by (unfold validRune; lia).
    destruct Hdec as [Hval|Hinv]; [now apply Hv|].
    rewrite (AppendRune_invalid r Hr Hinv).
    apply Hv; [apply RuneError_valid|unfold utf8.RuneError; lia].
Qed.

Section MatcherMore.
Context {tables : unicode.CaseTables}.

(** The test of the trimmed text in [classifyLineType] never decides: the
    line type is given by whether the text has a character in
    U+4E00..U+9FFF and whether its key is empty. *)
Theorem classifyLineType_by_two_facts (text : gostring) :
  (classifyLineType text = LineTypeEmpty
   <-> containsChinese text = false /\ generateLineKey text = [])
  /\ (classifyLineType text = LineTypeEnglish
      <-> containsChinese text = false /\ generateLineKey text <> [])
  /\ (classifyLineType text = LineTypeChinese
      <-> containsChinese text = true /\ generateLineKey text = [])
  /\ (classifyLineType text = LineTypeMixed
      <-> containsChinese text = true /\ generateLineKey text <> []).
Proof.
  rewrite classifyLineType_spec, <- containsChinese_runes.
  destruct (gostring_eqb (strings.TrimSpace text) []) eqn:Ht.
  - apply gostring_eqb_eq in Ht.
    rewrite (TrimSpace_nil_containsChinese _ Ht), (TrimSpace_nil_key _ Ht).
    cbn. intuition (discriminate || congruence).
  - destruct (containsChinese text);
      destruct (gostring_eqb (generateLineKey text) []) eqn:Hk; cbn;
      [apply gostring_eqb_eq in Hk|apply gostring_eqb_neq in Hk
      |apply gostring_eqb_eq in Hk|apply gostring_eqb_neq in Hk];
      intuition (discriminate || congruence).
Qed.

(** On a text whose characters above ASCII have no other lower case, the
    key is empty in two cases only: the text has no ASCII letter, or what is
    left of it from the first ASCII letter on, blanks removed, is that letter
    and a period. *)
Theorem generateLineKey_empty_iff (text : gostring) :
  (forall r, In r (runesOf text) -> 0x80 <= r -> unicode.ToLower r = r) ->
  (generateLineKey text = []
   <-> (forall r, In r (runesOf text) -> isEnglishLetter r = false)
       \/ exists c, List.filter notBlank (fromFirstLetter (runesOf text)) = [c; 46]).
Proof.
  intros Hfix. rewrite generateLineKey_runes, encodeRunes_nil_iff.
  unfold normalize_spec.
  rewrite lowerRunes_caseless;
    [|apply Forall_filter, fromFirstLetter_valid, runesOf_valid
     |intros r Hr; apply Hfix; apply filter_In in Hr; destruct Hr as [Hr _];
      now apply fromFirstLetter_In].
  rewrite <- fromFirstLetter_nil_iff.
  destruct (fromFirstLetter_head (runesOf text)) as [E|(c & rest & E & Hc)].
  - rewrite E. cbn. split; [now left|reflexivity].
  - rewrite E. cbn [List.filter]. rewrite (letter_notBlank c Hc).
    destruct (List.filter notBlank rest) as [|second rest'] eqn:Er; cbn.
    + split; [discriminate|]. intros [H|(c' & H)]; discriminate.
    + destruct (foldCase second =? 46) eqn:Es.
      * apply Z.eqb_eq in Es. apply (proj1 (foldCase_period _)) in Es. subst second.
        split.
        -- intros H. apply map_eq_nil in H. subst rest'. right. now exists c.
        -- intros [H|(c' & H)]; [discriminate|]. now inversion H.
      * apply Z.eqb_neq in Es. split; [discriminate|].
        intros [H|(c' & H)]; [discriminate|]. inversion H; subst.
        now contradiction Es.
Qed.

(** No byte of a key is a space, a tab, a newline, a carriage return or an
    upper-case ASCII letter, when lower-casing turns no character above
    ASCII into one of these. *)
Theorem generateLineKey_no_blank_no_upper (text : gostring) :
  (forall r, validRune r -> 0x80 <= r ->
             notBlank (unicode.ToLower r) = true
             /\ ~ (65 <= unicode.ToLower r <= 90)) ->
  Forall (fun b => notBlank (byteZ b) = true /\ ~ (65 <= byteZ b <= 90))
         (generateLineKey text).
Proof.
  intros Htab. rewrite generateLineKey_runes. unfold normalize_spec.
  set (F := List.filter notBlank (fromFirstLetter (runesOf text))).
  assert (HF : Forall (fun r => validRune r /\ notBlank r = true) F).
  { apply Forall_forall. intros r Hr. unfold F in Hr. apply filter_In in Hr.
    destruct Hr as [Hr Hb]. split; [|exact Hb].
    apply fromFirstLetter_In in Hr.
    exact (proj1 (Forall_forall _ _) (runesOf_valid text) r Hr). }
  assert (HL : Forall (fun r => 0 <= r < 2147483648
                                /\ notBlank r = true /\ ~ (65 <= r <= 90))
                      (lowerRunes F)).
  { clear -HF Htab. induction HF as [|r F [Hv Hb] _ IH]; [constructor|].
    change (r :: F) with ([r] ++ F). rewrite lowerRunes_app.
    apply Forall_app. split; [|exact IH].
    pose proof (lowerRunes_bounds [r] (Forall_cons _ Hv (Forall_nil _))) as Hbd.
    unfold lowerRunes in *. cbn [flat_map] in *. rewrite app_nil_r in *.
    destruct (unicode.ToLower r >=? 0) eqn:Hs; [|constructor].
    constructor; [|constructor]. inversion Hbd as [|? ? Hb0 _]; subst.
    split; [exact Hb0|].
    destruct (Z.lt_ge_cases r 0x80) as [Hlo|Hhi].
    - destruct Hv as [Hv _].
      destruct (ToLower_ascii r ltac:(lia)) as [-> _].
      unfold foldCase, notBlank in *.
      destruct ((65 <=? r) && (r <=? 90)) eqn:Eu.
      + apply andb_true_iff in Eu. split; [|lia].
        repeat (apply andb_true_iff; split); apply negb_true_iff, Z.eqb_neq; lia.
      + split; [exact Hb|]. apply andb_false_iff in Eu. lia.
    - now apply Htab. }
  assert (HD : forall L, Forall (fun r => 0 <= r < 2147483648
                                          /\ notBlank r = true /\ ~ (65 <= r <= 90)) L ->
                         Forall (fun r => 0 <= r < 2147483648
                                          /\ notBlank r = true /\ ~ (65 <= r <= 90))
                                (dropEnumerationPrefix L)).
  { intros L HLL. destruct L as [|a [|b L']]; cbn; try exact HLL.
    destruct (b =? 46); [|exact HLL].
    inversion HLL as [|? ? _ H1]; subst. now inversion H1. }
  specialize (HD _ HL). clear HL HF. induction HD as [|r L [Hr [Hb Hu]] _ IH]; [constructor|].
  rewrite encodeRunes_cons. apply Forall_app. split; [|exact IH].
  destruct (AppendRune_bytes r Hr) as [(Hlo & -> & Hbyte)|(Hhi & Hall)].
  - constructor; [|constructor]. rewrite Hbyte. now split.
  - eapply Forall_impl; [|exact Hall]. cbn. intros b Hge.
    unfold notBlank. split; [|lia].
    repeat (apply andb_true_iff; split); apply negb_true_iff, Z.eqb_neq; lia.
Qed.

(** A text that is the UTF-8 encoding of characters contains Chinese
    exactly when one of the characters lies in U+4E00..U+9FFF. *)
Theorem containsChinese_encodeRunes (chars : list rune) :
  Forall validRune chars ->
  containsChinese (encodeRunes chars) = existsb isCJK chars.
Proof.
  intros Hv. now rewrite containsChinese_runes, runesOf_encodeRunes.
Qed.

(** [GetLineMatchingStrategy] never answers "unknown"; it answers
    "chinese_translation" or "mixed_content" exactly for the texts with a
    character in U+4E00..U+9FFF. *)
Theorem GetLineMatchingStrategy_known (targetText : gostring) :
  GetLineMatchingStrategy targetText <> str "unknown"
  /\ (containsChinese targetText = true
      <-> GetLineMatchingStrategy targetText = str "chinese_translation"
          \/ GetLineMatchingStrategy targetText = str "mixed_content").
Proof.
  rewrite <- classifyLineType_ChineseOrMixed. unfold GetLineMatchingStrategy. cbv zeta.
  destruct (classifyLineType targetText); cbn; split; try discriminate;
    split; intros H; try discriminate; try tauto;
    destruct H as [H|H]; discriminate.
Qed.

End MatcherMore.


(** * The first character of a trimmed text *)

(** A string cut short decodes at its head as the whole string does, or to
    [utf8.RuneError]. *)
Lemma decode_firstn (v : gostring) (k : nat) r w :
  utf8.DecodeRuneInString (firstn k v) = (r, w) ->
  r <> utf8.RuneError ->
  utf8.DecodeRuneInString v = (r, w).
Proof.
  intros E Hr. rewrite <- (firstn_skipn k v). now apply decode_app.
Qed.

Lemma IsSpace_notBlank r : unicode.IsSpace r = false -> notBlank r = true.
Proof.
  intros H. unfold notBlank.
  assert (Hs : forall c, r = c -> unicode.IsSpace c = false) by (intros c <-; exact H).
  repeat (apply andb_true_iff; split); apply negb_true_iff, Z.eqb_neq;
    intros E; specialize (Hs _ E); discriminate.
Qed.

(** What [trimStop] returns is the front of the string it scans. *)
Lemma trimStop_prefix rl : exists k, strings.trimStop rl = firstn k (rev rl).
Proof.
  induction rl as [|x rl [k IH]].
  - exists O. reflexivity.
  - cbn [strings.trimStop].
    destruct (byteZ x >=? utf8.RuneSelf).
    + unfold strings.TrimRightFunc. eexists. reflexivity.
    + destruct (negb (strings.asciiSpace (byteZ x))).
      * exists (List.length (rev (x :: rl))). now rewrite firstn_all.
      * rewrite IH. cbn [rev]. exists (Nat.min k (List.length (rev rl))).
        rewrite firstn_app.
        destruct (Nat.le_gt_cases k (List.length (rev rl))) as [Hle|Hgt].
        -- rewrite Nat.min_l by exact Hle.
           replace (k - List.length (rev rl))%nat with O by lia.
           cbn. now rewrite app_nil_r.
        -- rewrite Nat.min_r by lia. rewrite !firstn_all2 by lia.
           replace (List.length (rev rl) - List.length (rev rl))%nat with O by lia.
           cbn. now rewrite app_nil_r.
Qed.

(** The trimmed text is empty, or it begins with a character that is no
    white space; a first character that is not [utf8.RuneError] is a
    character of the text. *)
Lemma TrimSpace_head s b t r w :
  strings.TrimSpace s = b :: t ->
  utf8.DecodeRuneInString (b :: t) = (r, w) ->
  unicode.IsSpace r = false /\ (r <> utf8.RuneError -> 0x80 <= r -> In r (runesOf s)).
Proof.
  unfold strings.TrimSpace.
  destruct (trimStart_spec s 0) as (sp & rest2 & -> & Hall & Hres).
  assert (Hascii : Forall (fun c => byteZ c < 0x80) sp).
  { eapply Forall_impl; [|exact Hall]. now intros c [Hc _]. }
  destruct (strings.trimStart (sp ++ rest2) 0) as [k|res].
  - destruct Hres as [-> Hr]. cbn [Z.add].
    replace (sliceFrom (sp ++ rest2) (len sp)) with rest2
      by (symmetry; apply sliceFrom_app_len).
    destruct Hr as [->|(c & t0 & -> & Hc & Hcs)]; [discriminate|].
    destruct (trimStop_prefix (rev (c :: t0))) as [k Hk].
    rewrite rev_involutive in Hk. rewrite Hk.
    destruct k as [|k]; [discriminate|]. cbn [firstn].
    intros E. inversion E; subst b t. rewrite decode_ascii by exact Hc.
    intros E2. inversion E2; subst r w.
    pose proof (byteZ_range c). split; [|lia].
    rewrite IsSpace_ascii by lia. exact Hcs.
  - subst res. unfold strings.TrimFunc, strings.TrimLeftFunc. cbv zeta.
    destruct (strings.indexFunc rest2 unicode.IsSpace false =? -1) eqn:Ei.
    { unfold strings.TrimRightFunc. cbv zeta. rewrite firstn_nil. discriminate. }
    apply Z.eqb_neq in Ei.
    destruct (indexFunc_loop_some unicode.IsSpace (rangeString rest2) _ eq_refl Ei)
      as (l1 & r0 & l2 & Hrange & Hr0).
    fold (strings.indexFunc rest2 unicode.IsSpace false) in Hrange.
    set (i := strings.indexFunc rest2 unicode.IsSpace false) in *.
    pose proof (rangeFrom_suffix l1 rest2 0 i r0 l2 Hrange) as Hsuf.
    rewrite Z.sub_0_r in Hsuf.
    destruct (rangeFrom_head _ _ _ _ _ Hsuf) as (Hne & w0 & Hdec).
    unfold strings.TrimRightFunc. cbv zeta.
    intros E Ed. rewrite <- E in Ed.
    assert (Hcases : r = utf8.RuneError \/ r = r0).
    { destruct (Z.eq_dec r utf8.RuneError) as [Heq|Hneq]; [now left|right].
      apply decode_firstn in Ed; [|exact Hneq]. congruence. }
    split.
    + destruct Hcases as [->| ->]; [apply IsSpace_RuneError|exact Hr0].
    + intros Hne' _. destruct Hcases as [Heq| ->]; [contradiction|].
      rewrite runesOf_ascii_app by exact Hascii. apply in_or_app. right.
      rewrite <- (runes_rangeFrom rest2 0). unfold rangeString in Hrange.
      rewrite Hrange, map_app. apply in_or_app. right. now left.
Qed.

Section StartsWithChinese.
Context {tables : unicode.CaseTables}.

(** [startsWithChinese] is decided by the first character of the trimmed
    text, which is never one of the blanks the loop would step over; and a
    text that starts with Chinese contains Chinese, so that it is classified
    Chinese or Mixed. *)
Theorem startsWithChinese_first_character (text : gostring) :
  startsWithChinese text
  = match runesOf (strings.TrimSpace text) with
    | [] => false
    | r :: _ => isCJK r
    end
  /\ (startsWithChinese text = true ->
      containsChinese text = true
      /\ isChineseOrMixed (classifyLineType text) = true).
Proof.
  assert (Hfirst : startsWithChinese text
                   = match runesOf (strings.TrimSpace text) with
                     | [] => false
                     | r :: _ => isCJK r
                     end
                   /\ (startsWithChinese text = true ->
                       exists r, In r (runesOf text) /\ isCJK r = true)).
  { unfold startsWithChinese. cbv zeta.
    destruct (strings.TrimSpace text) as [|b t] eqn:Et; [split; [reflexivity|discriminate]|].
    replace (len (b :: t) =? 0) with false
      by (symmetry; apply Z.eqb_neq; rewrite len_cons; pose proof (len_nonneg t); lia).
    destruct (utf8.DecodeRuneInString (b :: t)) as [r w] eqn:Ed.
    destruct (TrimSpace_head _ _ _ _ _ Et Ed) as [Hsp Hin].
    unfold rangeString.
    rewrite (rangeFrom_step (b :: t) 0 r w ltac:(discriminate) Ed).
    rewrite (runesOf_step (b :: t) r w ltac:(discriminate) Ed).
    cbn [startsWithChinese_loop].
    destruct (isCJK r) eqn:Hc.
    - split; [reflexivity|]. intros _. exists r. split; [|exact Hc].
      unfold isCJK in Hc. apply andb_true_iff in Hc.
      apply Hin; unfold utf8.RuneError; lia.
    - apply IsSpace_notBlank in Hsp. unfold notBlank in Hsp. rewrite Hsp.
      split; [reflexivity|discriminate]. }
  destruct Hfirst as [H1 H2]. split; [exact H1|].
  intros Hs. destruct (H2 Hs) as (r & Hin & Hc).
  assert (Hcc : containsChinese text = true).
  { rewrite containsChinese_runes. apply existsb_exists. now exists r. }
  split; [exact Hcc|]. now rewrite classifyLineType_ChineseOrMixed.
Qed.

End StartsWithChinese.


(** * The line source delivers the lines of the document in order *)

Lemma lines_loop_linesAfter rest : forall lineIndex,
  match lines_loop rest lineIndex with
  | Some (line, idx) =>
      lineIndex <= idx < lineIndex + len rest
      /\ linesAfter rest lineIndex
         = (line, idx) :: linesAfter (sliceFrom rest (idx - lineIndex + 1)) (idx + 1)
  | None => linesAfter rest lineIndex = []
  end.
Proof.
  induction rest as [|l rest IH]; intros lineIndex; [reflexivity|].
  cbn [lines_loop linesAfter]. rewrite len_cons. pose proof (len_nonneg rest).
  destruct (negb (gostring_eqb (strings.TrimSpace l) [])).
  - split; [lia|]. rewrite Z.sub_diag. cbn [app Z.add].
    now rewrite (sliceFrom_cons l rest 1), Z.sub_diag, sliceFrom_0 by lia.
  - cbn [app]. specialize (IH (lineIndex + 1)).
    destruct (lines_loop rest (lineIndex + 1)) as [[line idx]|]; [|exact IH].
    destruct IH as [Hidx IH]. split; [lia|]. rewrite IH.
    rewrite (sliceFrom_cons l rest (idx - lineIndex + 1)) by lia.
    do 3 f_equal. lia.
Qed.

Lemma cursorAt_fields cursor e l :
  DocumentCursor.Document (cursorAt cursor e l) = DocumentCursor.Document cursor
  /\ DocumentCursor.ElementIndex (cursorAt cursor e l) = e
  /\ DocumentCursor.LineIndex (cursorAt cursor e l) = l.
Proof. repeat split. Qed.

(** One run of the loop over the elements: the first line of [linesFrom] is
    delivered and the rest stays, or there is no line. *)
Lemma elements_loop_pending rest : forall cursor,
  0 <= DocumentCursor.LineIndex cursor ->
  match elements_loop rest cursor with
  | (inl info, c') =>
      exists k, 0 <= k <= len rest
                /\ DocumentCursor.ElementIndex c' = DocumentCursor.ElementIndex cursor + k
                /\ 0 <= DocumentCursor.LineIndex c'
                /\ DocumentCursor.Document c' = DocumentCursor.Document cursor
                /\ (k = 0 -> DocumentCursor.LineIndex cursor < DocumentCursor.LineIndex c')
                /\ linesFrom rest (DocumentCursor.LineIndex cursor)
                   = info :: linesFrom (sliceFrom rest k) (DocumentCursor.LineIndex c')
  | (inr err, c') =>
      err = errorString (str "end of document")
      /\ linesFrom rest (DocumentCursor.LineIndex cursor) = []
      /\ DocumentCursor.ElementIndex c' = DocumentCursor.ElementIndex cursor + len rest
      /\ 0 <= DocumentCursor.LineIndex c'
      /\ DocumentCursor.Document c' = DocumentCursor.Document cursor
  end.
Proof.
  induction rest as [|element rest IH]; intros cursor Hli.
  - cbn. repeat split; [lia|exact Hli].
  - cbn [elements_loop linesFrom]. rewrite len_cons. pose proof (len_nonneg rest) as Hrest.
    assert (Hnext : forall li lines0,
               0 <= li ->
               linesFrom (element :: rest) (DocumentCursor.LineIndex cursor)
               = lines0 ++ linesFrom rest li -> lines0 = [] ->
               match elements_loop rest
                       (cursorAt (cursorAt cursor (DocumentCursor.ElementIndex cursor) li)
                                 (DocumentCursor.ElementIndex cursor + 1) li) with
               | (inl info, c') =>
                   exists k, 0 <= k <= len rest + 1
                     /\ DocumentCursor.ElementIndex c' = DocumentCursor.ElementIndex cursor + k
                     /\ 0 <= DocumentCursor.LineIndex c'
                     /\ DocumentCursor.Document c' = DocumentCursor.Document cursor
                     /\ (k = 0 -> DocumentCursor.LineIndex cursor < DocumentCursor.LineIndex c')
                     /\ linesFrom (element :: rest) (DocumentCursor.LineIndex cursor)
                        = info :: linesFrom (sliceFrom (element :: rest) k)
                                            (DocumentCursor.LineIndex c')
               | (inr err, c') =>
                   err = errorString (str "end of document")
                   /\ linesFrom (element :: rest) (DocumentCursor.LineIndex cursor) = []
                   /\ DocumentCursor.ElementIndex c'
                      = DocumentCursor.ElementIndex cursor + (len rest + 1)
                   /\ 0 <= DocumentCursor.LineIndex c'
                   /\ DocumentCursor.Document c' = DocumentCursor.Document cursor
               end).
    { intros li lines0 Hli0 Hlines ->. cbn [app] in Hlines.
      specialize (IH (cursorAt (cursorAt cursor (DocumentCursor.ElementIndex cursor) li)
                               (DocumentCursor.ElementIndex cursor + 1) li) Hli0).
      destruct (elements_loop rest _) as [[info|err] c'].
      - destruct IH as (k & Hk & Hei & Hli' & Hdoc & _ & Hl). cbn in Hei, Hdoc, Hl.
        exists (k + 1). split; [lia|]. split; [lia|]. split; [exact Hli'|].
        split; [exact Hdoc|]. split; [lia|].
        rewrite Hlines, Hl. rewrite (sliceFrom_cons element rest (k + 1)) by lia.
        do 3 f_equal. lia.
      - destruct IH as (Herr & Hl & Hei & Hli' & Hdoc). cbn in Hei, Hdoc, Hl.
        split; [exact Herr|]. split; [now rewrite Hlines|]. split; [lia|].
        split; [exact Hli'|exact Hdoc]. }
    cbn [linesFrom] in Hnext.
    destruct (paragraphLines element) as [[firstRun lines]|] eqn:Ep.
    + pose proof (lines_loop_linesAfter
                    (sliceFrom lines (DocumentCursor.LineIndex cursor))
                    (DocumentCursor.LineIndex cursor)) as Hl.
      destruct (lines_loop (sliceFrom lines (DocumentCursor.LineIndex cursor))
                           (DocumentCursor.LineIndex cursor)) as [[line idx]|].
      * destruct Hl as [Hidx Hl]. rewrite Hl. cbn [map fst app].
        rewrite sliceFrom_sliceFrom by lia.
        replace (DocumentCursor.LineIndex cursor + (idx - DocumentCursor.LineIndex cursor + 1))
          with (idx + 1) by lia.
        destruct (idx + 1 >=? len lines) eqn:Hlast.
        -- exists 1.
           cbn [cursorAt DocumentCursor.ElementIndex DocumentCursor.LineIndex
                DocumentCursor.Document].
           split; [lia|]. split; [reflexivity|]. split; [lia|].
           split; [reflexivity|]. split; [lia|].
           rewrite (sliceFrom_cons element rest 1), Z.sub_diag, sliceFrom_0 by lia.
           replace (sliceFrom lines (idx + 1)) with (@nil gostring)
             by (symmetry; apply sliceFrom_nil_iff; lia).
           reflexivity.
        -- exists 0.
           cbn [cursorAt DocumentCursor.ElementIndex DocumentCursor.LineIndex
                DocumentCursor.Document].
           split; [lia|]. split; [lia|]. split; [lia|].
           split; [reflexivity|]. split; [lia|].
           rewrite sliceFrom_0. cbn [linesFrom]. rewrite Ep. reflexivity.
      * apply (Hnext 0 [] ltac:(lia)); [|reflexivity].
        now rewrite Hl.
    + apply (Hnext (DocumentCursor.LineIndex cursor) [] Hli); reflexivity.
Qed.

Lemma len_sliceFrom {A} (s : list A) i : 0 <= i -> len (sliceFrom s i) = Z.max 0 (len s - i).
Proof.
  intros Hi. unfold sliceFrom, len. rewrite length_skipn. lia.
Qed.

Lemma contentOf_Document a b :
  DocumentCursor.Document a = DocumentCursor.Document b -> contentOf a = contentOf b.
Proof. unfold contentOf. now intros ->. Qed.

(** One call of [getNextNonEmptyLine]: the first pending line is delivered
    and the others stay pending, or no line is pending and the call fails,
    now and again. *)
Lemma getNextNonEmptyLine_step cursor :
  cursorOk cursor ->
  match getNextNonEmptyLine cursor with
  | (inl info, c') =>
      pendingLines cursor = info :: pendingLines c'
      /\ cursorOk c'
      /\ DocumentCursor.Document c' = DocumentCursor.Document cursor
      /\ cursorBefore cursor c'
      /\ DocumentCursor.ElementIndex c' <= len (contentOf cursor)
  | (inr err, c') =>
      pendingLines cursor = []
      /\ (err = errorString (str "end of document")
          \/ err = errorString (str "empty document") /\ contentOf cursor = [])
      /\ getNextNonEmptyLine c' = (inr err, c')
  end.
Proof.
  intros [Hei Hli]. unfold getNextNonEmptyLine, pendingLines, contentOf.
  destruct (docs.Body_ (DocumentCursor.Document cursor)) as [body|] eqn:Hbody.
  2:{ rewrite ?Hbody. split; [unfold sliceFrom; now rewrite skipn_nil|].
      split; [now right|reflexivity]. }
  destruct (len (docs.BodyContent body) =? 0) eqn:Hlen.
  { rewrite ?Hbody, ?Hlen. apply len_eqb_0 in Hlen. rewrite Hlen.
    split; [unfold sliceFrom; now rewrite skipn_nil|]. split; [now right|reflexivity]. }
  set (content := docs.BodyContent body) in *.
  pose proof (elements_loop_pending
                (sliceFrom content (DocumentCursor.ElementIndex cursor)) cursor Hli) as H.
  pose proof (len_sliceFrom content _ Hei) as Hls.
  pose proof (len_nonneg content) as Hc.
  destruct (elements_loop (sliceFrom content (DocumentCursor.ElementIndex cursor)) cursor)
    as [[info|err] c'] eqn:Eloop.
  - assert (Hne : 0 < len (sliceFrom content (DocumentCursor.ElementIndex cursor))).
    { destruct (sliceFrom content (DocumentCursor.ElementIndex cursor)); [discriminate|].
      rewrite len_cons. pose proof (len_nonneg l). lia. }
    destruct H as (k & Hk & Hei' & Hli' & Hdoc & Hk0 & Hl).
    rewrite Hdoc, Hbody. fold content. rewrite Hl, Hei'.
    rewrite sliceFrom_sliceFrom by lia.
    split; [reflexivity|]. split; [split; lia|]. split; [reflexivity|].
    split; [|lia]. unfold cursorBefore.
    destruct (Z.eq_dec k 0) as [->|Hk1]; [right; split; [lia|now apply Hk0]|left; lia].
  - destruct H as (-> & Hl & Hei' & Hli' & Hdoc).
    split; [exact Hl|]. split; [now left|].
    rewrite Hdoc, Hbody. fold content. rewrite Hlen.
    replace (sliceFrom content (DocumentCursor.ElementIndex c')) with
      (@nil docs.StructuralElement); [reflexivity|].
    symmetry. apply sliceFrom_nil_iff; lia.
Qed.

(** The lines of [linesFrom] are not empty and come from the elements. *)
Lemma linesAfter_In rest : forall lineIndex line idx,
  In (line, idx) (linesAfter rest lineIndex) ->
  line <> [] /\ exists l, In l rest /\ line = strings.TrimSpace l.
Proof.
  induction rest as [|l rest IH]; intros lineIndex line idx Hin; [destruct Hin|].
  cbn [linesAfter] in Hin. apply in_app_or in Hin. destruct Hin as [Hin|Hin].
  - destruct (gostring_eqb (strings.TrimSpace l) []) eqn:Hl; cbn in Hin; [destruct Hin|].
    destruct Hin as [Hin|[]]. inversion Hin; subst.
    split; [now apply gostring_eqb_neq|]. exists l. split; [now left|reflexivity].
  - apply IH in Hin. destruct Hin as [Hne (l' & Hl' & ->)].
    split; [exact Hne|]. exists l'. split; [now right|reflexivity].
Qed.

Lemma In_sliceFrom {A} (x : A) s i : In x (sliceFrom s i) -> In x s.
Proof.
  unfold sliceFrom. intros H. rewrite <- (firstn_skipn (Z.to_nat i) s).
  apply in_or_app. now right.
Qed.

Lemma linesFrom_In rest : forall lineIndex info,
  In info (linesFrom rest lineIndex) ->
  LineInfo.Text info <> []
  /\ LineInfo.Features info = None
  /\ In (LineInfo.Element info) rest
  /\ exists lines l,
      paragraphLines (LineInfo.Element info) = Some (LineInfo.TextRun info, lines)
      /\ In l lines /\ LineInfo.Text info = strings.TrimSpace l.
Proof.
  induction rest as [|element rest IH]; intros lineIndex info Hin; [destruct Hin|].
  cbn [linesFrom] in Hin.
  assert (Hrest : forall li, In info (linesFrom rest li) ->
            LineInfo.Text info <> []
            /\ LineInfo.Features info = None
            /\ In (LineInfo.Element info) (element :: rest)
            /\ exists lines l,
                paragraphLines (LineInfo.Element info) = Some (LineInfo.TextRun info, lines)
                /\ In l lines /\ LineInfo.Text info = strings.TrimSpace l).
  { intros li H. apply IH in H. destruct H as (H1 & H2 & H3 & H4).
    split; [exact H1|]. split; [exact H2|]. split; [now right|exact H4]. }
  destruct (paragraphLines element) as [[firstRun lines]|] eqn:Ep; [|now apply (Hrest lineIndex)].
  apply in_app_or in Hin. destruct Hin as [Hin|Hin]; [|now apply (Hrest 0)].
  apply in_map_iff in Hin. destruct Hin as ([line idx] & <- & Hin).
  apply linesAfter_In in Hin. destruct Hin as [Hne (l & Hl & ->)]. cbn.
  split; [exact Hne|]. split; [reflexivity|]. split; [now left|].
  exists lines, l. split; [exact Ep|]. split; [now apply In_sliceFrom in Hl|reflexivity].
Qed.

(** Calling [getNextNonEmptyLine] until it fails delivers the lines of the
    document from the cursor on: each line that is not blank, trimmed, once
    and in reading order. *)
Theorem readLines_in_reading_order (fuel : nat) (cursor : DocumentCursor) :
  cursorOk cursor ->
  (List.length (pendingLines cursor) <= fuel)%nat ->
  readLines (S fuel) cursor = pendingLines cursor.
Proof.
  revert cursor. induction fuel as [|fuel IH]; intros cursor Hok Hfuel.
  - cbn [readLines]. pose proof (getNextNonEmptyLine_step cursor Hok) as H.
    destruct (getNextNonEmptyLine cursor) as [[info|err] c'].
    + destruct H as (Hp & _). rewrite Hp in Hfuel. cbn in Hfuel. lia.
    + now destruct H as (-> & _).
  - change (readLines (S (S fuel)) cursor)
      with (match getNextNonEmptyLine cursor with
            | (inl lineInfo, cursor') => lineInfo :: readLines (S fuel) cursor'
            | (inr _, _) => []
            end).
    pose proof (getNextNonEmptyLine_step cursor Hok) as H.
    destruct (getNextNonEmptyLine cursor) as [[info|err] c'].
    + destruct H as (Hp & Hok' & _). rewrite Hp in *. cbn in Hfuel.
      rewrite IH; [reflexivity|exact Hok'|lia].
    + now destruct H as (-> & _).
Qed.

(** [getNextNonEmptyLine] fails only when no line is left, with "end of
    document", or with "empty document" on a document without content; a
    call that failed fails again with the same error and leaves the cursor
    where it is. *)
Theorem getNextNonEmptyLine_exhausted_again (cursor c' : DocumentCursor) (err : error) :
  cursorOk cursor ->
  getNextNonEmptyLine cursor = (inr err, c') ->
  pendingLines cursor = []
  /\ (err = errorString (str "end of document")
      \/ err = errorString (str "empty document") /\ contentOf cursor = [])
  /\ getNextNonEmptyLine c' = (inr err, c').
Proof.
  intros Hok E. pose proof (getNextNonEmptyLine_step cursor Hok) as H.
  now rewrite E in H.
Qed.

(** A line delivered moves the cursor forward in the same document and not
    past its end. *)
Theorem getNextNonEmptyLine_moves_forward (cursor c' : DocumentCursor) (info : LineInfo) :
  cursorOk cursor ->
  getNextNonEmptyLine cursor = (inl info, c') ->
  DocumentCursor.Document c' = DocumentCursor.Document cursor
  /\ cursorBefore cursor c'
  /\ 0 <= DocumentCursor.LineIndex c'
  /\ DocumentCursor.ElementIndex c' <= len (contentOf cursor).
Proof.
  intros Hok E. pose proof (getNextNonEmptyLine_step cursor Hok) as H.
  rewrite E in H. destruct H as (_ & [_ Hli] & Hdoc & Hb & Hle). now repeat split.
Qed.

(** A line delivered is not empty: it is the trimmed text of a line of a
    paragraph of the document, and it carries that paragraph and the first
    text run of it that is not blank. *)
Theorem getNextNonEmptyLine_line (cursor c' : DocumentCursor) (info : LineInfo) :
  cursorOk cursor ->
  getNextNonEmptyLine cursor = (inl info, c') ->
  LineInfo.Text info <> []
  /\ In (LineInfo.Element info) (contentOf cursor)
  /\ exists lines l,
      paragraphLines (LineInfo.Element info) = Some (LineInfo.TextRun info, lines)
      /\ In l lines /\ LineInfo.Text info = strings.TrimSpace l.
Proof.
  intros Hok E. pose proof (getNextNonEmptyLine_step cursor Hok) as H.
  rewrite E in H. destruct H as (Hp & _).
  assert (Hin : In info (pendingLines cursor)) by (rewrite Hp; now left).
  unfold pendingLines in Hin. apply linesFrom_In in Hin.
  destruct Hin as (H1 & _ & H3 & H4). split; [exact H1|].
  split; [now apply In_sliceFrom in H3|exact H4].
Qed.


(** * The leading tabs of a line *)

Lemma rangeFrom_tab s i : rangeFrom (x09 :: s) i 0 = (i, 9) :: rangeFrom s (i + 1) 0.
Proof.
  rewrite (rangeFrom_step (x09 :: s) i 9 1 ltac:(discriminate)
             (decode_ascii x09 s ltac:(vm_compute; reflexivity))).
  now rewrite (sliceFrom_cons x09 s 1), Z.sub_diag, sliceFrom_0 by lia.
Qed.

Lemma leadingTabs_loop_other rest i acc :
  (forall t, rest <> x09 :: t) ->
  leadingTabs_loop (rangeFrom rest i 0) acc = acc.
Proof.
  intros Hrest. destruct rest as [|c t]; [reflexivity|].
  destruct (utf8.DecodeRuneInString (c :: t)) as [r w] eqn:Ed.
  rewrite (rangeFrom_step (c :: t) i r w ltac:(discriminate) Ed).
  cbn [leadingTabs_loop].
  assert (Hr : r <> 9).
  { destruct (Z.lt_ge_cases (byteZ c) 0x80) as [Hlo|Hhi].
    - rewrite decode_ascii in Ed by exact Hlo. inversion Ed; subst.
      intros E. apply (Hrest t). f_equal. apply byteZ_inj. now rewrite E.
    - pose proof (decode_nonascii c t r w Hhi Ed). lia. }
  now replace (r =? 9) with false by (symmetry; now apply Z.eqb_neq).
Qed.

Lemma leadingTabs_loop_tabs (n : nat) : forall rest i acc,
  (forall t, rest <> x09 :: t) ->
  leadingTabs_loop (rangeFrom (repeat x09 n ++ rest) i 0) acc = acc + Z.of_nat n.
Proof.
  induction n as [|n IH]; intros rest i acc Hrest.
  - cbn [repeat app]. rewrite leadingTabs_loop_other by exact Hrest. lia.
  - cbn [repeat app]. rewrite rangeFrom_tab. cbn [leadingTabs_loop].
    change (9 =? 9) with true. cbv iota. rewrite IH by exact Hrest. lia.
Qed.

(** [extractLineFeatures] counts the tabs the content of the text run
    begins with: a content of [n] tabs followed by anything but a tab gives
    [LeadingTabs = n]. *)
Theorem extractLineFeatures_LeadingTabs
        (element : docs.StructuralElement) (textRun : docs.TextRun) (text : gostring)
        (n : Z) (rest : gostring) :
  0 <= n ->
  docs.Content textRun = strings.Repeat x09 n ++ rest ->
  (forall t, rest <> x09 :: t) ->
  LineFeatures.LeadingTabs (extractLineFeatures element (Some textRun) text) = n.
Proof.
  intros Hn Hc Hrest. unfold extractLineFeatures. cbn [LineFeatures.LeadingTabs].
  rewrite Hc. unfold strings.Repeat, rangeString.
  destruct (gostring_eqb (repeat x09 (Z.to_nat n) ++ rest) []) eqn:He; cbn [negb].
  - apply gostring_eqb_eq in He. apply app_eq_nil in He. destruct He as [He _].
    destruct (Z.to_nat n) eqn:En; [lia|discriminate].
  - rewrite leadingTabs_loop_tabs by exact Hrest. lia.
Qed.


(** * What the loops of the driver read, format and record *)

Lemma IntMap_get_filter m k k' :
  k <> k' -> IntMap_get (List.filter (fun kv => negb (fst kv =? k)) m) k' = IntMap_get m k'.
Proof.
  intros Hk. induction m as [|[a v] m IH]; [reflexivity|].
  cbn [List.filter fst IntMap_get].
  destruct (a =? k) eqn:Ea; cbn [negb].
  - apply Z.eqb_eq in Ea. subst a.
    now replace (k =? k') with false by (symmetry; now apply Z.eqb_neq).
  - cbn [IntMap_get]. now rewrite IH.
Qed.

Lemma IntMap_get_set m k v k' :
  IntMap_get (IntMap_set m k v) k' = if k =? k' then Some v else IntMap_get m k'.
Proof.
  unfold IntMap_set. cbn [IntMap_get]. destruct (k =? k') eqn:E; [reflexivity|].
  apply Z.eqb_neq in E. now apply IntMap_get_filter.
Qed.

Lemma increasingFrom_weaken l : forall lo lo', lo' <= lo -> increasingFrom lo l -> increasingFrom lo' l.
Proof.
  destruct l as [|x l]; intros lo lo' Hlo H; [exact I|].
  destruct H as [H1 H2]. split; [lia|exact H2].
Qed.

Section DriverEffects.
Context {tables : unicode.CaseTables}.

(** What the treatment of a target line changes when the loop goes on: the
    flag, the previous features, at most one formatting call, on the
    paragraph of the line, and at most one entry of the tabs to add, a
    positive number under the iteration. *)
Lemma mainLoop_line_effect loopID st targetLineInfo st' :
  mainLoop_line loopID st targetLineInfo = Next st' ->
  sourceCursor st' = sourceCursor st /\ targetCursor st' = targetCursor st
  /\ sourceLineNum st' = sourceLineNum st /\ targetLineNum st' = targetLineNum st
  /\ sourceLineInfo st' = sourceLineInfo st
  /\ (applied st' = applied st
      \/ exists call, applied st' = applied st ++ [call] /\ callOn loopID targetLineInfo call)
  /\ (tabsToAddMap st' = tabsToAddMap st
      \/ exists v, 0 < v /\ tabsToAddMap st' = IntMap_set (tabsToAddMap st) loopID v).
Proof.
  unfold mainLoop_line. cbv zeta. destruct st. fields.
  repeat match goal with
         | |- context [if ?c then _ else _] => destruct c eqn:?
         | |- context [match ?o with Some _ => _ | None => _ end] => destruct o eqn:?
         end; fields; intros E; inversion E; subst; fields;
    repeat (split; [reflexivity|]);
    (split;
     [first [ left; reflexivity
            | right; eexists; split; [reflexivity|]; repeat split ]
     |first [ left; reflexivity
            | right; eexists; split; [|reflexivity]; lia ]]).
Qed.

Lemma mainLoop_source_effect st st' :
  cursorOk (sourceCursor st) ->
  mainLoop_source st = Next st' ->
  targetCursor st' = targetCursor st /\ targetLineNum st' = targetLineNum st
  /\ applied st' = applied st /\ tabsToAddMap st' = tabsToAddMap st
  /\ lastProcessedWasChinese st' = lastProcessedWasChinese st
  /\ cursorOk (sourceCursor st')
  /\ (if lastProcessedWasChinese st then
        pendingLines (sourceCursor st) = sourceLineInfo st' :: pendingLines (sourceCursor st')
        /\ sourceLineNum st' = sourceLineNum st + 1
      else st' = st).
Proof.
  intros Hok. unfold mainLoop_source, shouldAdvanceSourceCursor.
  destruct (lastProcessedWasChinese st) eqn:Hflag.
  - pose proof (getNextNonEmptyLine_step _ Hok) as Hs.
    destruct (getNextNonEmptyLine (sourceCursor st)) as [[li|err] c].
    + intros E. inversion E; subst. fields. destruct Hs as (Hp & Hok' & _).
      repeat (split; [first [reflexivity|assumption]|]). reflexivity.
    + destruct (isEndOfDocument err); discriminate.
  - intros E. inversion E; subst.
    repeat (split; [first [reflexivity|assumption]|]). reflexivity.
Qed.

(** One full round of the main loop: the next pending target line is read,
    the next pending source line is read when the flag was set, and the
    line is treated. *)
Lemma mainLoopBody_effect loopID st st' :
  cursorOk (sourceCursor st) -> cursorOk (targetCursor st) ->
  mainLoopBody loopID st = Next st' ->
  cursorOk (sourceCursor st') /\ cursorOk (targetCursor st')
  /\ targetLineNum st' = targetLineNum st + 1
  /\ (exists targetLine,
         pendingLines (targetCursor st) = targetLine :: pendingLines (targetCursor st')
         /\ (applied st' = applied st
             \/ exists call, applied st' = applied st ++ [call]
                             /\ callOn loopID targetLine call))
  /\ (tabsToAddMap st' = tabsToAddMap st
      \/ exists v, 0 < v /\ tabsToAddMap st' = IntMap_set (tabsToAddMap st) loopID v)
  /\ (if lastProcessedWasChinese st then
        pendingLines (sourceCursor st) = sourceLineInfo st' :: pendingLines (sourceCursor st')
        /\ sourceLineNum st' = sourceLineNum st + 1
      else
        sourceCursor st' = sourceCursor st /\ sourceLineNum st' = sourceLineNum st
        /\ sourceLineInfo st' = sourceLineInfo st).
Proof.
  intros Hsrc Htgt. unfold mainLoopBody.
  destruct (mainLoop_source st) as [st1| |] eqn:Es; cbn [andThen]; try discriminate.
  destruct (mainLoop_source_effect _ _ Hsrc Es)
    as (Htc & Htn & Happ & Htabs & Hflag & Hsrc1 & Hread).
  rewrite <- Htc in Htgt.
  pose proof (getNextNonEmptyLine_step _ Htgt) as Ht.
  destruct (getNextNonEmptyLine (targetCursor st1)) as [[tli|err] c].
  2:{ destruct (isEndOfDocument err); discriminate. }
  destruct Ht as (Hp & Hok' & _).
  intros El. apply mainLoop_line_effect in El. fields.
  destruct El as (E1 & E2 & E3 & E4 & E5 & Ecalls & Etabs). fields.
  rewrite E1, E2, E4. fields.
  split; [exact Hsrc1|]. split; [exact Hok'|]. split; [lia|].
  split.
  { exists tli. rewrite <- Htc. split; [exact Hp|].
    rewrite <- Happ. exact Ecalls. }
  split; [rewrite <- Htabs; exact Etabs|].
  destruct (lastProcessedWasChinese st).
  - destruct Hread as [Hr1 Hr2]. rewrite E3, E5. fields. now split.
  - subst st1. rewrite E3, E5. fields. now repeat split.
Qed.

(** The rounds of the main loop together. *)
Lemma rounds_effect n : forall loopID st stn,
  cursorOk (sourceCursor st) -> cursorOk (targetCursor st) ->
  rounds n loopID st = Some stn ->
  cursorOk (sourceCursor stn) /\ cursorOk (targetCursor stn)
  /\ exists sourceRead targetRead calls,
      pendingLines (sourceCursor st) = sourceRead ++ pendingLines (sourceCursor stn)
      /\ pendingLines (targetCursor st) = targetRead ++ pendingLines (targetCursor stn)
      /\ List.length targetRead = n
      /\ (List.length sourceRead <= n)%nat
      /\ targetLineNum stn = targetLineNum st + Z.of_nat n
      /\ sourceLineNum stn = sourceLineNum st + Z.of_nat (List.length sourceRead)
      /\ applied stn = applied st ++ calls
      /\ increasingFrom loopID (map atLoop calls)
      /\ Forall (fun call => exists i line,
                     nth_error targetRead i = Some line
                     /\ callOn (loopID + Z.of_nat i) line call) calls
      /\ (forall k v, IntMap_get (tabsToAddMap stn) k = Some v ->
                      IntMap_get (tabsToAddMap st) k = Some v
                      \/ (loopID <= k < loopID + Z.of_nat n /\ 0 < v)).
Proof.
  induction n as [|n IH]; intros loopID st stn Hsrc Htgt E; cbn [rounds] in E.
  - inversion E; subst. split; [exact Hsrc|]. split; [exact Htgt|].
    exists [], [], []. rewrite app_nil_r. cbn.
    repeat (split; [first [reflexivity|lia|constructor]|]). intros k v H. now left.
  - destruct (mainLoopBody loopID st) as [st1| |] eqn:Eb; try discriminate.
    destruct (mainLoopBody_effect _ _ _ Hsrc Htgt Eb)
      as (Hsrc1 & Htgt1 & Htn & (tli & Hp & Hcalls) & Htabs & Hread).
    destruct (IH _ _ _ Hsrc1 Htgt1 E)
      as (HsrcN & HtgtN & sourceRead & targetRead & calls & Hps & Hpt & Hlt & Hls
          & HtnN & HsnN & Happ & Hinc & Hon & Hget).
    split; [exact HsrcN|]. split; [exact HtgtN|].
    assert (Hsource : exists first,
               pendingLines (sourceCursor st) = first ++ pendingLines (sourceCursor st1)
               /\ (List.length first <= 1)%nat
               /\ sourceLineNum st1 = sourceLineNum st + Z.of_nat (List.length first)).
    { destruct (lastProcessedWasChinese st).
      - destruct Hread as [Hr1 Hr2]. exists [sourceLineInfo st1]. cbn.
        split; [exact Hr1|]. split; lia.
      - destruct Hread as (Hr1 & Hr2 & _). exists []. cbn. rewrite Hr1.
        split; [reflexivity|]. split; lia. }
    destruct Hsource as (first & Hfirst & Hflen & Hfnum).
    assert (Hfirstcalls : exists firstCalls,
               applied st1 = applied st ++ firstCalls
               /\ increasingFrom loopID (map atLoop (firstCalls ++ calls))
               /\ Forall (fun call => exists i line,
                              nth_error (tli :: targetRead) i = Some line
                              /\ callOn (loopID + Z.of_nat i) line call) firstCalls).
    { destruct Hcalls as [Hc|(call & Hc & Hon1)].
      - exists []. rewrite app_nil_r. split; [exact Hc|]. split; [|constructor].
        cbn [app]. apply (increasingFrom_weaken _ (loopID + 1)); [lia|exact Hinc].
      - exists [call]. split; [exact Hc|]. split.
        + cbn. destruct Hon1 as [-> _]. split; [lia|exact Hinc].
        + constructor; [|constructor]. exists O, tli. split; [reflexivity|].
          now rewrite Z.add_0_r. }
    destruct Hfirstcalls as (firstCalls & Hfc & Hfinc & Hfon).
    exists (first ++ sourceRead), (tli :: targetRead), (firstCalls ++ calls).
    split; [now rewrite Hfirst, Hps, app_assoc|].
    split; [now rewrite Hp, Hpt|].
    split; [cbn; lia|].
    split; [rewrite length_app; lia|].
    split; [lia|].
    split; [rewrite length_app; lia|].
    split; [now rewrite Happ, Hfc, app_assoc|].
    split; [exact Hfinc|].
    split.
    + apply Forall_app. split; [exact Hfon|].
      eapply Forall_impl; [|exact Hon]. cbn beta.
      intros call (i & line & Hnth & Hcall). exists (S i), line.
      split; [exact Hnth|]. now replace (loopID + Z.of_nat (S i))
                              with (loopID + 1 + Z.of_nat i) by lia.
    + intros k v Hk. destruct (Hget k v Hk) as [Hk1|[Hk1 Hv]]; [|right; split; lia].
      destruct Htabs as [Ht|(v0 & Hv0 & Ht)]; rewrite Ht in Hk1; [now left|].
      rewrite IntMap_get_set in Hk1. destruct (loopID =? k) eqn:Ek.
      * apply Z.eqb_eq in Ek. inversion Hk1; subst. right. split; lia.
      * now left.
Qed.

(** The main loop reads the two documents in reading order: after [n]
    rounds the target cursor has delivered the first [n] pending lines of
    the target, and the source cursor the first lines of the source, one for
    every round that followed a Chinese or Mixed line; the two line numbers
    count the lines delivered. *)
Theorem rounds_read_in_order (n : nat) (loopID : Z) (st stn : locals) :
  cursorOk (sourceCursor st) -> cursorOk (targetCursor st) ->
  rounds n loopID st = Some stn ->
  exists sourceRead targetRead,
    pendingLines (sourceCursor st) = sourceRead ++ pendingLines (sourceCursor stn)
    /\ pendingLines (targetCursor st) = targetRead ++ pendingLines (targetCursor stn)
    /\ List.length targetRead = n
    /\ (List.length sourceRead <= n)%nat
    /\ targetLineNum stn = targetLineNum st + Z.of_nat n
    /\ sourceLineNum stn = sourceLineNum st + Z.of_nat (List.length sourceRead).
Proof.
  intros Hsrc Htgt E.
  destruct (rounds_effect n _ _ _ Hsrc Htgt E)
    as (_ & _ & sourceRead & targetRead & calls & H1 & H2 & H3 & H4 & H5 & H6 & _).
  now exists sourceRead, targetRead.
Qed.

(** The formatting calls of [n] rounds of the main loop are added behind
    those issued before, at most one in every iteration and in the order of
    the iterations, and the call of an iteration is on the paragraph of the
    target line read in that iteration. *)
Theorem rounds_format_the_line_read (n : nat) (loopID : Z) (st stn : locals) :
  cursorOk (sourceCursor st) -> cursorOk (targetCursor st) ->
  rounds n loopID st = Some stn ->
  exists calls,
    applied stn = applied st ++ calls
    /\ increasingFrom loopID (map atLoop calls)
    /\ Forall (fun call => exists i line,
                   (i < n)%nat
                   /\ nth_error (pendingLines (targetCursor st)) i = Some line
                   /\ callOn (loopID + Z.of_nat i) line call) calls.
Proof.
  intros Hsrc Htgt E.
  destruct (rounds_effect n _ _ _ Hsrc Htgt E)
    as (_ & _ & sourceRead & targetRead & calls & _ & H2 & H3 & _ & _ & _ & H7 & H8 & H9 & _).
  exists calls. split; [exact H7|]. split; [exact H8|].
  eapply Forall_impl; [|exact H9]. cbn beta.
  intros call (i & line & Hnth & Hcall). exists i, line.
  assert (Hi : (i < List.length targetRead)%nat)
    by (apply nth_error_Some; congruence).
  split; [lia|]. split; [|exact Hcall].
  rewrite H2, nth_error_app1 by exact Hi. exact Hnth.
Qed.

(** Every entry the main loop adds to the tabs to add is a positive number
    of tabs under the number of one of its iterations. *)
Theorem rounds_record_positive_tabs (n : nat) (loopID : Z) (st stn : locals) (k v : Z) :
  cursorOk (sourceCursor st) -> cursorOk (targetCursor st) ->
  rounds n loopID st = Some stn ->
  IntMap_get (tabsToAddMap stn) k = Some v ->
  IntMap_get (tabsToAddMap st) k = Some v
  \/ (loopID <= k < loopID + Z.of_nat n /\ 0 < v).
Proof.
  intros Hsrc Htgt E.
  destruct (rounds_effect n _ _ _ Hsrc Htgt E)
    as (_ & _ & sourceRead & targetRead & calls & _ & _ & _ & _ & _ & _ & _ & _ & _ & H).
  apply H.
Qed.

(** One round of the fast-forward loop leaves the formatting calls and the
    tabs to add as they are, however it ends, and it never ends in a
    [break]. *)
Lemma fastForwardBody_applies_nothing st :
  applied (stateOf (fastForwardBody st)) = applied st
  /\ tabsToAddMap (stateOf (fastForwardBody st)) = tabsToAddMap st
  /\ forall st', fastForwardBody st <> Break st'.
Proof.
  unfold fastForwardBody, fastForward_source, fastForward_line,
    shouldAdvanceSourceCursor. cbv zeta.
  destruct st as [sc tc sln tln prev flag tabs sli skey sfeat calls].
  split_body; (split; [reflexivity|split; [reflexivity|discriminate]]).
Qed.

(** The fast-forward loop issues no formatting call and records no tabs,
    however it ends. *)
Theorem fastForward_loop_applies_nothing (n : nat) (loopID : Z) (st : locals) :
  applied (stateOf (fastForward_loop n loopID st)) = applied st
  /\ tabsToAddMap (stateOf (fastForward_loop n loopID st)) = tabsToAddMap st.
Proof.
  revert loopID st. induction n as [|n IH]; intros loopID st; [now split|].
  cbn [fastForward_loop].
  destruct (fastForwardBody_applies_nothing st) as (H3 & H4 & _).
  destruct (fastForwardBody st) as [st1|st1|err st1]; cbn [andThen stateOf] in *;
    [|now split|now split].
  destruct (IH (loopID + 1) st1) as [H1 H2].
  split; congruence.
Qed.

End DriverEffects.


(** * The pass that inserts the tabs *)

Lemma lineStartIndices_loop_lines fuel : forall cursor m k0 m' k',
  cursorOk cursor ->
  lineStartIndices_loop fuel cursor m k0 = Some (inr (m', k')) ->
  k' = k0 + len (pendingLines cursor)
  /\ forall k,
      IntMap_get m' k
      = if (k0 <=? k) && (k <? k') then
          option_map (fun line => docs.StartIndex (LineInfo.Element line))
                     (nth_error (pendingLines cursor) (Z.to_nat (k - k0)))
        else IntMap_get m k.
Proof.
  induction fuel as [|fuel IH]; intros cursor m k0 m' k' Hok E; [discriminate|].
  cbn [lineStartIndices_loop] in E.
  pose proof (getNextNonEmptyLine_step cursor Hok) as Hs.
  destruct (getNextNonEmptyLine cursor) as [[li|err] c].
  - destruct Hs as (Hp & Hok' & _). apply IH in E; [|exact Hok'].
    destruct E as [Hk' Hget]. rewrite Hp, len_cons. pose proof (len_nonneg (pendingLines c)).
    split; [lia|]. intros k. rewrite Hget, IntMap_get_set.
    destruct (Z.eq_dec k k0) as [->|Hne].
    + replace ((k0 + 1 <=? k0) && (k0 <? k')) with false
        by (symmetry; apply andb_false_iff; left; apply Z.leb_gt; lia).
      replace ((k0 <=? k0) && (k0 <? k')) with true
        by (symmetry; apply andb_true_iff; split; [apply Z.leb_le|apply Z.ltb_lt]; lia).
      rewrite Z.eqb_refl, Z.sub_diag. reflexivity.
    + replace (k0 =? k) with false by (symmetry; apply Z.eqb_neq; lia).
      destruct (Z.lt_ge_cases k0 k) as [Hlt|Hge].
      * replace (k0 + 1 <=? k) with true by (symmetry; apply Z.leb_le; lia).
        replace (k0 <=? k) with true by (symmetry; apply Z.leb_le; lia).
        destruct (k <? k'); [|reflexivity]. cbn [andb].
        replace (Z.to_nat (k - k0)) with (S (Z.to_nat (k - (k0 + 1)))) by lia.
        reflexivity.
      * replace (k0 + 1 <=? k) with false by (symmetry; apply Z.leb_gt; lia).
        replace (k0 <=? k) with false by (symmetry; apply Z.leb_gt; lia).
        reflexivity.
  - destruct Hs as (Hp & _). destruct (isEndOfDocument err); [|discriminate].
    inversion E; subst. rewrite Hp. change (len (@nil LineInfo)) with 0. split; [lia|].
    intros k. replace ((k' <=? k) && (k <? k')) with false; [reflexivity|].
    symmetry. apply andb_false_iff.
    destruct (Z.lt_ge_cases k k'); [left; apply Z.leb_gt|right; apply Z.ltb_ge]; lia.
Qed.

(** The second reading of the target records, under the number of every
    line, the start index of the paragraph of the line, and nothing else. *)
Theorem lineStartIndices_loop_binds_lines
        (fuel : nat) (cursor : DocumentCursor) (lineStartIndices : IntMap)
        (currentLoopID : Z) :
  cursorOk cursor ->
  lineStartIndices_loop fuel cursor [] 1 = Some (inr (lineStartIndices, currentLoopID)) ->
  currentLoopID = 1 + len (pendingLines cursor)
  /\ (forall i line,
         nth_error (pendingLines cursor) i = Some line ->
         IntMap_get lineStartIndices (1 + Z.of_nat i)
         = Some (docs.StartIndex (LineInfo.Element line)))
  /\ (forall k, k < 1 \/ currentLoopID <= k -> IntMap_get lineStartIndices k = None).
Proof.
  intros Hok E. apply lineStartIndices_loop_lines in E; [|exact Hok].
  destruct E as [Hk Hget]. split; [exact Hk|]. split.
  - intros i line Hnth. rewrite Hget.
    assert (Hi : (i < List.length (pendingLines cursor))%nat)
      by (apply nth_error_Some; congruence).
    unfold len in Hk.
    replace ((1 <=? 1 + Z.of_nat i) && (1 + Z.of_nat i <? currentLoopID)) with true
      by (symmetry; apply andb_true_iff; split; [apply Z.leb_le|apply Z.ltb_lt]; lia).
    replace (Z.to_nat (1 + Z.of_nat i - 1)) with i by lia. now rewrite Hnth.
  - intros k Hk'. rewrite Hget.
    replace ((1 <=? k) && (k <? currentLoopID)) with false; [reflexivity|].
    symmetry. apply andb_false_iff.
    destruct Hk'; [left; apply Z.leb_gt|right; apply Z.ltb_ge]; lia.
Qed.

Lemma firstn_snoc {A} (d : A) (l : list A) (i : nat) :
  (i < List.length l)%nat -> firstn (S i) l = firstn i l ++ [nth i l d].
Proof.
  revert l. induction i as [|i IH]; intros l Hi; destruct l as [|x l]; cbn in Hi; try lia.
  - reflexivity.
  - cbn [firstn nth app]. f_equal. apply IH. lia.
Qed.

Lemma tabRequests_app tabs l1 : forall k l2,
  tabRequests tabs k (l1 ++ l2)
  = tabRequests tabs k l1 ++ tabRequests tabs (k + len l1) l2.
Proof.
  induction l1 as [|line l1 IH]; intros k l2.
  - cbn. now rewrite Z.add_0_r.
  - cbn [app tabRequests]. rewrite IH, len_cons, <- app_assoc.
    now replace (k + 1 + len l1) with (k + (len l1 + 1)) by lia.
Qed.

(** The loop that counts down gives the requests of the lines in reverse. *)
Lemma insertRequests_loop_exact (tabs starts : IntMap) (lines : list LineInfo) (n : nat) :
  (forall i line, nth_error lines i = Some line ->
                  IntMap_get starts (1 + Z.of_nat i)
                  = Some (docs.StartIndex (LineInfo.Element line))) ->
  (n <= List.length lines)%nat ->
  insertRequests_loop n tabs starts = rev (tabRequests tabs 1 (firstn n lines)).
Proof.
  intros Hstarts. induction n as [|n IH]; intros Hn; [reflexivity|].
  destruct (nth_error lines n) as [line|] eqn:En;
    [|apply nth_error_None in En; lia].
  rewrite (firstn_snoc line) by lia. rewrite (nth_error_nth _ _ _ En).
  rewrite tabRequests_app, rev_app_distr. cbn [insertRequests_loop].
  rewrite <- IH by lia. f_equal.
  unfold len. rewrite length_firstn, Nat.min_l by lia.
  replace (Z.of_nat (S n)) with (1 + Z.of_nat n) by lia.
  rewrite (Hstarts _ _ En). cbn [tabRequests].
  destruct (IntMap_get tabs (1 + Z.of_nat n)); reflexivity.
Qed.

(** The requests of the loop that counts down: one for every iteration
    number with tabs to add and a line start, later iterations first. *)
Lemma insertRequests_loop_spec (n : nat) (tabs starts : IntMap) :
  (forall i j a b, 1 <= i <= j -> IntMap_get starts i = Some a ->
                   IntMap_get starts j = Some b -> a <= b) ->
  Forall (fun request => exists k v,
             1 <= k <= Z.of_nat n
             /\ IntMap_get tabs k = Some v
             /\ IntMap_get starts k = Some (docs.Index request)
             /\ docs.InsertedText request = strings.Repeat x09 v)
         (insertRequests_loop n tabs starts)
  /\ nonIncreasing (map docs.Index (insertRequests_loop n tabs starts)).
Proof.
  intros Hmono. induction n as [|n [IH1 IH2]]; [split; constructor|].
  cbn [insertRequests_loop].
  assert (IH1' : Forall (fun request => exists k v,
                            1 <= k <= Z.of_nat (S n)
                            /\ IntMap_get tabs k = Some v
                            /\ IntMap_get starts k = Some (docs.Index request)
                            /\ docs.InsertedText request = strings.Repeat x09 v)
                        (insertRequests_loop n tabs starts)).
  { eapply Forall_impl; [|exact IH1]. cbn beta.
    intros request (k & v & Hk & H). exists k, v. split; [lia|exact H]. }
  destruct (IntMap_get tabs (Z.of_nat (S n))) as [numTabs|] eqn:Et;
    [|split; [exact IH1'|exact IH2]].
  destruct (IntMap_get starts (Z.of_nat (S n))) as [startIndex|] eqn:Es;
    [|split; [exact IH1'|exact IH2]].
  cbn [app map docs.Index nonIncreasing]. split.
  - constructor; [|exact IH1'].
    exists (Z.of_nat (S n)), numTabs. cbn. repeat split; try assumption; lia.
  - split; [|exact IH2]. apply Forall_map.
    eapply Forall_impl; [|exact IH1]. cbn beta.
    intros request (k & v & Hk & _ & Hs & _).
    apply (Hmono k (Z.of_nat (S n))); [lia|exact Hs|exact Es].
Qed.

Lemma insertRequests_loop_complete (n : nat) (tabs starts : IntMap) k v a :
  1 <= k <= Z.of_nat n ->
  IntMap_get tabs k = Some v -> IntMap_get starts k = Some a ->
  In {| docs.Index := a; docs.InsertedText := strings.Repeat x09 v |}
     (insertRequests_loop n tabs starts).
Proof.
  intros Hk Ht Hs. induction n as [|n IH]; [lia|].
  cbn [insertRequests_loop]. apply in_or_app.
  destruct (Z.eq_dec k (Z.of_nat (S n))) as [->|Hne].
  - left. rewrite Ht, Hs. now left.
  - right. apply IH. lia.
Qed.

(** Lists whose members are in ascending order under a measure. *)
Lemma ascending_app {A} (f : A -> Z) (l1 l2 : list A) x :
  (forall a, In a l1 -> f a = x) -> (forall b, In b l2 -> x <= f b) ->
  (forall i j a b, (i <= j)%nat -> nth_error l2 i = Some a -> nth_error l2 j = Some b ->
                   f a <= f b) ->
  forall i j a b, (i <= j)%nat -> nth_error (l1 ++ l2) i = Some a ->
                  nth_error (l1 ++ l2) j = Some b -> f a <= f b.
Proof.
  intros H1 H2 Hasc i j a b Hij Ha Hb.
  destruct (Nat.lt_ge_cases i (List.length l1)) as [Hi|Hi].
  - rewrite nth_error_app1 in Ha by exact Hi. apply nth_error_In in Ha.
    rewrite (H1 a Ha).
    destruct (Nat.lt_ge_cases j (List.length l1)) as [Hj|Hj].
    + rewrite nth_error_app1 in Hb by exact Hj. apply nth_error_In in Hb.
      rewrite (H1 b Hb). lia.
    + rewrite nth_error_app2 in Hb by exact Hj. apply nth_error_In in Hb.
      now apply H2.
  - rewrite nth_error_app2 in Ha by exact Hi.
    rewrite nth_error_app2 in Hb by lia.
    apply (Hasc (i - List.length l1)%nat (j - List.length l1)%nat); [lia|exact Ha|exact Hb].
Qed.

Lemma linesFrom_ascending rest : forall lineIndex,
  ascendingStarts rest ->
  forall i j a b, (i <= j)%nat ->
                  nth_error (linesFrom rest lineIndex) i = Some a ->
                  nth_error (linesFrom rest lineIndex) j = Some b ->
                  docs.StartIndex (LineInfo.Element a) <= docs.StartIndex (LineInfo.Element b).
Proof.
  induction rest as [|element rest IH]; intros lineIndex Hasc i j a b Hij Ha Hb.
  - destruct i; discriminate.
  - destruct Hasc as [Hall Hasc]. cbn [linesFrom] in Ha, Hb.
    destruct (paragraphLines element) as [[firstRun lines]|].
    + revert i j a b Hij Ha Hb.
      apply (ascending_app (fun line => docs.StartIndex (LineInfo.Element line))
                           _ _ (docs.StartIndex element)).
      * intros a Ha. apply in_map_iff in Ha. now destruct Ha as (p & <- & _).
      * intros b Hb. apply linesFrom_In in Hb. destruct Hb as (_ & _ & Hb & _).
        exact (proj1 (Forall_forall _ _) Hall _ Hb).
      * now apply IH.
    + now apply (IH lineIndex Hasc i j).
Qed.

Lemma ascendingStarts_skipn n : forall content,
  ascendingStarts content -> ascendingStarts (skipn n content).
Proof.
  induction n as [|n IH]; intros content H; [exact H|].
  destruct content as [|e content]; [exact I|]. destruct H as [_ H]. now apply IH.
Qed.

(** The requests of the pass that inserts the tabs, for a target whose
    paragraphs start at ascending indices: exactly one request for every
    line of the target read again whose iteration has tabs to add, at the
    start of the paragraph of the line and with that many tabs, the requests
    of later lines first, so that the insertion index never increases
    through the list. *)
Theorem tab_requests_later_lines_first
        (fuel : nat) (targetDoc : docs.Document) (tabsToAddMap lineStartIndices : IntMap)
        (currentLoopID : Z) :
  ascendingStarts (contentOf (newCursor targetDoc)) ->
  lineStartIndices_loop fuel (newCursor targetDoc) [] 1
  = Some (inr (lineStartIndices, currentLoopID)) ->
  let insertRequests :=
    insertRequests_loop (Z.to_nat (currentLoopID - 1)) tabsToAddMap lineStartIndices in
  insertRequests
  = rev (tabRequests tabsToAddMap 1 (pendingLines (newCursor targetDoc)))
  /\ nonIncreasing (map docs.Index insertRequests)
  /\ (forall request,
         In request insertRequests <->
         exists i line numTabs,
           nth_error (pendingLines (newCursor targetDoc)) i = Some line
           /\ IntMap_get tabsToAddMap (1 + Z.of_nat i) = Some numTabs
           /\ request = {| docs.Index := docs.StartIndex (LineInfo.Element line);
                           docs.InsertedText := strings.Repeat x09 numTabs |}).
Proof.
  intros Hasc E insertRequests.
  pose proof (lineStartIndices_loop_lines _ _ _ _ _ _ (newCursor_ok targetDoc) E)
    as [Hk Hget].
  set (lines := pendingLines (newCursor targetDoc)) in *.
  assert (Hstart : forall k a,
             IntMap_get lineStartIndices k = Some a ->
             1 <= k < currentLoopID
             /\ exists line, nth_error lines (Z.to_nat (k - 1)) = Some line
                             /\ a = docs.StartIndex (LineInfo.Element line)).
  { intros k a H. rewrite Hget in H.
    destruct ((1 <=? k) && (k <? currentLoopID)) eqn:Hr; [|discriminate].
    apply andb_true_iff in Hr. split; [lia|].
    destruct (nth_error lines (Z.to_nat (k - 1))) as [line|]; [|discriminate].
    exists line. split; [reflexivity|]. cbn in H. congruence. }
  assert (Hmono : forall i j a b, 1 <= i <= j -> IntMap_get lineStartIndices i = Some a ->
                                  IntMap_get lineStartIndices j = Some b -> a <= b).
  { intros i j a b Hij Ha Hb.
    destruct (Hstart _ _ Ha) as (Hi & la & Hla & ->).
    destruct (Hstart _ _ Hb) as (Hj & lb & Hlb & ->).
    apply (linesFrom_ascending (sliceFrom (contentOf (newCursor targetDoc)) 0) 0
                               (ascendingStarts_skipn (Z.to_nat 0) _ Hasc)
                               (Z.to_nat (i - 1)) (Z.to_nat (j - 1)));
      [lia|exact Hla|exact Hlb]. }
  destruct (insertRequests_loop_spec (Z.to_nat (currentLoopID - 1)) tabsToAddMap
                                     lineStartIndices Hmono) as [Hall Hdesc].
  split.
  { subst insertRequests. unfold len in Hk.
    rewrite (insertRequests_loop_exact tabsToAddMap lineStartIndices lines).
    - replace (Z.to_nat (currentLoopID - 1)) with (List.length lines) by lia.
      now rewrite firstn_all.
    - intros i line Hline. rewrite Hget.
      assert (Hi : (i < List.length lines)%nat) by (apply nth_error_Some; congruence).
      replace ((1 <=? 1 + Z.of_nat i) && (1 + Z.of_nat i <? currentLoopID)) with true
        by (symmetry; apply andb_true_iff; split; [apply Z.leb_le|apply Z.ltb_lt]; lia).
      replace (Z.to_nat (1 + Z.of_nat i - 1)) with i by lia. now rewrite Hline.
    - lia. }
  split; [exact Hdesc|]. intros request. split.
  - intros Hin. destruct (proj1 (Forall_forall _ _) Hall _ Hin)
      as (k & v & Hkr & Ht & Hs & Htext).
    destruct (Hstart _ _ Hs) as (_ & line & Hline & Hidx).
    exists (Z.to_nat (k - 1)), line, v.
    split; [exact Hline|]. split; [now replace (1 + Z.of_nat (Z.to_nat (k - 1))) with k by lia|].
    destruct request as [idx text]. cbn in *. congruence.
  - intros (i & line & v & Hline & Ht & ->).
    assert (Hi : (i < List.length lines)%nat) by (apply nth_error_Some; congruence).
    unfold len in Hk.
    apply (insertRequests_loop_complete _ _ _ (1 + Z.of_nat i)); [lia|exact Ht|].
    rewrite Hget.
    replace ((1 <=? 1 + Z.of_nat i) && (1 + Z.of_nat i <? currentLoopID)) with true
      by (symmetry; apply andb_true_iff; split; [apply Z.leb_le|apply Z.ltb_lt]; lia).
    replace (Z.to_nat (1 + Z.of_nat i - 1)) with i by lia. now rewrite Hline.
Qed.

Lemma getNextNonEmptyLine_empty cursor :
  contentOf cursor = [] ->
  getNextNonEmptyLine cursor = (inr (errorString (str "empty document")), cursor).
Proof.
  unfold contentOf, getNextNonEmptyLine.
  destruct (docs.Body_ (DocumentCursor.Document cursor)) as [body|]; [|reflexivity].
  now intros ->.
Qed.

Section DriverEnds.
Context {tables : unicode.CaseTables}.

(** The main loop ends after at most as many full rounds as the target has
    lines left: it is left in the round after them at the latest. *)
Theorem mainLoop_ends_within_target_lines (fuel : nat) (loopID : Z) (st : locals) :
  cursorOk (sourceCursor st) -> cursorOk (targetCursor st) ->
  (List.length (pendingLines (targetCursor st)) < fuel)%nat ->
  exists s n stn,
    mainLoop fuel loopID st = Some s
    /\ (n <= List.length (pendingLines (targetCursor st)))%nat
    /\ rounds n loopID st = Some stn
    /\ mainLoopBody (loopID + Z.of_nat n) stn = s
    /\ forall st', s <> Next st'.
Proof.
  revert loopID st. induction fuel as [|fuel IH]; intros loopID st Hsrc Htgt Hfuel; [lia|].
  cbn [mainLoop].
  destruct (mainLoopBody loopID st) as [st1|st1|err st1] eqn:Eb.
  - destruct (mainLoopBody_effect _ _ _ Hsrc Htgt Eb)
      as (Hsrc1 & Htgt1 & _ & (tli & Hp & _) & _).
    rewrite Hp in *. cbn [List.length] in *.
    destruct (IH (loopID + 1) st1 Hsrc1 Htgt1 ltac:(lia)) as (s & n & stn & E & Hn & Er & Es & Hs).
    exists s, (S n), stn. split; [exact E|]. split; [lia|].
    split; [cbn [rounds]; now rewrite Eb|]. split; [|exact Hs].
    now replace (loopID + Z.of_nat (S n)) with (loopID + 1 + Z.of_nat n) by lia.
  - exists (Break st1), O, st. rewrite Z.add_0_r.
    repeat split; [lia|exact Eb|discriminate].
  - exists (ReturnErr err st1), O, st. rewrite Z.add_0_r.
    repeat split; [lia|exact Eb|discriminate].
Qed.

(** A source without a line is an error, before anything of the target is
    read: the run returns "error reading first source line" around "end of
    document", or around "empty document" when the source has no content. *)
Theorem synchronizeDocuments_source_without_lines
        (fuel : nat) (sourceCursor targetCursor : DocumentCursor)
        (docsService : Service) (startLoop : Z) :
  cursorOk sourceCursor ->
  pendingLines sourceCursor = [] ->
  exists err,
    synchronizeDocuments fuel sourceCursor targetCursor docsService startLoop
    = Returned (Some (errorWrap (str "error reading first source line: %v") err)) None
    /\ (err = errorString (str "end of document")
        \/ err = errorString (str "empty document") /\ contentOf sourceCursor = []).
Proof.
  intros Hok Hp. unfold synchronizeDocuments, firstSourceLine.
  pose proof (getNextNonEmptyLine_step sourceCursor Hok) as Hs.
  destruct (getNextNonEmptyLine sourceCursor) as [[li|err] c].
  - destruct Hs as (Hp' & _). congruence.
  - destruct Hs as (_ & Herr & _). now exists err.
Qed.

(** A target without a line, against a source with one: the main loop is
    left in its first round and nothing is formatted; the run returns no
    error, unless the target has no content at all, which is the error
    "error reading target document" around "empty document". *)
Theorem synchronizeDocuments_target_without_lines
        (fuel : nat) (sourceCursor targetCursor : DocumentCursor)
        (docsService : Service) (startLoop : Z) :
  cursorOk sourceCursor -> cursorOk targetCursor ->
  pendingLines sourceCursor <> [] ->
  pendingLines targetCursor = [] ->
  startLoop <= 1 ->
  exists final,
    synchronizeDocuments (S fuel) sourceCursor targetCursor docsService startLoop
    = Returned (if len (contentOf targetCursor) =? 0 then
                  Some (errorWrap (str "error reading target document: %v")
                                  (errorString (str "empty document")))
                else None)
               (Some final)
    /\ applied final = [] /\ tabsToAddMap final = []
    /\ sourceLineNum final = 1 /\ targetLineNum final = 0.
Proof.
  intros Hsrc Htgt Hps Hpt Hstart. unfold synchronizeDocuments, firstSourceLine.
  pose proof (getNextNonEmptyLine_step sourceCursor Hsrc) as Hs.
  destruct (getNextNonEmptyLine sourceCursor) as [[li|err] c].
  2:{ destruct Hs as (Hp' & _). congruence. }
  replace (startLoop >? 1) with false by lia.
  cbn [mainLoop]. unfold mainLoopBody, mainLoop_source, shouldAdvanceSourceCursor.
  unfold initialLocals at 1. fields. unfold initialLocals at 1. fields.
  destruct (len (contentOf targetCursor) =? 0) eqn:Hc.
  - apply len_eqb_0 in Hc. rewrite (getNextNonEmptyLine_empty _ Hc).
    change (isEndOfDocument (errorString (str "empty document"))) with false. cbv iota.
    eexists. split; [reflexivity|]. now repeat split.
  - pose proof (getNextNonEmptyLine_step targetCursor Htgt) as Ht.
    destruct (getNextNonEmptyLine targetCursor) as [[tli|err] c2].
    { destruct Ht as (Hp' & _). congruence. }
    destruct Ht as (_ & Herr & _).
    destruct Herr as [->|[_ Hnil]].
    2:{ rewrite Hnil in Hc. discriminate. }
    change (isEndOfDocument (errorString (str "end of document"))) with true. cbv iota.
    fields. unfold insertTabs. change (len (@nil (Z * Z)) >? 0) with false. cbv iota.
    eexists. split; [reflexivity|]. now repeat split.
Qed.

End DriverEnds.


(** * The formatting a target line receives *)

Section DriverFormatting.
Context {tables : unicode.CaseTables}.

(** How a target line that passes is formatted.  A line that is neither
    Chinese nor Mixed has the key of the current source line and receives
    the features of that line, which become the previous features.  A
    Chinese or Mixed line receives the previous features exactly when there
    are some: the decision's ShouldFollowPrevStyle never holds the call
    back; it receives nothing before the first line that matched. *)
Theorem mainLoop_line_formatting (loopID : Z) (st st' : locals) (targetLineInfo : LineInfo) :
  keyInSync st ->
  mainLoop_line loopID st targetLineInfo = Next st' ->
  let call features :=
    {| atLoop := loopID;
       rangeStart := docs.StartIndex (LineInfo.Element targetLineInfo);
       rangeEnd := docs.EndIndex (LineInfo.Element targetLineInfo);
       appliedFeatures := features |} in
  if containsChinese (LineInfo.Text targetLineInfo) then
    lastProcessedWasChinese st' = true
    /\ previousFeatures st' = previousFeatures st
    /\ applied st'
       = applied st ++ match previousFeatures st with
                       | Some previous => [call previous]
                       | None => []
                       end
  else
    generateLineKey (LineInfo.Text targetLineInfo)
    = generateLineKey (LineInfo.Text (sourceLineInfo st))
    /\ lastProcessedWasChinese st' = false
    /\ previousFeatures st' = Some (sourceFeatures st)
    /\ applied st' = applied st ++ [call (sourceFeatures st)].
Proof.
  intros Hk. unfold mainLoop_line. cbv zeta.
  cbn [AnalyzeLineMatch MatchDecision.LineType MatchDecision.LinesMatch
       MatchDecision.ShouldFollowPrevStyle].
  unfold shouldFollowPreviousLineStyle, linesMatch. cbv zeta.
  fold (isChineseOrMixed (classifyLineType (LineInfo.Text targetLineInfo))).
  rewrite classifyLineType_ChineseOrMixed. unfold keyInSync in Hk. rewrite <- Hk.
  destruct (containsChinese (LineInfo.Text targetLineInfo)).
  - destruct st as [sc tc sln tln prev flag tabs sli skey sfeat calls]. fields.
    destruct prev as [pf|]; fields.
    + destruct (LineFeatures.LeadingTabs pf >? 0); fields; cbn [andb];
        intros E; inversion E; subst; fields; now repeat split.
    + intros E; inversion E; subst; fields. rewrite app_nil_r. now repeat split.
  - destruct (gostring_eqb (sourceKey st) (generateLineKey (LineInfo.Text targetLineInfo)))
      eqn:Hm; cbn [negb]; [|discriminate].
    apply gostring_eqb_eq in Hm.
    destruct st as [sc tc sln tln prev flag tabs sli skey sfeat calls]. fields.
    destruct (LineFeatures.LeadingTabs sfeat >? 0); fields;
      intros E; inversion E; subst; fields; cbn in Hm; now repeat split.
Qed.

(** What a line changes of the features the driver holds. *)
Lemma mainLoop_line_features loopID st targetLineInfo st' :
  mainLoop_line loopID st targetLineInfo = Next st' ->
  sourceFeatures st' = sourceFeatures st
  /\ (previousFeatures st' = previousFeatures st
      \/ previousFeatures st' = Some (sourceFeatures st))
  /\ (applied st' = applied st
      \/ exists call,
          applied st' = applied st ++ [call]
          /\ (appliedFeatures call = sourceFeatures st
              \/ previousFeatures st = Some (appliedFeatures call))).
Proof.
  unfold mainLoop_line. cbv zeta. destruct st. fields.
  repeat (match goal with
          | |- context [if ?c then _ else _] => destruct c
          | |- context [match ?o with Some _ => _ | None => _ end] => is_var o; destruct o
          end; fields);
    intros E; inversion E; subst; fields;
    (split; [reflexivity|]);
    (split; [first [left; reflexivity|right; reflexivity]|]);
    first [ left; reflexivity
          | right; eexists; split; [reflexivity|]; cbn;
            first [left; reflexivity|right; reflexivity] ].
Qed.

Lemma mainLoop_source_features sourceLines st st' :
  cursorOk (sourceCursor st) ->
  mainLoop_source st = Next st' ->
  featuresFromSource sourceLines st -> featuresFromSource sourceLines st'.
Proof.
  intros Hok E (Hpend & Hsf & Hpf & Happ).
  unfold mainLoop_source, shouldAdvanceSourceCursor in E.
  destruct (lastProcessedWasChinese st); [|inversion E; subst; now repeat split].
  pose proof (getNextNonEmptyLine_step _ Hok) as Hs.
  destruct (getNextNonEmptyLine (sourceCursor st)) as [[li|err] c];
    [|destruct (isEndOfDocument err); discriminate].
  destruct Hs as (Hp & _). inversion E; subst. unfold featuresFromSource. fields.
  split; [intros line Hl; apply Hpend; rewrite Hp; now right|].
  split; [exists li; split; [apply Hpend; rewrite Hp; now left|reflexivity]|].
  split; [exact Hpf|exact Happ].
Qed.

Lemma mainLoopBody_features sourceLines loopID st st' :
  cursorOk (sourceCursor st) ->
  mainLoopBody loopID st = Next st' ->
  featuresFromSource sourceLines st -> featuresFromSource sourceLines st'.
Proof.
  intros Hok Eb Hinv. unfold mainLoopBody in Eb.
  destruct (mainLoop_source st) as [st0| |] eqn:Es; cbn [andThen] in Eb; try discriminate.
  apply (mainLoop_source_features sourceLines _ _ Hok Es) in Hinv.
  destruct (getNextNonEmptyLine (targetCursor st0)) as [[tli|err] c];
    [|destruct (isEndOfDocument err); discriminate].
  pose proof (mainLoop_line_features _ _ _ _ Eb) as (Hf1 & Hf2 & Hf3).
  destruct (mainLoop_line_effect _ _ _ _ Eb) as (Hsc & _).
  destruct Hinv as (Hpend & Hsf & Hpf & Happ).
  change (sourceCursor (set_targetLine st0 c)) with (sourceCursor st0) in Hsc.
  change (sourceFeatures (set_targetLine st0 c)) with (sourceFeatures st0) in Hf1, Hf2, Hf3.
  change (previousFeatures (set_targetLine st0 c)) with (previousFeatures st0) in Hf2, Hf3.
  change (applied (set_targetLine st0 c)) with (applied st0) in Hf3.
  unfold featuresFromSource. rewrite Hsc, Hf1.
  split; [exact Hpend|]. split; [exact Hsf|]. split.
  - intros previous Hprev. destruct Hf2 as [Hf2|Hf2]; rewrite Hf2 in Hprev.
    + now apply Hpf.
    + inversion Hprev; subst. exact Hsf.
  - destruct Hf3 as [Hf3|(call & Hf3 & Hcall)]; rewrite Hf3; [exact Happ|].
    apply Forall_app. split; [exact Happ|]. constructor; [|constructor].
    destruct Hcall as [Hcall|Hcall]; [now rewrite Hcall|now apply Hpf].
Qed.

(** The formatting the driver applies always comes from the source: every
    call of a run from iteration 1 applies the features
    [extractLineFeatures] reads from a line of the source document. *)
Theorem formatting_comes_from_source
        (n : nat) (sourceCursor0 targetCursor0 : DocumentCursor) (st0 stn : locals) :
  cursorOk sourceCursor0 -> cursorOk targetCursor0 ->
  firstSourceLine sourceCursor0 targetCursor0 = inr st0 ->
  rounds n 1 st0 = Some stn ->
  Forall (fun call => exists line,
              In line (pendingLines sourceCursor0)
              /\ appliedFeatures call = featuresOf line)
         (applied stn).
Proof.
  intros Hsrc Htgt E0 Er. unfold firstSourceLine in E0.
  pose proof (getNextNonEmptyLine_step _ Hsrc) as Hs.
  destruct (getNextNonEmptyLine sourceCursor0) as [[li|err] c]; [|discriminate].
  destruct Hs as (Hp & Hok & _). inversion E0; subst st0. clear E0.
  assert (Hinv : featuresFromSource (pendingLines sourceCursor0)
                                    (initialLocals li c targetCursor0)).
  { unfold featuresFromSource, initialLocals. fields.
    split; [intros line Hl; rewrite Hp; now right|].
    split; [exists li; split; [rewrite Hp; now left|reflexivity]|].
    split; [discriminate|constructor]. }
  assert (Hgen : forall n loopID st stn,
             cursorOk (sourceCursor st) -> cursorOk (targetCursor st) ->
             featuresFromSource (pendingLines sourceCursor0) st ->
             rounds n loopID st = Some stn ->
             featuresFromSource (pendingLines sourceCursor0) stn).
  { clear. induction n as [|n IH]; intros loopID st stn Hs Ht Hinv E; cbn [rounds] in E;
      [inversion E; now subst|].
    destruct (mainLoopBody loopID st) as [st1| |] eqn:Eb; try discriminate.
    destruct (mainLoopBody_effect _ _ _ Hs Ht Eb) as (Hs1 & Ht1 & _).
    apply (IH _ _ _ Hs1 Ht1 (mainLoopBody_features _ _ _ _ Hs Eb Hinv) E). }
  exact (proj2 (proj2 (proj2 (Hgen n 1 (initialLocals li c targetCursor0) stn
                                   Hok Htgt Hinv Er)))).
Qed.

End DriverFormatting.


(** * The actions on one document *)

Lemma len_eqb_0_false {A} (x : A) (l : list A) : (len (x :: l) =? 0) = false.
Proof. apply Z.eqb_neq. rewrite len_cons. pose proof (len_nonneg l). lia. Qed.

Lemma nonIncreasing_rev_starts content :
  ascendingStarts content -> nonIncreasing (rev (map docs.StartIndex content)).
Proof.
  induction content as [|e content IH]; intros H; [exact I|].
  destruct H as [Hall H]. cbn [map rev]. specialize (IH H).
  assert (Hsnoc : forall l x, nonIncreasing l -> Forall (fun y => x <= y) l ->
                              nonIncreasing (l ++ [x])).
  { clear. induction l as [|y l IHl]; intros x Hl Hx; [cbn; split; constructor|].
    destruct Hl as [Hy Hl]. inversion Hx; subst. cbn [app nonIncreasing]. split.
    - apply Forall_app. split; [exact Hy|]. constructor; [assumption|constructor].
    - now apply IHl. }
  apply Hsnoc; [exact IH|].
  apply Forall_rev, Forall_map. exact Hall.
Qed.

Lemma ascendingStarts_filter f content :
  ascendingStarts content -> ascendingStarts (List.filter f content).
Proof.
  induction content as [|e content IH]; intros H; [exact I|].
  destruct H as [Hall H]. cbn [List.filter].
  destruct (f e); [|now apply IH]. split; [|now apply IH].
  now apply Forall_filter.
Qed.

Lemma paragraphIndices_loop_spec content : forall acc,
  paragraphIndices_loop content acc
  = acc ++ map docs.StartIndex (List.filter paragraphHasText content).
Proof.
  induction content as [|e content IH]; intros acc; [now rewrite app_nil_r|].
  cbn [paragraphIndices_loop List.filter]. unfold paragraphHasText at 1.
  destruct (docs.Paragraph_ e) as [paragraph|]; [|apply IH].
  destruct (hasText_loop (docs.Elements paragraph)); [|apply IH].
  rewrite IH, <- app_assoc. reflexivity.
Qed.

Lemma tabInsertions_loop_spec count : forall paragraphIndices requests,
  (count <= List.length paragraphIndices)%nat ->
  tabInsertions_loop count paragraphIndices requests
  = requests
    ++ map (fun index => InsertText {| docs.Index := index; docs.InsertedText := [x09] |})
           (rev (firstn count paragraphIndices)).
Proof.
  induction count as [|i IH]; intros indices requests Hi; [now rewrite app_nil_r|].
  cbn [tabInsertions_loop]. rewrite IH by lia.
  rewrite (firstn_snoc 0) by lia. rewrite rev_app_distr. cbn [rev app map].
  now rewrite <- app_assoc.
Qed.

Lemma centerRequests_loop_spec content : forall requests,
  centerRequests_loop content requests
  = requests
    ++ map (fun element =>
              UpdateParagraphStyle (docs.StartIndex element) (docs.EndIndex element)
                                   {| docs.Alignment := str "CENTER" |} (str "alignment"))
           (List.filter isParagraph content).
Proof.
  induction content as [|e content IH]; intros requests; [now rewrite app_nil_r|].
  cbn [centerRequests_loop List.filter]. unfold isParagraph at 1.
  destruct (docs.Paragraph_ e); [|apply IH].
  rewrite IH, <- app_assoc. reflexivity.
Qed.

Lemma startsWithChinese_nil : startsWithChinese [] = false.
Proof. reflexivity. Qed.

Lemma spacingRequests_loop_spec count : forall content insertRequests,
  (count <= List.length content)%nat ->
  spacingRequests_loop count content insertRequests
  = insertRequests
    ++ map (fun element =>
              InsertText {| docs.Index := docs.EndIndex element;
                            docs.InsertedText := [x0a] |})
           (List.filter paragraphStartsWithChinese (rev (firstn count content))).
Proof.
  induction count as [|i IH]; intros content requests Hi; [now rewrite app_nil_r|].
  cbn [spacingRequests_loop].
  destruct (nth_error content i) as [element|] eqn:En.
  2:{ apply nth_error_None in En. lia. }
  rewrite (firstn_snoc element) by lia. rewrite (nth_error_nth _ _ _ En).
  rewrite rev_app_distr. cbn [rev app List.filter].
  unfold paragraphStartsWithChinese at 1.
  destruct (docs.Paragraph_ element) as [paragraph|]; [|now apply IH; lia].
  destruct (len (docs.Elements paragraph) >? 0) eqn:Hlen.
  - set (text := strings.TrimSpace
                   (strings.String (paragraphText_loop (docs.Elements paragraph) []))).
    destruct (gostring_eqb text []) eqn:Ht; cbn [negb andb].
    + apply gostring_eqb_eq in Ht. rewrite Ht, startsWithChinese_nil. apply IH. lia.
    + destruct (startsWithChinese text); [|apply IH; lia].
      rewrite IH by lia. cbn [map]. now rewrite <- app_assoc.
  - assert (He : docs.Elements paragraph = []).
    { destruct (docs.Elements paragraph) as [|x l]; [reflexivity|].
      rewrite len_cons in Hlen. pose proof (len_nonneg l). lia. }
    rewrite He. cbn [paragraphText_loop]. change (startsWithChinese _) with false.
    apply IH. lia.
Qed.

(** [insertTabsAtLineStart] on a document with a body: one tab is inserted
    at the start of every paragraph that has a text run which is not blank,
    the last paragraph first, so that on a document whose paragraphs start
    at ascending indices no insertion index is greater than one before it;
    without such a paragraph the error is "no paragraphs found to update". *)
Theorem insertTabsAtLineStart_last_paragraph_first
        (env : Environment) (docsService : DocsClient) (doc : docs.Document)
        (body : docs.Body) :
  credentialsNotExist env = false ->
  NewService env = inl docsService ->
  Get_Do docsService = inl doc ->
  docs.Body_ doc = Some body ->
  let starts :=
    rev (map docs.StartIndex (List.filter paragraphHasText (docs.BodyContent body))) in
  insertTabsAtLineStart env
  = sends docsService
          (map (fun index => InsertText {| docs.Index := index;
                                           docs.InsertedText := [x09] |}) starts)
          (Some (errorString (str "no paragraphs found to update")))
          (str "failed to insert tabs: %v")
  /\ (ascendingStarts (docs.BodyContent body) -> nonIncreasing starts).
Proof.
  intros Hc Hs Hg Hb starts. split.
  - unfold insertTabsAtLineStart, withDocument. rewrite Hc, Hs, Hg, Hb. cbv zeta.
    rewrite paragraphIndices_loop_spec. cbn [app].
    rewrite tabInsertions_loop_spec by lia. rewrite firstn_all. cbn [app]. fold starts.
    unfold sends. destruct (map _ starts) as [|r l]; [reflexivity|].
    now rewrite len_eqb_0_false.
  - intros Hasc. unfold starts. apply nonIncreasing_rev_starts.
    now apply ascendingStarts_filter.
Qed.

(** [applyCenterAlignment] on a document with a body: every paragraph, with
    or without text, gets the alignment CENTER over its whole range, in the
    order of the document; without a paragraph the error is "no paragraphs
    found to update". *)
Theorem applyCenterAlignment_every_paragraph
        (env : Environment) (docsService : DocsClient) (doc : docs.Document)
        (body : docs.Body) :
  credentialsNotExist env = false ->
  NewService env = inl docsService ->
  Get_Do docsService = inl doc ->
  docs.Body_ doc = Some body ->
  applyCenterAlignment env
  = sends docsService
          (map (fun element =>
                  UpdateParagraphStyle (docs.StartIndex element) (docs.EndIndex element)
                                       {| docs.Alignment := str "CENTER" |}
                                       (str "alignment"))
               (List.filter isParagraph (docs.BodyContent body)))
          (Some (errorString (str "no paragraphs found to update")))
          (str "failed to apply center alignment: %v").
Proof.
  intros Hc Hs Hg Hb.
  unfold applyCenterAlignment, withDocument. rewrite Hc, Hs, Hg, Hb. cbv zeta.
  rewrite centerRequests_loop_spec. cbn [app].
  unfold sends. destruct (map _ _) as [|r l]; [reflexivity|].
  now rewrite len_eqb_0_false.
Qed.

(** [applyChineseLineSpacing] on a document with a body: a newline is
    inserted at the end of exactly the paragraphs whose text starts with
    Chinese, the last paragraph first; the tests for a paragraph without
    elements and for an empty text change nothing; without such a paragraph
    nothing is sent and no error returned. *)
Theorem applyChineseLineSpacing_after_Chinese_paragraphs
        (env : Environment) (docsService : DocsClient) (doc : docs.Document)
        (body : docs.Body) :
  credentialsNotExist env = false ->
  NewService env = inl docsService ->
  Get_Do docsService = inl doc ->
  docs.Body_ doc = Some body ->
  applyChineseLineSpacing env
  = sends docsService
          (map (fun element =>
                  InsertText {| docs.Index := docs.EndIndex element;
                                docs.InsertedText := [x0a] |})
               (rev (List.filter paragraphStartsWithChinese (docs.BodyContent body))))
          None
          (str "failed to add spacing after Chinese lines: %v").
Proof.
  intros Hc Hs Hg Hb.
  unfold applyChineseLineSpacing, withDocument. rewrite Hc, Hs, Hg, Hb. cbv zeta.
  rewrite spacingRequests_loop_spec by lia. rewrite firstn_all. cbn [app].
  assert (Hrev : forall {A} (f : A -> bool) l, List.filter f (rev l) = rev (List.filter f l)).
  { clear. intros A f l. induction l as [|x l IH]; [reflexivity|].
    cbn [rev List.filter]. rewrite filter_app, IH. cbn [List.filter].
    destruct (f x); [reflexivity|now rewrite app_nil_r]. }
  rewrite Hrev.
  unfold sends. destruct (map _ _) as [|r l]; [reflexivity|].
  now rewrite len_eqb_0_false.
Qed.


(** * Fast-forward beyond the end of the target *)

Section FastForwardEnds.
Context {tables : unicode.CaseTables}.

(** A full round of the fast-forward loop reads the next pending target
    line. *)
Lemma fastForwardBody_effect st st' :
  cursorOk (sourceCursor st) -> cursorOk (targetCursor st) ->
  fastForwardBody st = Next st' ->
  cursorOk (sourceCursor st') /\ cursorOk (targetCursor st')
  /\ exists targetLine,
      pendingLines (targetCursor st) = targetLine :: pendingLines (targetCursor st').
Proof.
  intros Hsrc Htgt. unfold fastForwardBody.
  destruct (fastForward_source st) as [st0| |] eqn:Es; cbn [andThen]; try discriminate.
  assert (H0 : cursorOk (sourceCursor st0) /\ targetCursor st0 = targetCursor st).
  { unfold fastForward_source, shouldAdvanceSourceCursor in Es.
    destruct (lastProcessedWasChinese st); [|inversion Es; subst; now split].
    pose proof (getNextNonEmptyLine_step _ Hsrc) as Hs.
    destruct (getNextNonEmptyLine (sourceCursor st)) as [[li|err] c];
      [|destruct (isEndOfDocument err); discriminate].
    destruct Hs as (_ & Hok & _). inversion Es; subst. now split. }
  destruct H0 as [Hsrc0 Htc]. rewrite <- Htc in Htgt |- *.
  pose proof (getNextNonEmptyLine_step _ Htgt) as Ht.
  destruct (getNextNonEmptyLine (targetCursor st0)) as [[tli|err] c];
    [|destruct (isEndOfDocument err); discriminate].
  destruct Ht as (Hp & Hok' & _).
  intros El. pose proof (fastForward_line_targetCursor _ _ _ El) as Htc'.
  assert (Hsc' : sourceCursor st' = sourceCursor st0).
  { revert El. unfold fastForward_line. cbv zeta.
    destruct st0 as [sc tc sln tln prev flag tabs sli skey sfeat calls].
    split_body; intros E; inversion E; reflexivity. }
  rewrite Htc', Hsc'. cbn [targetCursor set_targetLine].
  split; [exact Hsrc0|]. split; [exact Hok'|]. now exists tli.
Qed.

(** Fast-forwarding through more iterations than the target has lines left
    is an error, and nothing is formatted on the way. *)
Lemma fastForward_loop_beyond n : forall loopID st,
  cursorOk (sourceCursor st) -> cursorOk (targetCursor st) ->
  (List.length (pendingLines (targetCursor st)) < n)%nat ->
  exists err st', fastForward_loop n loopID st = ReturnErr err st'
                  /\ applied st' = applied st.
Proof.
  induction n as [|n IH]; intros loopID st Hsrc Htgt Hn; [lia|].
  cbn [fastForward_loop].
  destruct (fastForwardBody_applies_nothing st) as (Happ & _ & Hbreak).
  destruct (fastForwardBody st) as [st1|st1|err st1] eqn:Eb; cbn [andThen stateOf] in *.
  - destruct (fastForwardBody_effect _ _ Hsrc Htgt Eb) as (Hsrc1 & Htgt1 & tli & Hp).
    rewrite Hp in Hn. cbn [List.length] in Hn.
    destruct (IH (loopID + 1) st1 Hsrc1 Htgt1 ltac:(lia)) as (err & st' & E & Ha).
    exists err, st'. split; [exact E|congruence].
  - now contradiction (Hbreak st1).
  - now exists err, st1.
Qed.

(** A run told to resume at an iteration beyond the lines of the target
    returns an error, whatever the fuel, and formats nothing. *)
Theorem synchronizeDocuments_resume_beyond_target
        (fuel : nat) (source target : DocumentCursor)
        (docsService : Service) (startLoop : Z) :
  cursorOk source -> cursorOk target ->
  pendingLines source <> [] ->
  len (pendingLines target) < startLoop - 1 ->
  exists err final,
    synchronizeDocuments fuel source target docsService startLoop
    = Returned (Some err) (Some final)
    /\ applied final = [].
Proof.
  intros Hsrc Htgt Hps Hlen. unfold synchronizeDocuments, firstSourceLine.
  pose proof (getNextNonEmptyLine_step source Hsrc) as Hs.
  destruct (getNextNonEmptyLine source) as [[li|err] c].
  2:{ destruct Hs as (Hp' & _). congruence. }
  destruct Hs as (_ & Hok & _).
  pose proof (len_nonneg (pendingLines target)).
  replace (startLoop >? 1) with true by lia.
  destruct (fastForward_loop_beyond (Z.to_nat (startLoop - 1)) 1
              (initialLocals li c target) Hok Htgt
              ltac:(cbn [targetCursor initialLocals]; unfold len in Hlen; lia))
    as (err & st' & E & Ha).
  rewrite E. now exists err, st'.
Qed.

End FastForwardEnds.


(** * The statements at work on the two small documents *)

Lemma caseless_ToLower r :
  validRune r -> 0x80 <= r -> unicode.ToLower (tables := unicode.caselessAboveASCII) r = r.
Proof.
  intros [Hr _] Hge. unfold unicode.ToLower, unicode.MaxASCII.
  replace (r <=? 127) with false by (symmetry; apply Z.leb_gt; lia).
  cbn [unicode.To_LowerCase unicode.caselessAboveASCII]. unfold int32.
  rewrite Z.mod_small by lia. lia.
Qed.

Lemma bilingual_firstSourceLine :
  firstSourceLine (tables := unicode.caselessAboveASCII) bilingualSource bilingualTarget
  = inr bilingualStart.
Proof. vm_compute. reflexivity. Qed.

Lemma bilingualSource_ok : cursorOk bilingualSource.
Proof. apply newCursor_ok. Qed.

Lemma bilingualTarget_ok : cursorOk bilingualTarget.
Proof. apply newCursor_ok. Qed.

Lemma bilingualStart_ok :
  cursorOk (sourceCursor bilingualStart) /\ cursorOk (targetCursor bilingualStart).
Proof. split; unfold cursorOk; cbn; lia. Qed.

(** The key of "a." is empty. *)
Lemma generateLineKey_empty_witness :
  generateLineKey (tables := unicode.caselessAboveASCII) (str "a.") = [].
Proof.
  apply (proj2 (generateLineKey_empty_iff (tables := unicode.caselessAboveASCII) (str "a.")
                  ltac:(intros r Hr; vm_compute in Hr;
                        repeat (destruct Hr as [<-|Hr]; [lia|]); contradiction))).
  right. exists 97. vm_compute. reflexivity.
Defined.

(** The key of a title has no blank and no upper-case letter. *)
Lemma generateLineKey_no_blank_witness :
  Forall (fun b => notBlank (byteZ b) = true /\ ~ (65 <= byteZ b <= 90))
         (generateLineKey (tables := unicode.caselessAboveASCII)
                          (str "Title: Jesus Christ, the Same")).
Proof.
  apply (generateLineKey_no_blank_no_upper (tables := unicode.caselessAboveASCII)).
  intros r Hv Hge. rewrite (caseless_ToLower r Hv Hge). split; [|lia].
  unfold notBlank.
  repeat (apply andb_true_iff; split); apply negb_true_iff, Z.eqb_neq; lia.
Defined.

(** The encoding of four characters, two of them Chinese. *)
Lemma containsChinese_encodeRunes_witness :
  containsChinese (encodeRunes [0x7267; 0x5E08; 32; 65]) = true.
Proof.
  rewrite (containsChinese_encodeRunes [0x7267; 0x5E08; 32; 65]
             ltac:(repeat constructor; unfold validRune; lia)).
  reflexivity.
Defined.

(** The four lines of the target, read one after the other. *)
Lemma readLines_witness :
  map LineInfo.Text (readLines 5 bilingualTarget) = bilingualTargetLines.
Proof.
  rewrite (readLines_in_reading_order 4 bilingualTarget bilingualTarget_ok
             ltac:(vm_compute; lia)).
  vm_compute. reflexivity.
Defined.

(** The source read to its end fails again and again. *)
Lemma getNextNonEmptyLine_exhausted_witness :
  pendingLines (cursorAt bilingualSource 2 0) = []
  /\ getNextNonEmptyLine (cursorAt bilingualSource 2 0)
     = (inr (errorString (str "end of document")), cursorAt bilingualSource 2 0).
Proof.
  destruct (getNextNonEmptyLine_exhausted_again
              (cursorAt bilingualSource 2 0) (cursorAt bilingualSource 2 0)
              (errorString (str "end of document"))
              ltac:(unfold cursorOk; cbn; lia) ltac:(vm_compute; reflexivity))
    as (H1 & _ & H3).
  split; [exact H1|exact H3].
Defined.

(** The first line of the target moves the cursor to the second paragraph. *)
Lemma getNextNonEmptyLine_moves_forward_witness :
  exists info,
    getNextNonEmptyLine bilingualTarget = (inl info, cursorAt bilingualTarget 1 0)
    /\ cursorBefore bilingualTarget (cursorAt bilingualTarget 1 0).
Proof.
  eexists. split; [vm_compute; reflexivity|].
  refine (proj1 (proj2 (getNextNonEmptyLine_moves_forward
                          bilingualTarget (cursorAt bilingualTarget 1 0) _
                          bilingualTarget_ok _))).
  vm_compute. reflexivity.
Defined.

(** The first line of the source is not empty and has lost its tab. *)
Lemma getNextNonEmptyLine_line_witness :
  exists info c',
    getNextNonEmptyLine bilingualSource = (inl info, c')
    /\ LineInfo.Text info = str "Title: Jesus Christ, the Same"
    /\ LineInfo.Text info <> [].
Proof.
  eexists. eexists. split; [vm_compute; reflexivity|]. split; [reflexivity|].
  refine (proj1 (getNextNonEmptyLine_line bilingualSource _ _ bilingualSource_ok _)).
  vm_compute. reflexivity.
Defined.

(** Two tabs before the text of a run. *)
Lemma extractLineFeatures_LeadingTabs_witness :
  LineFeatures.LeadingTabs
    (extractLineFeatures
       {| docs.StartIndex := 1; docs.EndIndex := 9; docs.Paragraph_ := None |}
       (Some {| docs.Content := x09 :: x09 :: str "Point" ++ [x0a];
                docs.TextStyle_ := None |})
       (str "Point"))
  = 2.
Proof.
  apply (extractLineFeatures_LeadingTabs _ _ _ 2 (str "Point" ++ [x0a]));
    [lia|reflexivity|].
  intros t H. vm_compute in H. discriminate.
Defined.

(** Four rounds over the two documents read the four lines of the target
    and the second line of the source. *)
Lemma rounds_read_in_order_witness :
  exists (stn : locals) (sourceRead targetRead : list LineInfo),
    rounds (tables := unicode.caselessAboveASCII) 4 1 bilingualStart = Some stn
    /\ pendingLines (targetCursor bilingualStart)
       = targetRead ++ pendingLines (targetCursor stn)
    /\ List.length targetRead = 4%nat
    /\ targetLineNum stn = 4
    /\ sourceLineNum stn = 1 + Z.of_nat (List.length sourceRead).
Proof.
  eexists.
  destruct (rounds_read_in_order (tables := unicode.caselessAboveASCII)
              4 1 bilingualStart _ (proj1 bilingualStart_ok) (proj2 bilingualStart_ok)
              ltac:(vm_compute; reflexivity))
    as (sourceRead & targetRead & _ & H2 & H3 & _ & H5 & H6).
  exists sourceRead, targetRead.
  split; [vm_compute; reflexivity|]. split; [exact H2|]. split; [exact H3|].
  split; [exact H5|exact H6].
Defined.

(** The calls of the four rounds, one in every iteration. *)
Lemma rounds_format_witness :
  exists stn calls,
    rounds (tables := unicode.caselessAboveASCII) 4 1 bilingualStart = Some stn
    /\ applied stn = applied bilingualStart ++ calls
    /\ map atLoop calls = [1; 2; 3; 4]
    /\ increasingFrom 1 (map atLoop calls).
Proof.
  eexists.
  destruct (rounds_format_the_line_read (tables := unicode.caselessAboveASCII)
              4 1 bilingualStart _ (proj1 bilingualStart_ok) (proj2 bilingualStart_ok)
              ltac:(vm_compute; reflexivity))
    as (calls & H1 & H2 & _).
  exists calls. split; [vm_compute; reflexivity|]. split; [exact H1|].
  split; [|exact H2].
  cbn [applied bilingualStart initialLocals app] in H1. rewrite <- H1.
  vm_compute. reflexivity.
Defined.

(** The tab of the first source line is recorded under iteration 2, for
    the Chinese line that follows the title. *)
Lemma rounds_record_positive_tabs_witness :
  exists stn,
    rounds (tables := unicode.caselessAboveASCII) 4 1 bilingualStart = Some stn
    /\ IntMap_get (tabsToAddMap stn) 2 = Some 1
    /\ (IntMap_get (tabsToAddMap bilingualStart) 2 = Some 1
        \/ (1 <= 2 < 1 + Z.of_nat 4 /\ 0 < 1)).
Proof.
  eexists. split; [vm_compute; reflexivity|]. split; [vm_compute; reflexivity|].
  refine (rounds_record_positive_tabs (tables := unicode.caselessAboveASCII)
            4 1 bilingualStart _ 2 1
            (proj1 bilingualStart_ok) (proj2 bilingualStart_ok) _ _);
    vm_compute; reflexivity.
Defined.

(** The second reading of the target binds the four iterations. *)
Lemma lineStartIndices_witness :
  exists lineStartIndices,
    lineStartIndices_loop 5 bilingualTarget [] 1 = Some (inr (lineStartIndices, 5))
    /\ 5 = 1 + len (pendingLines bilingualTarget)
    /\ IntMap_get lineStartIndices 0 = None
    /\ IntMap_get lineStartIndices 5 = None.
Proof.
  eexists. split; [vm_compute; reflexivity|].
  destruct (lineStartIndices_loop_binds_lines 5 bilingualTarget _ 5 bilingualTarget_ok
              ltac:(vm_compute; reflexivity))
    as (H1 & _ & H3).
  split; [exact H1|]. split; apply H3; lia.
Defined.

(** The requests for the tabs recorded in the four rounds: the Chinese
    line first, at index 31, then the title, at index 1. *)
Lemma tab_requests_witness :
  insertRequests_loop (Z.to_nat (5 - 1)) [(2, 1); (1, 1)]
                      [(4, 60); (3, 44); (2, 31); (1, 1)]
  = [{| docs.Index := 31; docs.InsertedText := [x09] |};
     {| docs.Index := 1; docs.InsertedText := [x09] |}]
  /\ nonIncreasing
       (map docs.Index
            (insertRequests_loop (Z.to_nat (5 - 1)) [(2, 1); (1, 1)]
                                 [(4, 60); (3, 44); (2, 31); (1, 1)])).
Proof.
  destruct (tab_requests_later_lines_first
              5 (documentOfLines bilingualTargetLines) [(2, 1); (1, 1)]
              [(4, 60); (3, 44); (2, 31); (1, 1)] 5
              ltac:(vm_compute; repeat (split || constructor); discriminate)
              ltac:(vm_compute; reflexivity))
    as (Hexact & Hdesc & _).
  split; [|exact Hdesc].
  rewrite Hexact. vm_compute. reflexivity.
Defined.

(** The main loop over the two documents is left in its fifth round. *)
Lemma mainLoop_ends_witness :
  exists s n stn,
    mainLoop (tables := unicode.caselessAboveASCII) 5 1 bilingualStart = Some s
    /\ (n <= 4)%nat
    /\ rounds (tables := unicode.caselessAboveASCII) n 1 bilingualStart = Some stn
    /\ forall st', s <> Next st'.
Proof.
  destruct (mainLoop_ends_within_target_lines (tables := unicode.caselessAboveASCII)
              5 1 bilingualStart (proj1 bilingualStart_ok) (proj2 bilingualStart_ok)
              ltac:(vm_compute; lia))
    as (s & n & stn & H1 & H2 & H3 & _ & H5).
  exists s, n, stn. split; [exact H1|]. split; [|split; [exact H3|exact H5]].
  revert H2. vm_compute. exact (fun H => H).
Defined.

(** A source document without content. *)
Lemma source_without_lines_witness :
  exists err,
    synchronizeDocuments (tables := unicode.caselessAboveASCII) 5
      (newCursor (documentOfLines [])) bilingualTarget idleService 1
    = Returned (Some (errorWrap (str "error reading first source line: %v") err)) None.
Proof.
  destruct (synchronizeDocuments_source_without_lines
              (tables := unicode.caselessAboveASCII) 5
              (newCursor (documentOfLines [])) bilingualTarget idleService 1
              (newCursor_ok _) ltac:(vm_compute; reflexivity))
    as (err & H & _).
  now exists err.
Defined.

(** A target document without content against the source of two lines. *)
Lemma target_without_lines_witness :
  exists final,
    synchronizeDocuments (tables := unicode.caselessAboveASCII) 1
      bilingualSource (newCursor (documentOfLines [])) idleService 1
    = Returned (Some (errorWrap (str "error reading target document: %v")
                                (errorString (str "empty document"))))
               (Some final)
    /\ applied final = [].
Proof.
  destruct (synchronizeDocuments_target_without_lines
              (tables := unicode.caselessAboveASCII) 0
              bilingualSource (newCursor (documentOfLines [])) idleService 1
              bilingualSource_ok (newCursor_ok _)
              ltac:(vm_compute; discriminate) ltac:(vm_compute; reflexivity) ltac:(lia))
    as (final & H1 & H2 & _).
  exists final. split; [exact H1|exact H2].
Defined.

(** The title of the target against the title of the source. *)
Lemma mainLoop_line_formatting_witness :
  let targetLine :=
    lineOf (hd {| docs.StartIndex := 0; docs.EndIndex := 0; docs.Paragraph_ := None |}
               (contentOf bilingualTarget))
           (Some {| docs.Content := str "Title: Jesus Christ, the Same" ++ [x0a];
                    docs.TextStyle_ := None |})
           (str "Title: Jesus Christ, the Same") in
  let st := set_targetLine bilingualStart (cursorAt bilingualTarget 1 0) in
  getNextNonEmptyLine bilingualTarget = (inl targetLine, cursorAt bilingualTarget 1 0)
  /\ exists st',
      mainLoop_line (tables := unicode.caselessAboveASCII) 1 st targetLine = Next st'
      /\ lastProcessedWasChinese st' = false
      /\ previousFeatures st' = Some (sourceFeatures bilingualStart)
      /\ List.length (applied st') = 1%nat.
Proof.
  intros targetLine st. split; [vm_compute; reflexivity|].
  assert (Hk : keyInSync (tables := unicode.caselessAboveASCII) st)
    by (vm_compute; reflexivity).
  destruct (mainLoop_line (tables := unicode.caselessAboveASCII) 1 st targetLine)
    as [st'|st'|err st'] eqn:E;
    [|exfalso; vm_compute in E; discriminate|exfalso; vm_compute in E; discriminate].
  pose proof (mainLoop_line_formatting (tables := unicode.caselessAboveASCII)
                1 st st' targetLine Hk E) as H.
  cbv zeta in H.
  replace (containsChinese (LineInfo.Text targetLine)) with false in H
    by (vm_compute; reflexivity).
  destruct H as (_ & H2 & H3 & H4).
  exists st'. split; [reflexivity|]. split; [exact H2|]. split; [exact H3|].
  rewrite H4. reflexivity.
Defined.

(** The four calls of the run apply features of the two source lines. *)
Lemma formatting_comes_from_source_witness :
  exists stn,
    rounds (tables := unicode.caselessAboveASCII) 4 1 bilingualStart = Some stn
    /\ List.length (applied stn) = 4%nat
    /\ Forall (fun call => exists line,
                   In line (pendingLines bilingualSource)
                   /\ appliedFeatures call = featuresOf line)
              (applied stn).
Proof.
  eexists. split; [vm_compute; reflexivity|]. split; [vm_compute; reflexivity|].
  refine (formatting_comes_from_source (tables := unicode.caselessAboveASCII)
            4 bilingualSource bilingualTarget bilingualStart _
            bilingualSource_ok bilingualTarget_ok bilingual_firstSourceLine _).
  vm_compute. reflexivity.
Defined.

(** The three actions on the target of four lines, every request accepted. *)
Lemma insertTabsAtLineStart_witness :
  let docsService :=
    {| Get_Do := inl (documentOfLines bilingualTargetLines);
       BatchUpdate_Do := fun requests =>
         if len requests =? 4 then None else Some (errorString (str "rejected")) |} in
  insertTabsAtLineStart {| credentialsNotExist := false; NewService := inl docsService |}
  = returns None
  /\ nonIncreasing
       (rev (map docs.StartIndex
                 (List.filter paragraphHasText
                              (paragraphsOfLines 1 bilingualTargetLines)))).
Proof.
  cbv zeta.
  destruct (insertTabsAtLineStart_last_paragraph_first
              {| credentialsNotExist := false;
                 NewService := inl {| Get_Do := inl (documentOfLines bilingualTargetLines);
                                      BatchUpdate_Do := fun requests =>
                                        if len requests =? 4 then None
                                        else Some (errorString (str "rejected")) |} |}
              _ _ _ eq_refl eq_refl eq_refl eq_refl) as [H1 H2].
  split.
  - rewrite H1. vm_compute. reflexivity.
  - apply H2. vm_compute. repeat (split || constructor); discriminate.
Defined.

Lemma applyCenterAlignment_witness :
  let docsService :=
    {| Get_Do := inl (documentOfLines bilingualTargetLines);
       BatchUpdate_Do := fun requests =>
         if len requests =? 4 then None else Some (errorString (str "rejected")) |} in
  applyCenterAlignment {| credentialsNotExist := false; NewService := inl docsService |}
  = returns None.
Proof.
  cbv zeta.
  rewrite (applyCenterAlignment_every_paragraph
             {| credentialsNotExist := false;
                NewService := inl {| Get_Do := inl (documentOfLines bilingualTargetLines);
                                     BatchUpdate_Do := fun requests =>
                                       if len requests =? 4 then None
                                       else Some (errorString (str "rejected")) |} |}
             _ _ _ eq_refl eq_refl eq_refl eq_refl).
  vm_compute. reflexivity.
Defined.

Lemma applyChineseLineSpacing_witness :
  let docsService :=
    {| Get_Do := inl (documentOfLines bilingualTargetLines);
       BatchUpdate_Do := fun requests =>
         if len requests =? 2 then None else Some (errorString (str "rejected")) |} in
  applyChineseLineSpacing {| credentialsNotExist := false; NewService := inl docsService |}
  = returns None.
Proof.
  cbv zeta.
  rewrite (applyChineseLineSpacing_after_Chinese_paragraphs
             {| credentialsNotExist := false;
                NewService := inl {| Get_Do := inl (documentOfLines bilingualTargetLines);
                                     BatchUpdate_Do := fun requests =>
                                       if len requests =? 2 then None
                                       else Some (errorString (str "rejected")) |} |}
             _ _ _ eq_refl eq_refl eq_refl eq_refl).
  vm_compute. reflexivity.
Defined.

(** The run over the two documents returns with twenty rounds of fuel. *)
Lemma synchronizeDocuments_returns_witness :
  exists err final,
    synchronizeDocuments (tables := unicode.caselessAboveASCII) 20
      bilingualSource bilingualTarget idleService 1
    = Returned err final.
Proof.
  apply (synchronizeDocuments_returns (tables := unicode.caselessAboveASCII)
           (documentOfLines bilingualSourceLines) (documentOfLines bilingualTargetLines)
           idleService 1 20%nat).
  vm_compute. lia.
Defined.

(** A run over the two documents told to resume at iteration 6, beyond the
    four lines of the target. *)
Lemma resume_beyond_target_witness :
  exists err final,
    synchronizeDocuments (tables := unicode.caselessAboveASCII) 0
      bilingualSource bilingualTarget idleService 6
    = Returned (Some err) (Some final)
    /\ applied final = [].
Proof.
  apply (synchronizeDocuments_resume_beyond_target
           (tables := unicode.caselessAboveASCII) 0
           bilingualSource bilingualTarget idleService 6
           bilingualSource_ok bilingualTarget_ok).
  - vm_compute. discriminate.
  - vm_compute. reflexivity.
Defined.
